(** * Visual-Recognition: fingerprint store, two-stage matching, frame voting

    A shallow embedding of
      - [src/src/database_manager.py]  ([FingerprintDatabase]),
      - [src/src/recognize.py]         ([MediaRecognizer]),
      - [src/visrec/recognizer.py]     ([VisualRecognizer]),
      - [src/visrec/models.py]         ([RecognitionResult], [MatchType]),
      - [src/src/fingerprint_extractor.py], [src/src/add_media.py].

    Conventions.
      - Python [int] is [Z]; [len] is [Z.of_nat (length _)].
      - Numbers come at two levels.  The aggregation, the store and the
        scripts carry a Python [float] (timestamps, similarities) as a
        rational, [Q]: finite floats with the order of the rationals.
        Where rounding, infinities or [nan] decide what the code does,
        the same source lines are embedded again in floating point:
        module [Np] has Stage 2 on numpy [float32] scalars, module [F64]
        has the extraction script on Python floats.
      - [list.sort] is a stable insertion sort; what it makes of keys
        some of which are [nan] is left to an [Np.interpreter].
      - A call that may raise returns [outcome A].
      - The SQLite tables are lists of rows in rowid order; a [SELECT]
        without [ORDER BY] over a table yields the rows in that order. *)

From Stdlib Require Import Ascii String.
From Stdlib Require Import List ZArith NArith QArith Qminmax Qround Qabs Bool Lia.
From Stdlib Require Import Sorting.Sorted Sorting.Permutation.
From Stdlib Require DecimalString.
Import ListNotations.

#[local] Abbreviation length := Datatypes.length.

Local Open Scope Z_scope.

(* ================================================================== *)
(** ** Python values and exceptions *)

Module Py.

(** The built-in exceptions the embedded code can raise. *)
Inductive exn : Type :=
| ValueError   (* int(s, 16) on a non-hex text; scipy on mismatching shapes;
                  numpy.linspace on a negative count *)
| TypeError    (* subscripting the [None] returned by [fetchone] *)
| IndexError.  (* subscripting an empty list *)

Inductive outcome (A : Type) : Type :=
| Returned (a : A)
| Raised (e : exn).
Arguments Returned {A} a.
Arguments Raised {A} e.

Definition bind {A B} (c : outcome A) (k : A -> outcome B) : outcome B :=
  match c with
  | Returned a => k a
  | Raised e => Raised e
  end.

Definition raises {A} (c : outcome A) : Prop := exists e, c = Raised e.

(** [for x in l: acc.append(f(x))], stopping at the first exception. *)
Fixpoint for_each {A B} (f : A -> outcome B) (l : list A) : outcome (list B) :=
  match l with
  | [] => Returned []
  | x :: rest =>
      bind (f x) (fun y =>
      bind (for_each f rest) (fun ys => Returned (y :: ys)))
  end.

(** [l[:stop]] for an integer [stop]; a negative [stop] counts from the
    end. *)
Definition slice_to {A} (l : list A) (stop : Z) : list A :=
  if 0 <=? stop then firstn (Z.to_nat stop) l
  else firstn (Z.to_nat (Z.of_nat (length l) + stop)) l.

(** [list.sort] is stable.  [le x y] says that [x] may stay in front of
    an element [y] that followed it in the input. *)
Fixpoint insert_by {A} (le : A -> A -> bool) (x : A) (l : list A) : list A :=
  match l with
  | [] => [x]
  | y :: rest => if le x y then x :: l else y :: insert_by le x rest
  end.

Definition stable_sort {A} (le : A -> A -> bool) (l : list A) : list A :=
  fold_right (insert_by le) [] l.

(** [l.sort(key=k)]: the keys are computed first, one call per element
    and in order, then the decorated list is sorted on the keys. *)
Definition sort_key {A} (key : A -> outcome nat) (l : list A)
  : outcome (list A) :=
  bind (for_each key l) (fun ks =>
  Returned (map snd (stable_sort (fun a b => Nat.leb (fst a) (fst b))
                                 (combine ks l)))).

(** [max(l, key=k)]: the first element whose key is not exceeded;
    [gt a b] is [a > b] on keys. *)
Fixpoint max_from {A K} (gt : K -> K -> bool) (key : A -> K)
         (best : A) (l : list A) : A :=
  match l with
  | [] => best
  | x :: rest =>
      if gt (key x) (key best) then max_from gt key x rest
      else max_from gt key best rest
  end.

Definition max_by {A K} (gt : K -> K -> bool) (key : A -> K) (l : list A)
  : outcome A :=
  match l with
  | [] => Raised ValueError
  | x :: rest => Returned (max_from gt key x rest)
  end.

(** [collections.Counter]: a dict, so the keys keep the order of their
    first insertion. *)
Definition counter := list (string * Z).

Fixpoint counter_incr (c : counter) (k : string) : counter :=
  match c with
  | [] => [(k, 1)]
  | (k', n) :: rest =>
      if String.eqb k' k then (k', n + 1) :: rest
      else (k', n) :: counter_incr rest k
  end.

Definition Counter (l : list string) : counter :=
  fold_left counter_incr l [].

(** [c.most_common(1)]: [max] over the items on the count, hence the
    first inserted among the keys of highest count; [[]] when empty. *)
Definition most_common_1 (c : counter) : list (string * Z) :=
  match c with
  | [] => []
  | x :: rest => [max_from Z.gtb snd x rest]
  end.

(** [l[0]] *)
Definition item0 {A} (l : list A) : outcome A :=
  match l with
  | [] => Raised IndexError
  | x :: _ => Returned x
  end.

End Py.

Import Py.

Notation "x <- c ;; k" := (Py.bind c (fun x => k))
  (at level 61, c at next level, right associativity).

(* ================================================================== *)
(** ** [FingerprintDatabase]  (src/src/database_manager.py) *)

Module Hex.

Definition digit (c : ascii) : option N :=
  let n := N_of_ascii c in
  if ((48 <=? n) && (n <=? 57))%N then Some (n - 48)%N
  else if ((97 <=? n) && (n <=? 102))%N then Some (n - 87)%N
  else if ((65 <=? n) && (n <=? 70))%N then Some (n - 55)%N
  else None.

Fixpoint digits (acc : N) (s : string) : outcome N :=
  match s with
  | EmptyString => Returned acc
  | String c rest =>
      match digit c with
      | Some d => digits (16 * acc + d)%N rest
      | None => Raised ValueError
      end
  end.

(** [int(s, 16)] on a text of hexadecimal digits, which is what
    [str(imagehash.phash(..))] produces.  Signs, blanks, a [0x] prefix
    and underscores, which Python also reads, are rejected here. *)
Definition int16 (s : string) : outcome N :=
  match s with
  | EmptyString => Raised ValueError
  | _ => digits 0%N s
  end.

Fixpoint pos_bits (p : positive) (acc : list bool) : list bool :=
  match p with
  | xH => true :: acc
  | xO p' => pos_bits p' (false :: acc)
  | xI p' => pos_bits p' (true :: acc)
  end.

(** [bin(n)[2:]], most significant digit first. *)
Definition bin (n : N) : list bool :=
  match n with
  | N0 => [false]
  | Npos p => pos_bits p []
  end.

(** [s.zfill(w)] *)
Definition zfill (w : nat) (l : list bool) : list bool :=
  repeat false (w - length l) ++ l.

End Hex.

(** [sum(c1 != c2 for c1, c2 in zip(bin1, bin2))] *)
Definition count_differing (l : list (bool * bool)) : nat :=
  length (filter (fun p => negb (Bool.eqb (fst p) (snd p))) l).

Definition hamming_distance (hash1 hash2 : string) : outcome nat :=
  n1 <- Hex.int16 hash1 ;;
  n2 <- Hex.int16 hash2 ;;
  let bin1 := Hex.zfill 64 (Hex.bin n1) in
  let bin2 := Hex.zfill 64 (Hex.bin n2) in
  Returned (count_differing (combine bin1 bin2)).

(** A [numpy] float32 vector; [tobytes] followed by [frombuffer] gives the
    same flat vector back, so the stored blob is the vector. *)
Definition features := list Q.

Record media_row : Type := {
  m_id : Z;
  m_title : string;
  m_year : option Z;
  m_duration : option Q;
  m_filepath : option string;
  m_total_frames : option Z
}.

Record fingerprint_row : Type := {
  f_id : Z;
  f_media_id : Z;
  f_timestamp : Q;
  f_frame_index : Z;
  f_phash : string;
  f_cnn_features : features
}.

(** The two tables with their AUTOINCREMENT counters (the largest rowid
    handed out so far). *)
Record database : Type := {
  media : list media_row;
  media_seq : Z;
  fingerprints : list fingerprint_row;
  fingerprints_seq : Z
}.

Definition create_tables : database :=
  {| media := []; media_seq := 0; fingerprints := []; fingerprints_seq := 0 |}.

Definition add_media (db : database) (title : string) (year : option Z)
           (filepath : option string) (duration : option Q)
           (total_frames : option Z) : database * Z :=
  let media_id := media_seq db + 1 in
  ({| media := media db ++
               [{| m_id := media_id; m_title := title; m_year := year;
                   m_duration := duration; m_filepath := filepath;
                   m_total_frames := total_frames |}];
      media_seq := media_id;
      fingerprints := fingerprints db;
      fingerprints_seq := fingerprints_seq db |},
   media_id).

(** One [INSERT] of the loop of [add_fingerprints]. *)
Definition insert_fingerprint (media_id : Z) (db : database)
           (entry : Z * (Q * string * features)) : database :=
  let '(idx, (timestamp, phash, cnn_features)) := entry in
  let new_id := fingerprints_seq db + 1 in
  {| media := media db;
     media_seq := media_seq db;
     fingerprints := fingerprints db ++
       [{| f_id := new_id; f_media_id := media_id; f_timestamp := timestamp;
           f_frame_index := idx; f_phash := phash;
           f_cnn_features := cnn_features |}];
     fingerprints_seq := new_id |}.

(** [enumerate(l)] *)
Fixpoint enumerate_from {A} (i : Z) (l : list A) : list (Z * A) :=
  match l with
  | [] => []
  | x :: rest => (i, x) :: enumerate_from (i + 1) rest
  end.

Definition add_fingerprints (db : database) (media_id : Z)
           (fps : list (Q * string * features)) : database :=
  fold_left (insert_fingerprint media_id) (enumerate_from 0 fps) db.

(** The row of [SELECT id, media_id, timestamp, phash, cnn_features]. *)
Record candidate : Type := {
  c_id : Z;
  c_media_id : Z;
  c_timestamp : Q;
  c_phash : string;
  c_cnn_blob : features
}.

Definition select_candidate (r : fingerprint_row) : candidate :=
  {| c_id := f_id r; c_media_id := f_media_id r;
     c_timestamp := f_timestamp r; c_phash := f_phash r;
     c_cnn_blob := f_cnn_features r |}.

(** The scan loop of [search_by_phash]. *)
Fixpoint scan_rows (query_hash : string) (max_distance : Z)
         (rows : list candidate) : outcome (list candidate) :=
  match rows with
  | [] => Returned []
  | row :: rest =>
      distance <- hamming_distance query_hash (c_phash row) ;;
      results <- scan_rows query_hash max_distance rest ;;
      Returned (if Z.of_nat distance <=? max_distance
                then row :: results else results)
  end.

Definition search_by_phash (db : database) (query_hash : string)
           (max_distance : Z) (limit : Z) : outcome (list candidate) :=
  results <- scan_rows query_hash max_distance
                       (map select_candidate (fingerprints db)) ;;
  sorted <- sort_key (fun x => hamming_distance query_hash (c_phash x))
                     results ;;
  Returned (slice_to sorted limit).

(** The tuple [(media_id, title, timestamp, similarity)] of Stage 2. *)
Record frame_match : Type := {
  fm_media_id : Z;
  fm_title : string;
  fm_timestamp : Q;
  fm_similarity : Q
}.

(** [SELECT .. FROM media WHERE id = ?] followed by [fetchone()]. *)
Definition select_media (db : database) (media_id : Z) : option media_row :=
  find (fun m => m_id m =? media_id) (media db).

(** [cursor.fetchone()[0]] for the title. *)
Definition fetch_title (db : database) (media_id : Z) : outcome string :=
  match select_media db media_id with
  | Some m => Returned (m_title m)
  | None => Raised TypeError
  end.

(** [x > y] and [x >= y] on floats. *)
Definition Qgtb (x y : Q) : bool := negb (Qle_bool x y).
Definition Qgeb (x y : Q) : bool := Qle_bool y x.

(** What the code takes from outside the repository. *)
Record externals : Type := {
  (** a decoded image ([numpy] array) *)
  frame : Type;
  (** [DualFingerprintExtractor.compute_phash], through [imagehash] *)
  compute_phash : frame -> string;
  (** [DualFingerprintExtractor.compute_cnn_features], through [torch] *)
  compute_cnn_features : frame -> features;
  (** [scipy.spatial.distance.cosine]; raises on mismatching shapes *)
  cosine : features -> features -> outcome Q;
  (** [os.path.splitext(path)[1].lower()] *)
  path_ext : string -> string;
  (** [cv2.imread]; [None] when the image cannot be loaded *)
  imread : string -> option frame;
  (** an opened [cv2.VideoCapture] *)
  video : Type;
  (** [cv2.VideoCapture(path)]; [None] when [isOpened()] is false *)
  VideoCapture : string -> option video;
  (** for each index of [np.linspace(0, total_frames - 1, n, dtype=int)],
      in order, the frame that [set] then [read] yield, [None] when [ret]
      is false; [linspace] raises on a negative [n] *)
  read_samples : video -> Z -> outcome (list (option frame))
}.

Section Engine.

Variable X : externals.

(** The body of the loop of [verify_with_cnn]. *)
Definition score_candidate (db : database) (query_features : features)
           (c : candidate) : outcome frame_match :=
  let cnn_features := c_cnn_blob c in
  d <- cosine X query_features cnn_features ;;
  let similarity := (1 - d)%Q in
  title <- fetch_title db (c_media_id c) ;;
  Returned {| fm_media_id := c_media_id c; fm_title := title;
              fm_timestamp := c_timestamp c;
              fm_similarity := similarity |}.

Definition verify_with_cnn (db : database) (candidates : list candidate)
           (query_features : features) : outcome (list frame_match) :=
  results <- for_each (score_candidate db query_features) candidates ;;
  Returned (stable_sort
              (fun a b => Qgeb (fm_similarity a) (fm_similarity b))
              results).

(** [[m for m in matches if m[3] >= cnn_threshold]], as both
    [_match_frame] and [recognize_frame] compute it after Stage 2. *)
Definition valid_matches (cnn_threshold : Q) (matches : list frame_match)
  : list frame_match :=
  filter (fun m => Qgeb (fm_similarity m) cnn_threshold) matches.

End Engine.

(* ================================================================== *)
(** ** [MediaRecognizer.recognize_frame]  (src/src/recognize.py) *)

(** The dict that [recognize_frame] returns. *)
Record frame_report : Type := {
  fr_media_id : Z;
  fr_title : string;
  fr_timestamp : Q;
  fr_similarity : Q;
  fr_confidence : Q;
  fr_candidates_stage1 : Z;
  fr_candidates_stage2 : Z
}.

Section MediaRecognizer.

Variable X : externals.

Definition recognize_frame (db : database) (f : frame X)
           (phash_threshold : Z) (cnn_threshold : Q)
  : outcome (option frame_report) :=
  let query_phash := compute_phash X f in
  let query_cnn := compute_cnn_features X f in
  candidates <- search_by_phash db query_phash phash_threshold 50 ;;
  match candidates with
  | [] => Returned None
  | _ =>
      matches <- verify_with_cnn X db candidates query_cnn ;;
      let valid := valid_matches cnn_threshold matches in
      match valid with
      | [] => Returned None
      | best_match :: _ =>
          Returned (Some
            {| fr_media_id := fm_media_id best_match;
               fr_title := fm_title best_match;
               fr_timestamp := fm_timestamp best_match;
               fr_similarity := fm_similarity best_match;
               fr_confidence := (fm_similarity best_match * 100)%Q;
               fr_candidates_stage1 := Z.of_nat (length candidates);
               fr_candidates_stage2 := Z.of_nat (length valid) |})
      end
  end.

End MediaRecognizer.

(* ================================================================== *)
(** ** [RecognitionResult]  (src/visrec/models.py) *)

Inductive MatchType : Type := STRONG | PROBABLE | WEAK | NONE.

Record RecognitionResult : Type := {
  matched : bool;
  title : option string;
  year : option Z;
  timestamp : option Q;
  confidence : option Q;
  match_type : MatchType;
  processing_time_ms : option Q;
  stage1_candidates : Z;
  stage2_candidates : Z;
  frames_sampled : Z;
  frames_matched : Z
}.

(** [RecognitionResult(matched=False, frames_sampled=.., frames_matched=..)],
    the other fields at their defaults. *)
Definition no_match (sampled n_matched : Z) : RecognitionResult :=
  {| matched := false; title := None; year := None; timestamp := None;
     confidence := None; match_type := NONE; processing_time_ms := None;
     stage1_candidates := 0; stage2_candidates := 0;
     frames_sampled := sampled; frames_matched := n_matched |}.

Definition set_processing_time (r : RecognitionResult) (ms : Q)
  : RecognitionResult :=
  {| matched := matched r; title := title r; year := year r;
     timestamp := timestamp r; confidence := confidence r;
     match_type := match_type r; processing_time_ms := Some ms;
     stage1_candidates := stage1_candidates r;
     stage2_candidates := stage2_candidates r;
     frames_sampled := frames_sampled r;
     frames_matched := frames_matched r |}.

(* ================================================================== *)
(** ** [VisualRecognizer]  (src/visrec/recognizer.py) *)

Definition _get_match_type (similarity : Q) : MatchType :=
  if Qgeb similarity (95 # 100)%Q then STRONG
  else if Qgeb similarity (80 # 100)%Q then PROBABLE
  else if Qgeb similarity (70 # 100)%Q then WEAK
  else NONE.

(** The attributes of a [VisualRecognizer] instance. *)
Record VisualRecognizer : Type := {
  db : database;
  phash_threshold : Z;
  cnn_threshold : Q
}.

(** [VisualRecognizer(db_path)] with the default thresholds. *)
Definition default_recognizer (d : database) : VisualRecognizer :=
  {| db := d; phash_threshold := 15; cnn_threshold := (6 # 10)%Q |}.

Definition image_extensions : list string :=
  [".jpg"; ".jpeg"; ".png"; ".bmp"; ".webp"]%string.

Section Recognizer.

Variable X : externals.

Definition _match_frame (self : VisualRecognizer) (f : frame X)
  : outcome (option frame_match) :=
  let phash := compute_phash X f in
  let cnn_features := compute_cnn_features X f in
  candidates <- search_by_phash (db self) phash (phash_threshold self) 50 ;;
  match candidates with
  | [] => Returned None
  | _ =>
      matches <- verify_with_cnn X (db self) candidates cnn_features ;;
      let valid := valid_matches (cnn_threshold self) matches in
      match valid with
      | [] => Returned None
      | best :: _ => Returned (Some best)
      end
  end.

Definition _get_year (self : VisualRecognizer) (media_id : Z) : option Z :=
  match select_media (db self) media_id with
  | Some row => m_year row
  | None => None
  end.

Definition _identify_image (self : VisualRecognizer) (image_path : string)
  : outcome RecognitionResult :=
  match imread X image_path with
  | None => Returned (no_match 0 0)
  | Some f =>
      m <- _match_frame self f ;;
      match m with
      | None => Returned (no_match 1 0)
      | Some mt =>
          let similarity := fm_similarity mt in
          let year := _get_year self (fm_media_id mt) in
          Returned
            {| matched := true; title := Some (fm_title mt); year := year;
               timestamp := Some (fm_timestamp mt);
               confidence := Some similarity;
               match_type := _get_match_type similarity;
               processing_time_ms := None;
               stage1_candidates := 0; stage2_candidates := 0;
               frames_sampled := 1; frames_matched := 1 |}
      end
  end.

(** The [for frame_idx in frame_indices] loop of [_identify_video], on
    the frames read at the sampled positions; the state is
    [(all_matches, total_stage2)]. *)
Fixpoint match_frames (self : VisualRecognizer)
         (reads : list (option (frame X)))
         (all_matches : list frame_match) (total_stage2 : Z)
  : outcome (list frame_match * Z) :=
  match reads with
  | [] => Returned (all_matches, total_stage2)
  | None :: rest => match_frames self rest all_matches total_stage2
  | Some f :: rest =>
      m <- _match_frame self f ;;
      match m with
      | Some mt =>
          match_frames self rest (all_matches ++ [mt]) (total_stage2 + 1)
      | None => match_frames self rest all_matches total_stage2
      end
  end.

Definition _identify_video (self : VisualRecognizer) (video_path : string)
           (sample_frames : Z) : outcome RecognitionResult :=
  match VideoCapture X video_path with
  | None => Returned (no_match 0 0)
  | Some v =>
      reads <- read_samples X v sample_frames ;;
      let total_stage1 := 0 in
      st <- match_frames self reads [] 0 ;;
      let '(all_matches, total_stage2) := st in
      match all_matches with
      | [] => Returned (no_match sample_frames 0)
      | _ =>
          let title_votes := Counter (map fm_title all_matches) in
          top <- item0 (most_common_1 title_votes) ;;
          let winning_title := fst top in
          let title_matches :=
            filter (fun m => String.eqb (fm_title m) winning_title)
                   all_matches in
          best <- max_by Qgtb fm_similarity title_matches ;;
          let similarity := fm_similarity best in
          let year := _get_year self (fm_media_id best) in
          Returned
            {| matched := true; title := Some (fm_title best);
               year := year;
               timestamp := Some (fm_timestamp best);
               confidence := Some similarity;
               match_type := _get_match_type similarity;
               processing_time_ms := None;
               stage1_candidates := total_stage1;
               stage2_candidates := total_stage2;
               frames_sampled := sample_frames;
               frames_matched := Z.of_nat (length all_matches) |}
      end
  end.

(** [elapsed_ms] is [(time.time() - start_time) * 1000] as measured when
    the inner call has returned. *)
Definition identify (self : VisualRecognizer) (path : string)
           (sample_frames : Z) (elapsed_ms : Q)
  : outcome RecognitionResult :=
  let ext := path_ext X path in
  result <- (if existsb (String.eqb ext) image_extensions
             then _identify_image self path
             else _identify_video self path sample_frames) ;;
  Returned (set_processing_time result elapsed_ms).

End Recognizer.

(* ================================================================== *)
(** ** Stage 2 in floating point  (numpy [float32] scalars)

    The definitions above carry a similarity as a rational.  The
    definitions of this part follow the same source lines with the
    similarity as numpy has it: a [float32] scalar, which may be [nan],
    rounded after each operation and compared with a Python float after
    that float has been converted to [float32] (the scalar rules of
    NumPy 2). *)

Module Np.

(** [2 ** e] *)
Definition pow2 (e : Z) : Q :=
  if 0 <=? e then inject_Z (2 ^ e) else / inject_Z (2 ^ (- e)).

(** The nearest integer; of two nearest ones the even one. *)
Definition nearest_even (x : Q) : Z :=
  let f := Qfloor x in
  match Qcompare (x - inject_Z f) (1 # 2) with
  | Lt => f
  | Gt => f + 1
  | Eq => if Z.even f then f else f + 1
  end.

(** [floor(log2(abs(x)))] for [x] other than 0. *)
Definition exponent (x : Q) : Z :=
  let k := Z.log2 (Z.abs (Qnum x)) - Z.log2 (Zpos (Qden x)) in
  if Qle_bool (pow2 k) (Qabs x) then k else k - 1.

(** The value nearest to [x], ties to even, among the binary floats
    with [prec] digits and least exponent [emin].  A result beyond the
    largest finite float stands for an infinity: it exceeds every finite
    float, as the infinity does. *)
Definition round (prec emin : Z) (x : Q) : Q :=
  if Qeq_bool x 0 then 0%Q
  else let e := Z.max (exponent x - (prec - 1)) emin in
       (inject_Z (nearest_even (x / pow2 e)) * pow2 e)%Q.

(** [numpy.float32(x)] and a Python float literal. *)
Definition float32 : Q -> Q := round 24 (-149).
Definition float64 : Q -> Q := round 53 (-1074).

(** A numpy [float32] scalar that is not infinite. *)
Inductive scalar : Type :=
| nan
| num (x : Q).

(** [a < b], false when either side is [nan]. *)
Definition lt (a b : scalar) : bool :=
  match a, b with
  | num x, num y => negb (Qle_bool y x)
  | _, _ => false
  end.

(** The [float32] that numpy makes of a Python float [t], itself the
    double nearest to the number written. *)
Definition as_float32 (t : Q) : Q := float32 (float64 t).

(** [s >= t] for a scalar [s] and a Python float [t]. *)
Definition ge_float (s : scalar) (t : Q) : bool :=
  match s with
  | nan => false
  | num x => Qle_bool (as_float32 t) x
  end.

(** [1 - d] *)
Definition one_minus (d : scalar) : scalar :=
  match d with
  | nan => nan
  | num x => num (float32 (1 - x))
  end.

(** The tuple [(media_id, title, timestamp, similarity)] of Stage 2. *)
Record frame_match : Type := {
  fm_media_id : Z;
  fm_title : string;
  fm_timestamp : Q;
  fm_similarity : scalar
}.

(** Some key is [nan]. *)
Definition has_nan (l : list frame_match) : bool :=
  existsb (fun m => match fm_similarity m with
                    | nan => true
                    | num _ => false
                    end) l.

(** No key is [<] the key after it: once the list is reversed, as
    [reverse=True] has it, no key is [<] the key before it, and the
    whole list is one run for [list.sort]. *)
Fixpoint one_run (l : list frame_match) : bool :=
  match l with
  | a :: (b :: _) as rest =>
      negb (lt (fm_similarity a) (fm_similarity b)) && one_run rest
  | _ => true
  end.

(** What the interpreter at hand makes of a [list.sort] some of whose
    keys are [nan].  The comparisons are then not those of an order, and
    where the numbers end up depends on the run detection and the binary
    insertion of the interpreter.  The list is rearranged, and a list
    that is one run is left as it is: there is nothing to insert and
    nothing to merge. *)
Record interpreter : Type := {
  sort_with_nan : list frame_match -> list frame_match;
  sort_with_nan_perm : forall l, Permutation (sort_with_nan l) l;
  sort_with_nan_run : forall l, one_run l = true -> sort_with_nan l = l
}.

(** [results.sort(key=lambda x: x[3], reverse=True)]: on keys that are
    numbers, the stable sort in descending order. *)
Definition sort_reverse (J : interpreter) (results : list frame_match)
  : list frame_match :=
  if has_nan results then sort_with_nan J results
  else stable_sort (fun a b => negb (lt (fm_similarity a) (fm_similarity b)))
                   results.

(** Every component is 0: the dot product of the vector with itself
    is 0. *)
Definition zero_magnitude (u : features) : bool :=
  forallb (fun x => Qeq_bool x 0) u.

Section Stage2.

Variable X : externals.
Variable J : interpreter.

(** [scipy.spatial.distance.cosine(u, v)], documented as
    [1 - u.v / (|u| |v|)]: where a vector has magnitude 0 the quotient
    is 0 / 0 on numpy scalars, which warns and gives [nan]; elsewhere the
    value is the one the external gives.  Shapes are checked first. *)
Definition scipy_cosine (u v : features) : outcome scalar :=
  d <- cosine X u v ;;
  Returned (if zero_magnitude u || zero_magnitude v then nan else num d).

(** The body of the loop of [verify_with_cnn]. *)
Definition score_candidate (db : database) (query_features : features)
           (c : candidate) : outcome frame_match :=
  let cnn_features := c_cnn_blob c in
  d <- scipy_cosine query_features cnn_features ;;
  let similarity := one_minus d in
  title <- fetch_title db (c_media_id c) ;;
  Returned {| fm_media_id := c_media_id c; fm_title := title;
              fm_timestamp := c_timestamp c;
              fm_similarity := similarity |}.

(** [FingerprintDatabase.verify_with_cnn] *)
Definition verify_with_cnn (db : database) (candidates : list candidate)
           (query_features : features) : outcome (list frame_match) :=
  results <- for_each (score_candidate db query_features) candidates ;;
  Returned (sort_reverse J results).

(** [[m for m in matches if m[3] >= cnn_threshold]] *)
Definition valid_matches (cnn_threshold : Q) (matches : list frame_match)
  : list frame_match :=
  filter (fun m => ge_float (fm_similarity m) cnn_threshold) matches.

(** [VisualRecognizer._match_frame] *)
Definition _match_frame (self : VisualRecognizer) (f : frame X)
  : outcome (option frame_match) :=
  let phash := compute_phash X f in
  let cnn_features := compute_cnn_features X f in
  candidates <- search_by_phash (db self) phash (phash_threshold self) 50 ;;
  match candidates with
  | [] => Returned None
  | _ =>
      matches <- verify_with_cnn (db self) candidates cnn_features ;;
      let valid := valid_matches (cnn_threshold self) matches in
      match valid with
      | [] => Returned None
      | best :: _ => Returned (Some best)
      end
  end.

(** Stage 2 as a whole: [verify_with_cnn] followed by the similarity
    floor that its callers apply to what it returns. *)
Definition stage2_verify (d : database) (candidates : list candidate)
           (query_features : features) (min_similarity : Q)
  : outcome (list frame_match) :=
  matches <- verify_with_cnn d candidates query_features ;;
  Returned (valid_matches min_similarity matches).


End Stage2.

(** The order of the similarities that are numbers. *)
Definition below (a b : scalar) : Prop :=
  match a, b with
  | num x, num y => (x < y)%Q
  | _, _ => False
  end.

Definition number (a : scalar) : Prop := exists x, a = num x.


Definition at_most (a b : scalar) : Prop :=
  match a, b with
  | num x, num y => (x <= y)%Q
  | _, _ => False
  end.


(** [a] is not below [b], with [nan] counted as the least scalar: a
    total order that agrees with [not (a < b)] on numbers. *)
Definition not_below (a b : scalar) : bool :=
  match a, b with
  | _, nan => true
  | nan, num _ => false
  | num x, num y => Qle_bool y x
  end.




(** "For every non-empty candidate list and query vector of matching
    dimension the output holds exactly one scored result per
    candidate." *)
Definition one_result_per_candidate (X : externals) (J : interpreter)
           (d : database)
           (candidates : list candidate) (query_features : features)
  : Prop :=
  candidates <> [] ->
  Forall (fun c => exists dist,
              cosine X query_features (c_cnn_blob c) = Returned dist)
         candidates ->
  exists out,
    verify_with_cnn X J d candidates query_features = Returned out /\
    length out = length candidates.

End Np.

(* ================================================================== *)
(** ** Specification-side vocabulary for Stage 1 *)

(** A text that [int(_, 16)] reads. *)
Definition hex_text (s : string) : Prop := exists n, Hex.int16 s = Returned n.

(** The rows that [search_by_phash] scans. *)
Definition stored (d : database) : list candidate :=
  map select_candidate (fingerprints d).

Definition within_budget (query_hash : string) (max_distance : Z)
           (c : candidate) : Prop :=
  exists dist, hamming_distance query_hash (c_phash c) = Returned dist /\
               Z.of_nat dist <= max_distance.

(** Ascending Hamming distance, equal distances by ascending id. *)
Definition ranks_before (query_hash : string) (a b : candidate) : Prop :=
  exists da db,
    hamming_distance query_hash (c_phash a) = Returned da /\
    hamming_distance query_hash (c_phash b) = Returned db /\
    ((da < db)%nat \/ (da = db /\ c_id a < c_id b)).

(** The Hamming distance of two 64-bit hashes: the number of bit
    positions, of the 64, at which the two values differ. *)
Definition bit_distance (n1 n2 : N) : nat :=
  length (filter (fun i => xorb (N.testbit n1 (N.of_nat i))
                                (N.testbit n2 (N.of_nat i)))
                 (seq 0 64)).

(** A 64-bit hash, written as a text of at most 16 hexadecimal digits. *)
Definition hash64 (s : string) (n : N) : Prop :=
  Hex.int16 s = Returned n /\ (String.length s <= 16)%nat.

Definition is_hash64 (s : string) : Prop := exists n, hash64 s n.

(** "The stored fingerprints whose Hamming distance to the query is at
    most [max_distance]." *)
Definition within_hamming (query_hash : string) (max_distance : Z)
           (c : candidate) : Prop :=
  exists nq nc,
    hash64 query_hash nq /\ hash64 (c_phash c) nc /\
    Z.of_nat (bit_distance nq nc) <= max_distance.

(** "Ascending by that distance, ties broken by ascending fingerprint
    id." *)
Definition ranks_before_hamming (query_hash : string) (a b : candidate)
  : Prop :=
  exists nq na nb,
    hash64 query_hash nq /\ hash64 (c_phash a) na /\
    hash64 (c_phash b) nb /\
    ((bit_distance nq na < bit_distance nq nb)%nat \/
     (bit_distance nq na = bit_distance nq nb /\ c_id a < c_id b)).

(** AUTOINCREMENT: ids grow along the table and stay below the counter. *)
Definition ids_ascending (d : database) : Prop :=
  StronglySorted Z.lt (map f_id (fingerprints d)).

Definition store_ok (d : database) : Prop :=
  ids_ascending d /\
  Forall (fun r => f_id r <= fingerprints_seq d) (fingerprints d).

(** The value of a call known to return. *)
Definition value_or {A} (default : A) (c : outcome A) : A :=
  match c with
  | Returned a => a
  | Raised _ => default
  end.

(** The distance from the query to the hash of [c] can be computed. *)
Definition readable (query_hash : string) (c : candidate) : Prop :=
  exists dist, hamming_distance query_hash (c_phash c) = Returned dist.

(** Comparison on a numeric key, and the order it leaves to a stable sort:
    by key, equal keys by the order [before] of the input. *)
Definition by_key {A} (key : A -> nat) (a b : A) : bool :=
  Nat.leb (key a) (key b).

Definition key_then {A} (key : A -> nat) (before : A -> A -> Prop) (a b : A)
  : Prop :=
  (key a < key b)%nat \/ (key a = key b /\ before a b).

(** The Hamming distance as a number, [0] where the call raises. *)
Definition distance_to (query_hash : string) (c : candidate) : nat :=
  value_or 0%nat (hamming_distance query_hash (c_phash c)).

Definition in_budget (query_hash : string) (max_distance : Z) (c : candidate)
  : bool :=
  Z.of_nat (distance_to query_hash c) <=? max_distance.

Definition distance_le (query_hash : string) (a b : candidate) : bool :=
  Nat.leb (distance_to query_hash a) (distance_to query_hash b).

(** The list that [search_by_phash] slices. *)
Definition ranked_within (query_hash : string) (max_distance : Z)
           (rows : list candidate) : list candidate :=
  stable_sort (distance_le query_hash)
              (filter (in_budget query_hash max_distance) rows).

(* ================================================================== *)
(** ** Specification-side vocabulary for the store *)

(** The hash length and the vector dimension of the first fingerprint ever
    inserted, when there is one. *)
Definition established_hash_length (d : database) : option nat :=
  option_map (fun r => String.length (f_phash r)) (hd_error (fingerprints d)).

Definition established_dimension (d : database) : option nat :=
  option_map (fun r => length (f_cnn_features r)) (hd_error (fingerprints d)).

Definition mismatching (d : database) (entry : Q * string * features) : Prop :=
  let '(_, phash, cnn_features) := entry in
  (exists k, established_hash_length d = Some k /\ String.length phash <> k) \/
  (exists k, established_dimension d = Some k /\ length cnn_features <> k).

(** "A batch with a mismatching entry leaves the store unchanged". *)
Definition rejects_mismatch (d : database) (media_id : Z)
           (batch : list (Q * string * features)) : Prop :=
  Exists (mismatching d) batch -> add_fingerprints d media_id batch = d.

(** The rows that a batch becomes, the first one under id [next_id]. *)
Fixpoint rows_from (media_id next_id : Z)
         (entries : list (Z * (Q * string * features)))
  : list fingerprint_row :=
  match entries with
  | [] => []
  | (idx, (timestamp, phash, cnn_features)) :: rest =>
      {| f_id := next_id; f_media_id := media_id; f_timestamp := timestamp;
         f_frame_index := idx; f_phash := phash;
         f_cnn_features := cnn_features |}
      :: rows_from media_id (next_id + 1) rest
  end.

(* ================================================================== *)
(** ** Specification-side vocabulary for the aggregation *)

(** The number of matches that name [t]. *)
Definition votes (t : string) (ms : list frame_match) : Z :=
  Z.of_nat (length (filter (fun m => String.eqb (fm_title m) t) ms)).

(** The number of occurrences of [t] in a list of titles. *)
Definition occurrences (t : string) (titles : list string) : Z :=
  Z.of_nat (length (filter (fun x => String.eqb x t) titles)).

(** The keys of a [Counter] in dict order, and the count under a key
    ([0] for a missing key, as [Counter.__getitem__] gives). *)
Definition keys (c : counter) : list string := map fst c.

Definition tally (c : counter) (k : string) : Z :=
  match find (fun p => String.eqb (fst p) k) c with
  | Some p => snd p
  | None => 0
  end.

(** "Among tied titles the one with the higher best similarity wins":
    no match of a title tied with the winner beats every match of the
    winner. *)
Definition tie_broken_by_similarity (ms : list frame_match) (winner : string)
  : Prop :=
  forall t m,
    votes t ms = votes winner ms -> In m ms -> fm_title m = t ->
    exists m', In m' ms /\ fm_title m' = winner /\
               (fm_similarity m <= fm_similarity m')%Q.

(** Three frames for "A" and two for "B". *)
Definition scenario_A3_B2 : list (string * Q) :=
  [("A", 81 # 100); ("A", 85 # 100); ("A", 90 # 100);
   ("B", 99 # 100); ("B", 99 # 100)]%string%Q.

(** [ms] consists of the matches of a scenario, in any order. *)
Definition collected_as (ms : list frame_match) (scenario : list (string * Q))
  : Prop :=
  exists l, Permutation ms l /\
            Forall2 (fun m e => fm_title m = fst e /\
                                (fm_similarity m == snd e)%Q) l scenario.

(** A call that returns a not-found result reporting [sampled] frames. *)
Definition not_found (c : outcome RecognitionResult) (sampled : Z) : Prop :=
  exists r, c = Returned r /\ matched r = false /\ frames_matched r = 0 /\
            frames_sampled r = sampled.

Section AggregationVocabulary.

Variable X : externals.

(** The matches of the frames that produce one, in frame order. *)
Fixpoint matching_frames (self : VisualRecognizer)
         (reads : list (option (frame X))) : list frame_match :=
  match reads with
  | [] => []
  | None :: rest => matching_frames self rest
  | Some f :: rest =>
      match _match_frame X self f with
      | Returned (Some m) => m :: matching_frames self rest
      | _ => matching_frames self rest
      end
  end.

(** Matching raises on none of the frames that could be read. *)
Definition no_frame_raises (self : VisualRecognizer)
           (reads : list (option (frame X))) : Prop :=
  Forall (fun r => forall f, r = Some f ->
                   exists m, _match_frame X self f = Returned m) reads.

(** "Whenever no sampled frame matches, the result is not-found and
    reports the requested number of frames." *)
Definition not_found_reports_request (self : VisualRecognizer)
           (path : string) (sample_frames : Z) (elapsed_ms : Q) : Prop :=
  (existsb (String.eqb (path_ext X path)) image_extensions = true ->
   sample_frames = 1 /\
   forall f, imread X path = Some f ->
             _match_frame X self f = Returned None) ->
  (forall v reads,
      VideoCapture X path = Some v ->
      read_samples X v sample_frames = Returned reads ->
      no_frame_raises self reads /\ matching_frames self reads = []) ->
  not_found (identify X self path sample_frames elapsed_ms) sample_frames.

End AggregationVocabulary.

(* ================================================================== *)
(** ** A small world to run the code in *)

Module Scenario.

Open Scope string_scope.

(** A frame is given by its two fingerprints. *)
Definition toy_frame : Type := string * features.

Fixpoint dot (u v : features) : Q :=
  match u, v with
  | x :: u', y :: v' => (x * y + dot u' v')%Q
  | _, _ => 0%Q
  end.

(** The cosine distance on vectors of unit length, where it is
    [1 - u.v]; shapes must agree. *)
Definition unit_cosine (u v : features) : outcome Q :=
  if Nat.eqb (length u) (length v) then Returned (1 - dot u v)%Q
  else Raised ValueError.

(** The text from the last dot on. *)
Fixpoint ext_of (s : string) : string :=
  match s with
  | EmptyString => EmptyString
  | String c rest =>
      match ext_of rest with
      | EmptyString => if Ascii.eqb c "." then s else EmptyString
      | e => e
      end
  end.

Definition lookup {A} (files : list (string * A)) (path : string)
  : option A :=
  option_map snd (find (fun e => String.eqb (fst e) path) files).

(** A file system with some images and clips; a clip is the sequence of
    its sampled reads. *)
Definition world (images : list (string * toy_frame))
           (clips : list (string * list (option toy_frame))) : externals :=
  {| frame := toy_frame;
     compute_phash := fst;
     compute_cnn_features := snd;
     cosine := unit_cosine;
     path_ext := ext_of;
     imread := lookup images;
     video := list (option toy_frame);
     VideoCapture := lookup clips;
     read_samples := fun v n =>
       if (n <? 0)%Z then Raised ValueError
       else Returned (firstn (Z.to_nat n) v) |}.

(** A library of two titles, five fingerprints, pairwise more than 15
    bits apart. *)
Definition library : database :=
  let '(d1, a) := add_media create_tables "A" (Some 2012) None None None in
  let '(d2, b) := add_media d1 "B" None None None None in
  let d3 := add_fingerprints d2 a
              [(0, "0000000000000000", [81 # 100]);
               (1, "ffffffffffffffff", [85 # 100]);
               (2, "00000000ffffffff", [90 # 100])]%Q in
  add_fingerprints d3 b
    [(0, "ffffffff00000000", [99 # 100]);
     (1, "0f0f0f0f0f0f0f0f", [99 # 100])]%Q.

Definition engine : VisualRecognizer := default_recognizer library.

Definition shot (phash : string) : option toy_frame := Some (phash, [1%Q]).

(** Five frames, two of "B" first; then a clip with one frame of each
    title; then a clip none of whose frames matches, one unreadable. *)
Definition clip_five : list (option toy_frame) :=
  [shot "ffffffff00000000"; shot "0000000000000000";
   shot "0f0f0f0f0f0f0f0f"; shot "ffffffffffffffff";
   shot "00000000ffffffff"].

Definition clip_tie : list (option toy_frame) :=
  [shot "0000000000000000"; shot "ffffffff00000000"].

Definition clip_none : list (option toy_frame) :=
  [shot "3333333333333333"; None; shot "cccccccccccccccc"].

Definition files : externals :=
  world [("still.png", ("3333333333333333", [1%Q]))]
        [("five.mp4", clip_five); ("tie.mp4", clip_tie);
         ("none.mp4", clip_none)].

(** A store whose second fingerprint is the nearer one to the query
    [0000000000000000], both with the same feature vector. *)
Definition twins : database :=
  let '(d1, a) := add_media create_tables "A" None None None None in
  add_fingerprints d1 a
    [(10, "0000000000000001", [9 # 10]);
     (20, "0000000000000000", [9 # 10])]%Q.

Definition twins_engine : VisualRecognizer := default_recognizer twins.

Definition twins_files : externals :=
  world [] [("one.mp4", [shot "0000000000000000"])].

(** A store with one fingerprint, and a batch whose hash is shorter and
    whose vector is longer. *)
Definition single : database :=
  let '(d1, a) := add_media create_tables "A" None None None None in
  add_fingerprints d1 a [(0, "0000000000000000", [1; 0])]%Q.

Definition odd_batch : list (Q * string * features) :=
  [(0, "ffff", [1; 0; 0])]%Q.

End Scenario.

(* ================================================================== *)
(** ** The scripts: extraction, ingestion and the command-line recognizer
       (src/src/fingerprint_extractor.py, src/src/add_media.py,
        src/src/recognize.py) *)

(** What the scripts take from outside in addition. *)
Record script_externals (X : externals) : Type := {
  (** [video.get(cv2.CAP_PROP_FPS)] *)
  fps : video X -> Q;
  (** [int(video.get(cv2.CAP_PROP_FRAME_COUNT))] *)
  total_frames : video X -> Z;
  (** the frames that successive [video.read()] give before [ret] is
      false *)
  frames : video X -> list (frame X);
  (** [os.path.exists] *)
  path_exists : string -> bool
}.
Arguments fps {X} _ _.
Arguments total_frames {X} _ _.
Arguments frames {X} _ _.
Arguments path_exists {X} _ _.

Module Script.

(** A script can also divide by zero or convert a number that is too
    large. *)
Inductive failure : Type :=
| Builtin (e : exn)
| ZeroDivisionError
| OverflowError.

Inductive attempt (A : Type) : Type :=
| Done (a : A)
| Failed (f : failure).
Arguments Done {A} a.
Arguments Failed {A} f.

Definition and_then {A B} (c : attempt A) (k : A -> attempt B) : attempt B :=
  match c with
  | Done a => k a
  | Failed f => Failed f
  end.

Definition lift {A} (c : outcome A) : attempt A :=
  match c with
  | Returned a => Done a
  | Raised e => Failed (Builtin e)
  end.

(** [x / y] on floats *)
Definition float_div (x y : Q) : attempt Q :=
  if Qeq_bool y 0 then Failed ZeroDivisionError else Done (x / y)%Q.

(** [a % b] on ints; the sign of the result is that of [b], as for
    [Z.modulo] *)
Definition int_mod (a b : Z) : attempt Z :=
  if b =? 0 then Failed ZeroDivisionError else Done (a mod b).

(** [int(x)] on a float: the fraction is dropped *)
Definition py_int (x : Q) : Z := Z.quot (Qnum x) (Zpos (Qden x)).

(** [sys.exit(code)] or a normal end *)
Inductive run (A : Type) : Type :=
| Exit (code : Z)
| Completed (a : A).
Arguments Exit {A} code.
Arguments Completed {A} a.

Section Scripts.

Variable X : externals.
Variable S : script_externals X.

(** The [while True] loop of [extract_from_video]; the state is
    [(frame_count, fingerprints)]. *)
Fixpoint sample_loop (video_fps : Q) (frame_interval : Z)
         (reads : list (frame X)) (frame_count : Z)
         (fingerprints : list (Q * string * features))
  : attempt (list (Q * string * features)) :=
  match reads with
  | [] => Done fingerprints
  | f :: rest =>
      and_then (int_mod frame_count frame_interval) (fun m =>
      if m =? 0 then
        and_then (float_div (inject_Z frame_count) video_fps)
                 (fun timestamp =>
        let phash := compute_phash X f in
        let cnn_features := compute_cnn_features X f in
        sample_loop video_fps frame_interval rest (frame_count + 1)
                    (fingerprints ++ [(timestamp, phash, cnn_features)]))
      else
        sample_loop video_fps frame_interval rest (frame_count + 1)
                    fingerprints)
  end.

(** [elapsed] is [time.time() - start_time] as measured after the
    loop. *)
Definition extract_from_video (video_path : string) (sample_rate : Q)
           (elapsed : Q) : attempt (list (Q * string * features)) :=
  match VideoCapture X video_path with
  | None => Failed (Builtin ValueError)
  | Some v =>
      let video_fps := fps S v in
      let n_frames := total_frames S v in
      and_then (float_div (inject_Z n_frames) video_fps) (fun duration =>
      and_then (float_div video_fps sample_rate) (fun ratio =>
      let frame_interval := py_int ratio in
      let expected_fingerprints := py_int (duration * sample_rate) in
      and_then (sample_loop video_fps frame_interval (frames S v) 0 [])
               (fun fingerprints =>
      and_then (float_div (inject_Z (Z.of_nat (length fingerprints)))
                          elapsed) (fun speed =>
      Done fingerprints))))
  end.

(** [add_video_to_database] on the store [d]; the result is the store
    when the script ends normally. *)
Definition add_video_to_database (d : database) (video_path : string)
           (title : string) (year : option Z) (sample_rate : Q)
           (elapsed : Q) : run database :=
  if negb (path_exists S video_path) then Exit 1
  else
    match extract_from_video video_path sample_rate elapsed with
    | Failed _ => Exit 1
    | Done fingerprints =>
        match fingerprints with
        | [] => Exit 1
        | first :: others =>
            let duration := fst (fst (last others first)) in
            let '(d1, media_id) :=
              add_media d title year (Some video_path) (Some duration)
                        (Some (Z.of_nat (length fingerprints))) in
            Completed (add_fingerprints d1 media_id fingerprints)
        end
    end.

(** [MediaRecognizer.recognize_image] *)
Definition recognize_image (d : database) (image_path : string)
           (phash_threshold : Z) (cnn_threshold : Q)
  : outcome (option frame_report) :=
  match imread X image_path with
  | None => Returned None
  | Some f => recognize_frame X d f phash_threshold cnn_threshold
  end.

(** The [for idx, frame_idx in enumerate(frame_indices)] loop of
    [recognize_video]. *)
Fixpoint report_frames (d : database) (phash_threshold : Z)
         (cnn_threshold : Q) (reads : list (option (frame X)))
         (all_matches : list frame_report) : outcome (list frame_report) :=
  match reads with
  | [] => Returned all_matches
  | None :: rest =>
      report_frames d phash_threshold cnn_threshold rest all_matches
  | Some f :: rest =>
      m <- recognize_frame X d f phash_threshold cnn_threshold ;;
      match m with
      | Some rep =>
          report_frames d phash_threshold cnn_threshold rest
                        (all_matches ++ [rep])
      | None =>
          report_frames d phash_threshold cnn_threshold rest all_matches
      end
  end.

(** The dict that [recognize_video] returns: a report with the key
    ['votes']. *)
Record video_report : Type := {
  vr_match : frame_report;
  vr_votes : string
}.

(** [str(n)] *)
Definition str_int (n : Z) : string :=
  DecimalString.NilZero.string_of_int (Z.to_int n).

(** [MediaRecognizer.recognize_video] *)
Definition recognize_video (d : database) (video_path : string)
           (sample_frames : Z) (phash_threshold : Z) (cnn_threshold : Q)
  : attempt (option video_report) :=
  match VideoCapture X video_path with
  | None => Done None
  | Some v =>
      and_then (float_div (inject_Z (total_frames S v)) (fps S v))
               (fun duration =>
      and_then (lift (read_samples X v sample_frames)) (fun reads =>
      and_then (lift (report_frames d phash_threshold cnn_threshold
                                    reads [])) (fun all_matches =>
      match all_matches with
      | [] => Done None
      | _ =>
          let title_votes := Counter (map fr_title all_matches) in
          and_then (lift (item0 (most_common_1 title_votes))) (fun top =>
          let most_common_title := fst top in
          and_then (lift (max_by Qgtb fr_similarity
                            (filter (fun m => String.eqb (fr_title m)
                                                         most_common_title)
                                    all_matches))) (fun best_match =>
          Done (Some {| vr_match := best_match;
                        vr_votes :=
                          (str_int (tally title_votes most_common_title)
                           ++ "/" ++ str_int sample_frames)%string |})))
      end)))
  end.

End Scripts.

End Script.

(* ================================================================== *)
(** ** The extraction script in floating point  (Python floats)

    [Script.extract_from_video] divides rationals exactly.  The
    definitions of this part follow the same source lines with Python
    floats: binary64 values, rounded after each operation, with the two
    infinities and [nan], and with the exceptions that [int()] and the
    conversion of an int raise. *)

Module F64.

Import Script.

Inductive float : Type :=
| nan
| inf (negative : bool)
| fin (x : Q).

Definition negative (x : Q) : bool := negb (Qle_bool 0 x).

(** The float nearest to the real [x]: an infinity beyond the largest
    finite float. *)
Definition of_real (x : Q) : float :=
  let r := Np.float64 x in
  if Qle_bool (Np.pow2 1024) (Qabs r) then inf (negative x) else fin r.

Definition is_zero (a : float) : bool :=
  match a with
  | fin x => Qeq_bool x 0
  | _ => false
  end.

(** [float(n)] for an int operand of a float operation:
    [OverflowError] when the int is too large. *)
Definition of_int (n : Z) : attempt float :=
  match of_real (inject_Z n) with
  | fin x => Done (fin x)
  | _ => Failed OverflowError
  end.

(** [a / b] on floats; only a divisor of 0 raises. *)
Definition truediv (a b : float) : attempt float :=
  if is_zero b then Failed ZeroDivisionError
  else Done match a, b with
            | nan, _ => nan
            | _, nan => nan
            | inf _, inf _ => nan
            | inf s, fin y => inf (xorb s (negative y))
            | fin _, inf _ => fin 0
            | fin x, fin y => of_real (x / y)
            end.

(** [n / b] for an int [n] and a float [b]: the int is converted
    first. *)
Definition int_truediv (n : Z) (b : float) : attempt float :=
  and_then (of_int n) (fun a => truediv a b).

(** [a * b] on floats *)
Definition mul (a b : float) : float :=
  match a, b with
  | nan, _ => nan
  | _, nan => nan
  | inf s, inf s' => inf (xorb s s')
  | inf s, fin y => if Qeq_bool y 0 then nan else inf (xorb s (negative y))
  | fin x, inf s => if Qeq_bool x 0 then nan else inf (xorb (negative x) s)
  | fin x, fin y => of_real (x * y)
  end.

(** [int(a)]: the fraction is dropped; [OverflowError] for an infinity,
    [ValueError] for [nan]. *)
Definition to_int (a : float) : attempt Z :=
  match a with
  | nan => Failed (Builtin ValueError)
  | inf _ => Failed OverflowError
  | fin x => Done (py_int x)
  end.

(** The value of [n / b] where it is computed. *)
Definition quotient (n : Z) (b : float) : float :=
  match int_truediv n b with
  | Done t => t
  | Failed _ => nan
  end.

Section Extraction.

Variable X : externals.
Variable S : script_externals X.

(** The [while True] loop of [extract_from_video]; the state is
    [(frame_count, fingerprints)]. *)
Fixpoint sample_loop (video_fps : float) (frame_interval : Z)
         (reads : list (frame X)) (frame_count : Z)
         (fingerprints : list (float * string * features))
  : attempt (list (float * string * features)) :=
  match reads with
  | [] => Done fingerprints
  | f :: rest =>
      and_then (int_mod frame_count frame_interval) (fun m =>
      if m =? 0 then
        and_then (int_truediv frame_count video_fps) (fun timestamp =>
        let phash := compute_phash X f in
        let cnn_features := compute_cnn_features X f in
        sample_loop video_fps frame_interval rest (frame_count + 1)
                    (fingerprints ++ [(timestamp, phash, cnn_features)]))
      else
        sample_loop video_fps frame_interval rest (frame_count + 1)
                    fingerprints)
  end.

(** [DualFingerprintExtractor.extract_from_video]; [elapsed] is
    [time.time() - start_time] as measured after the loop. *)
Definition extract_from_video (video_path : string) (sample_rate : float)
           (elapsed : float) : attempt (list (float * string * features)) :=
  match VideoCapture X video_path with
  | None => Failed (Builtin ValueError)
  | Some v =>
      let video_fps := of_real (fps S v) in
      let n_frames := total_frames S v in
      and_then (int_truediv n_frames video_fps) (fun duration =>
      and_then (truediv video_fps sample_rate) (fun ratio =>
      and_then (to_int ratio) (fun frame_interval =>
      and_then (to_int (mul duration sample_rate))
               (fun expected_fingerprints =>
      and_then (sample_loop video_fps frame_interval (frames S v) 0 [])
               (fun fingerprints =>
      and_then (int_truediv (Z.of_nat (length fingerprints)) elapsed)
               (fun speed =>
      Done fingerprints))))))
  end.

(** The sampled frames of a video as the loop leaves them, for a frame
    interval and a frame rate. *)
Definition sampled (video_fps : float) (frame_interval : Z)
           (numbered : list (Z * frame X))
  : list (float * string * features) :=
  map (fun e => (quotient (fst e) video_fps,
                 compute_phash X (snd e),
                 compute_cnn_features X (snd e)))
      (filter (fun e => fst e mod frame_interval =? 0) numbered).

End Extraction.

End F64.

(* ================================================================== *)
(** ** Further vocabulary *)

(** The number that a list of binary digits writes, most significant
    digit first. *)
Definition bits_value (l : list bool) : N :=
  fold_left (fun a (b : bool) => (2 * a + (if b then 1 else 0))%N) l 0%N.

(** The labels from the weakest to the strongest. *)
Definition strength (t : MatchType) : nat :=
  match t with
  | NONE => 0
  | WEAK => 1
  | PROBABLE => 2
  | STRONG => 3
  end.

(** The match that a report of [recognize_frame] describes. *)
Definition report_match (rep : frame_report) : frame_match :=
  {| fm_media_id := fr_media_id rep; fm_title := fr_title rep;
     fm_timestamp := fr_timestamp rep; fm_similarity := fr_similarity rep |}.

(** A read that gave a frame. *)
Definition is_read {F : Type} (r : option F) : bool :=
  match r with
  | Some _ => true
  | None => false
  end.

(** The stores that [add_media] and [add_fingerprints] build from the
    empty tables. *)
Inductive built : database -> Prop :=
| built_empty : built create_tables
| built_media : forall d title year filepath duration n_frames,
    built d ->
    built (fst (add_media d title year filepath duration n_frames))
| built_fingerprints : forall d media_id fps,
    built d -> built (add_fingerprints d media_id fps).

(** The ids [1, 2, .., n]. *)
Definition ids_upto (n : nat) : list Z := map Z.of_nat (seq 1 n).

(** The number of fingerprints of a media item. *)
Definition fingerprints_of (d : database) (media_id : Z) : nat :=
  length (filter (fun r => f_media_id r =? media_id) (fingerprints d)).

(** Every fingerprint belongs to a media row, and every media row records
    the number of its fingerprints. *)
Definition coherent (d : database) : Prop :=
  Forall (fun m => m_id m <= media_seq d) (media d) /\
  Forall (fun r => exists row, select_media d (f_media_id r) = Some row)
         (fingerprints d) /\
  Forall (fun m => m_total_frames m =
                   Some (Z.of_nat (fingerprints_of d (m_id m))))
         (media d).

Section IngestedStores.

Variable X : externals.
Variable S : script_externals X.

(** The stores that runs of [add_video_to_database] build from the empty
    tables. *)
Inductive ingested : database -> Prop :=
| ingested_empty : ingested create_tables
| ingested_video : forall d d' video_path title year sample_rate elapsed,
    ingested d ->
    Script.add_video_to_database X S d video_path title year sample_rate
                                 elapsed = Script.Completed d' ->
    ingested d'.

(** The sampled frames of a video as the loop of [extract_from_video]
    leaves them, for a frame interval and a frame rate. *)
Definition sampled (video_fps : Q) (frame_interval : Z)
           (numbered : list (Z * frame X)) : list (Q * string * features) :=
  map (fun e => ((inject_Z (fst e) / video_fps)%Q,
                 compute_phash X (snd e),
                 compute_cnn_features X (snd e)))
      (filter (fun e => fst e mod frame_interval =? 0) numbered).

End IngestedStores.

(** The title, timestamp and similarity that a result or a report
    announces. *)
Definition result_summary (r : RecognitionResult)
  : option (option string * option Q * option Q) :=
  if matched r then Some (title r, timestamp r, confidence r) else None.

Definition report_summary (rep : frame_report)
  : option string * option Q * option Q :=
  (Some (fr_title rep), Some (fr_timestamp rep), Some (fr_similarity rep)).

(** Footage for the scripts: the clips of [Scenario.files] at 25 frames
    per second, read frame by frame. *)
Module Footage.

Definition readable_frames (v : list (option Scenario.toy_frame))
  : list Scenario.toy_frame :=
  flat_map (fun r => match r with Some f => [f] | None => [] end) v.

Definition camera : script_externals Scenario.files :=
  Build_script_externals Scenario.files
    (fun _ => 25%Q)
    (fun v : list (option Scenario.toy_frame) =>
       Z.of_nat (length (readable_frames v)))
    readable_frames
    (fun path =>
       match VideoCapture Scenario.files path with
       | Some _ => true
       | None => false
       end).

(** A camera that reports no frame rate. *)
Definition broken_camera : script_externals Scenario.files :=
  Build_script_externals Scenario.files
    (fun _ => 0%Q)
    (fun v : list (option Scenario.toy_frame) =>
       Z.of_nat (length (readable_frames v)))
    readable_frames
    (fun _ => true).

(** A store with a fingerprint whose media id has no row. *)
Definition orphans : database :=
  add_fingerprints create_tables 7
                   [(0, "0000000000000000"%string, [1])]%Q.

(** The clip with one frame of each title, with failed reads in between;
    and a clip whose second frame has a feature vector of another shape
    than the stored ones. *)
Definition clip_gaps : list (option Scenario.toy_frame) :=
  [None; Scenario.shot "0000000000000000"; None;
   Scenario.shot "ffffffff00000000"].

Definition clip_faulty : list (option Scenario.toy_frame) :=
  [Scenario.shot "3333333333333333";
   Some ("0000000000000000"%string, [1; 0]%Q);
   Scenario.shot "ffffffffffffffff"].

Definition more_files : externals :=
  Scenario.world []
    [("tie.mp4"%string, Scenario.clip_tie); ("gaps.mp4"%string, clip_gaps);
     ("faulty.mp4"%string, clip_faulty)].

(** A store whose second fingerprint has a vector of magnitude 0, the
    three hashes at 0, 1 and 2 bits from [0000000000000000]. *)
Definition blank : database :=
  let '(d1, a) := add_media create_tables "A" None None None None in
  add_fingerprints d1 a
    [(0, "0000000000000000"%string, [7 # 10]);
     (1, "0000000000000001"%string, [0]);
     (2, "0000000000000003"%string, [9 # 10])]%Q.

Definition blank_files : externals :=
  Scenario.world [("zero.png"%string, ("0000000000000000"%string, [1%Q]))]
                 [].

(** An interpreter that leaves a list with a [nan] key as it is. *)
Definition leaves_as_is : Np.interpreter :=
  {| Np.sort_with_nan := fun l => l;
     Np.sort_with_nan_perm := @Permutation_refl Np.frame_match;
     Np.sort_with_nan_run := fun l _ => eq_refl |}.

(** A recognizer that lets every fingerprint of the library through
    Stage 1 and asks for a similarity of 0.88. *)
Definition wide : VisualRecognizer :=
  {| db := Scenario.library; phash_threshold := 64;
     cnn_threshold := (88 # 100)%Q |}.

(** The store after ingesting the clip of five frames at 25 samples per
    second, in 2 seconds. *)
Definition ingested_five : database :=
  match Script.add_video_to_database Scenario.files camera create_tables
          "five.mp4" "Five" (Some 2020) 25 2 with
  | Script.Completed d => d
  | Script.Exit _ => create_tables
  end.

End Footage.

(** Tactics that run the code on closed inputs. *)
Ltac returned_by_evaluation := eexists; vm_compute; reflexivity.

Ltac each_row tac :=
  repeat first [apply Forall_nil | apply Forall_cons; [tac|]].

Ltac frames_return :=
  each_row ltac:(let f := fresh in let E := fresh in
                 intros f E; inversion E; subst f; returned_by_evaluation).

Ltac by_arithmetic :=
  vm_compute; first [reflexivity | lia | discriminate | intro; discriminate].

(* ================================================================== *)
(** ** The code on small inputs *)

Example hamming_distance_opposite :
  hamming_distance "0000000000000000" "ffffffffffffffff" = Returned 64%nat.
Proof. reflexivity. Qed.

Example hamming_distance_one_bit :
  hamming_distance "0000000000000000" "0000000000000001" = Returned 1%nat.
Proof. reflexivity. Qed.

(** A value above 64 bits makes [bin] longer than 64 digits, and [zip]
    then compares the leading digits. *)
Example hamming_distance_long_hash :
  hamming_distance "0" "10000000000000000" = Returned 1%nat.
Proof. reflexivity. Qed.

Example hamming_distance_not_hex :
  hamming_distance "zz" "1" = Raised ValueError.
Proof. reflexivity. Qed.

Example stable_sort_keeps_ties :
  stable_sort (by_key fst) [(2, "a"); (1, "b"); (2, "c"); (1, "d")]%nat%string
  = [(1, "b"); (1, "d"); (2, "a"); (2, "c")]%nat%string.
Proof. reflexivity. Qed.

Example slice_to_negative : slice_to [1; 2; 3] (-1) = [1; 2].
Proof. reflexivity. Qed.

Example Counter_insertion_order :
  Counter ["B"; "A"; "B"; "A"]%string = [("B", 2); ("A", 2)]%string.
Proof. reflexivity. Qed.

Example most_common_first_inserted :
  most_common_1 (Counter ["B"; "A"; "B"; "A"]%string) = [("B"%string, 2)].
Proof. reflexivity. Qed.

Example search_by_phash_near :
  option_map (map c_id)
    (match search_by_phash Scenario.twins "0000000000000000" 15 50 with
     | Returned l => Some l
     | Raised _ => None
     end) = Some [2; 1].
Proof. reflexivity. Qed.

Example match_type_thresholds :
  map _get_match_type
      [95 # 100; 9499 # 10000; 80 # 100; 7999 # 10000; 70 # 100;
       6999 # 10000]%Q
  = [STRONG; PROBABLE; PROBABLE; WEAK; WEAK; NONE].
Proof. reflexivity. Qed.

(* ================================================================== *)
(** ** Facts about the Python helpers *)

Section OutcomeFacts.

Context {A B : Type}.
Variable f : A -> outcome B.
Variable default : B.

Lemma for_each_returned : forall l ys,
  for_each f l = Returned ys ->
  ys = map (fun x => value_or default (f x)) l /\
  Forall (fun x => exists y, f x = Returned y) l.
Proof.
  induction l as [|x l IH]; simpl; intros ys H.
  - inversion H; subst. split; [reflexivity | constructor].
  - destruct (f x) as [y|e] eqn:Hx; simpl in H; [|discriminate].
    destruct (for_each f l) as [ys'|e] eqn:Hl; simpl in H; [|discriminate].
    inversion H; subst. destruct (IH ys' eq_refl) as [-> Hall].
    split; [reflexivity|]. constructor; [eauto | exact Hall].
Qed.

Lemma for_each_total : forall l,
  Forall (fun x => exists y, f x = Returned y) l ->
  for_each f l = Returned (map (fun x => value_or default (f x)) l).
Proof.
  induction 1 as [|x l [y Hy] _ IH]; simpl; [reflexivity|].
  rewrite Hy, IH. reflexivity.
Qed.

Lemma for_each_length : forall l ys,
  for_each f l = Returned ys -> length ys = length l.
Proof using Type.
  induction l as [|x l IH]; simpl; intros ys H.
  - now inversion H.
  - destruct (f x) as [y|e]; simpl in H; [|discriminate].
    destruct (for_each f l) as [ys'|e]; simpl in H; [|discriminate].
    inversion H; subst. simpl. f_equal. now apply IH.
Qed.

End OutcomeFacts.

Lemma filter_none {A} (keep : A -> bool) (l : list A) :
  (forall z, In z l -> keep z = false) -> filter keep l = [].
Proof.
  induction l as [|x l IH]; intro H; [reflexivity|].
  simpl. rewrite (H x (or_introl eq_refl)). apply IH.
  intros z Hz. apply H. now right.
Qed.

Section SortFacts.

Context {A : Type}.
Variable le : A -> A -> bool.

Lemma insert_by_perm : forall x l, Permutation (insert_by le x l) (x :: l).
Proof.
  induction l as [|y l IH]; simpl; [reflexivity|].
  destruct (le x y); [reflexivity|].
  rewrite IH. apply perm_swap.
Qed.

Lemma stable_sort_perm : forall l, Permutation (stable_sort le l) l.
Proof.
  induction l as [|x l IH]; simpl; [reflexivity|].
  rewrite insert_by_perm. now constructor.
Qed.

Lemma stable_sort_In : forall l x, In x (stable_sort le l) <-> In x l.
Proof.
  intros l x; split; apply Permutation_in;
    [apply stable_sort_perm | symmetry; apply stable_sort_perm].
Qed.

Lemma stable_sort_length : forall l, length (stable_sort le l) = length l.
Proof. intro l. apply Permutation_length, stable_sort_perm. Qed.

Lemma stable_sort_Forall : forall (P : A -> Prop) l,
  Forall P l -> Forall P (stable_sort le l).
Proof.
  intros P l H. rewrite Forall_forall in *. intros x Hx.
  apply H, stable_sort_In, Hx.
Qed.



Hypothesis le_total : forall x y, le x y = true \/ le y x = true.
Hypothesis le_trans :
  forall x y z, le x y = true -> le y z = true -> le x z = true.

Lemma insert_by_head : forall x l,
  Forall (fun z => le x z = true) l -> insert_by le x l = x :: l.
Proof.
  intros x [|y l] H; [reflexivity|]. simpl.
  inversion H; subst. now rewrite H2.
Qed.

Lemma insert_by_sorted : forall x l,
  StronglySorted (fun a b => le a b = true) l ->
  StronglySorted (fun a b => le a b = true) (insert_by le x l).
Proof.
  induction l as [|y l IH]; simpl; intro H.
  - repeat constructor.
  - inversion H as [|? ? Hs Hall]; subst.
    destruct (le x y) eqn:Hle.
    + constructor; [exact H|]. constructor; [exact Hle|].
      eapply Forall_impl; [|exact Hall]. intros z Hz. eauto.
    + constructor; [auto|].
      rewrite Forall_forall. intros z Hz.
      apply (Permutation_in _ (insert_by_perm x l)) in Hz.
      destruct Hz as [<-|Hz].
      * destruct (le_total x y) as [C|C]; [congruence | exact C].
      * rewrite Forall_forall in Hall. auto.
Qed.

Lemma stable_sort_sorted : forall l,
  StronglySorted (fun a b => le a b = true) (stable_sort le l).
Proof.
  induction l as [|x l IH]; simpl; [constructor|].
  now apply insert_by_sorted.
Qed.

(** Filtering commutes with the stable sort. *)
Lemma filter_insert_by_sorted (keep : A -> bool) : forall x l,
  StronglySorted (fun a b => le a b = true) l ->
  filter keep (insert_by le x l) =
  if keep x then insert_by le x (filter keep l) else filter keep l.
Proof.
  induction l as [|y l IH]; intro Hs.
  - simpl. now destruct (keep x).
  - inversion Hs as [|? ? Hs' Hall]; subst.
    cbn [insert_by]. destruct (le x y) eqn:Hle.
    + cbn [filter]. destruct (keep x) eqn:Kx; [|reflexivity].
      rewrite insert_by_head; [reflexivity|].
      assert (Hx : Forall (fun z => le x z = true) (y :: l)).
      { constructor; [exact Hle|].
        eapply Forall_impl; [|exact Hall]. intros z Hz. eauto. }
      rewrite Forall_forall in *. intros z Hz.
      apply Hx. change (In z (filter keep (y :: l))) in Hz.
      now apply filter_In in Hz.
    + cbn [filter]. rewrite (IH Hs').
      destruct (keep x) eqn:Kx, (keep y) eqn:Ky; cbn [insert_by];
        try rewrite Hle; reflexivity.
Qed.

Lemma stable_sort_filter (keep : A -> bool) : forall l,
  stable_sort le (filter keep l) = filter keep (stable_sort le l).
Proof.
  induction l as [|x l IH]; [reflexivity|].
  cbn [stable_sort fold_right filter]. fold (stable_sort le l).
  rewrite filter_insert_by_sorted by apply stable_sort_sorted.
  destruct (keep x); [|exact IH].
  cbn [stable_sort fold_right]. fold (stable_sort le (filter keep l)).
  now rewrite IH.
Qed.

(** In a sorted list, a selection closed under "not after" is a
    prefix. *)
Lemma filter_sorted_prefix (keep : A -> bool) :
  (forall x y, le x y = true -> keep y = true -> keep x = true) ->
  forall l, StronglySorted (fun a b => le a b = true) l ->
  exists rest, l = filter keep l ++ rest.
Proof.
  intros Hdown. induction 1 as [|x l Hs [rest IH] Hall].
  - exists []. reflexivity.
  - cbn [filter]. destruct (keep x) eqn:Kx.
    + exists rest. simpl. now rewrite <- IH.
    + exists (x :: l). replace (filter keep l) with (@nil A); [reflexivity|].
      symmetry. apply filter_none.
      intros z Hz. rewrite Forall_forall in Hall.
      destruct (keep z) eqn:Kz; [|reflexivity].
      rewrite (Hdown x z (Hall z Hz) Kz) in Kx. discriminate.
Qed.

End SortFacts.

Lemma insert_by_map {A B} (g : A -> B) (le : A -> A -> bool)
      (le' : B -> B -> bool) :
  (forall a b, le' (g a) (g b) = le a b) ->
  forall x l, insert_by le' (g x) (map g l) = map g (insert_by le x l).
Proof.
  intros Hg x l. induction l as [|y l IH]; [reflexivity|].
  simpl. rewrite Hg. destruct (le x y); [reflexivity|].
  simpl. now rewrite IH.
Qed.

Lemma stable_sort_map {A B} (g : A -> B) (le : A -> A -> bool)
      (le' : B -> B -> bool) :
  (forall a b, le' (g a) (g b) = le a b) ->
  forall l, stable_sort le' (map g l) = map g (stable_sort le l).
Proof.
  intros Hg l. induction l as [|x l IH]; [reflexivity|].
  cbn [map stable_sort fold_right].
  fold (stable_sort le' (map g l)). fold (stable_sort le l).
  rewrite IH. now apply insert_by_map.
Qed.

Lemma combine_map_self {A B} (k : A -> B) (l : list A) :
  combine (map k l) l = map (fun x => (k x, x)) l.
Proof. induction l as [|x l IH]; simpl; congruence. Qed.

(** [l.sort(key=k)] when every key call returns: the stable sort on the
    keys. *)
Lemma sort_key_total {A} (key : A -> outcome nat) (l : list A) :
  Forall (fun x => exists y, key x = Returned y) l ->
  sort_key key l =
  Returned (stable_sort
              (fun a b => Nat.leb (value_or 0%nat (key a))
                                  (value_or 0%nat (key b))) l).
Proof.
  intro H. unfold sort_key.
  rewrite (for_each_total key 0%nat l H). cbn [bind]. f_equal.
  rewrite combine_map_self.
  rewrite (stable_sort_map (fun x => (value_or 0%nat (key x), x))
             (fun a b => Nat.leb (value_or 0%nat (key a))
                                 (value_or 0%nat (key b)))).
  - rewrite map_map. cbn [snd]. apply map_id.
  - reflexivity.
Qed.

Section Stage1Facts.

Variable query_hash : string.

Lemma distance_le_total : forall a b,
  distance_le query_hash a b = true \/ distance_le query_hash b a = true.
Proof.
  intros a b. unfold distance_le.
  destruct (Nat.leb_spec (distance_to query_hash a) (distance_to query_hash b));
    [now left | right; apply Nat.leb_le; lia].
Qed.

Lemma distance_le_trans : forall a b c,
  distance_le query_hash a b = true ->
  distance_le query_hash b c = true ->
  distance_le query_hash a c = true.
Proof.
  unfold distance_le. intros a b c H1 H2.
  apply Nat.leb_le in H1, H2. apply Nat.leb_le. lia.
Qed.

Lemma readable_distance : forall c dist,
  hamming_distance query_hash (c_phash c) = Returned dist ->
  distance_to query_hash c = dist.
Proof. intros c dist H. unfold distance_to. now rewrite H. Qed.

Lemma scan_rows_total : forall max_distance rows,
  Forall (readable query_hash) rows ->
  scan_rows query_hash max_distance rows =
  Returned (filter (in_budget query_hash max_distance) rows).
Proof.
  intros t rows H. induction H as [|c rows [dist Hd] _ IH]; [reflexivity|].
  cbn [scan_rows filter]. rewrite Hd, IH. cbn [bind].
  unfold in_budget. now rewrite (readable_distance c dist Hd).
Qed.

Lemma scan_rows_returned : forall max_distance rows results,
  scan_rows query_hash max_distance rows = Returned results ->
  Forall (readable query_hash) rows.
Proof.
  intros t rows. induction rows as [|c rows IH]; intros results H.
  - constructor.
  - cbn [scan_rows] in H.
    destruct (hamming_distance query_hash (c_phash c)) as [dist|e] eqn:Hd;
      [|discriminate].
    cbn [bind] in H.
    destruct (scan_rows query_hash t rows) as [rs|e] eqn:Hr; [|discriminate].
    constructor; [now exists dist | eapply IH; reflexivity].
Qed.

Lemma search_by_phash_total : forall d max_distance limit,
  Forall (readable query_hash) (stored d) ->
  search_by_phash d query_hash max_distance limit =
  Returned (slice_to (ranked_within query_hash max_distance (stored d)) limit).
Proof.
  intros d t limit H. unfold search_by_phash. fold (stored d).
  rewrite (scan_rows_total t _ H). cbn [bind].
  rewrite sort_key_total; [reflexivity|].
  rewrite Forall_forall in *. intros c Hc. apply filter_In in Hc.
  now apply H.
Qed.

Lemma search_by_phash_returned : forall d max_distance limit l,
  search_by_phash d query_hash max_distance limit = Returned l ->
  Forall (readable query_hash) (stored d).
Proof.
  intros d t limit l H. unfold search_by_phash in H. fold (stored d) in H.
  destruct (scan_rows query_hash t (stored d)) as [rs|e] eqn:Hr;
    [|discriminate].
  eapply scan_rows_returned; eassumption.
Qed.

(** Raising the budget only appends to the ranked list. *)
Lemma ranked_within_prefix : forall t t' rows,
  t <= t' ->
  exists rest,
    ranked_within query_hash t' rows = ranked_within query_hash t rows ++ rest.
Proof.
  intros t t' rows Htt'. unfold ranked_within.
  assert (Hf : filter (in_budget query_hash t) rows =
               filter (in_budget query_hash t)
                      (filter (in_budget query_hash t') rows)).
  { induction rows as [|c rows IH]; [reflexivity|].
    cbn [filter]. destruct (in_budget query_hash t c) eqn:Ht.
    - assert (Ht' : in_budget query_hash t' c = true).
      { unfold in_budget in *. apply Z.leb_le in Ht. apply Z.leb_le. lia. }
      rewrite Ht'. cbn [filter]. rewrite Ht. now rewrite <- IH.
    - destruct (in_budget query_hash t' c); cbn [filter];
        try rewrite Ht; exact IH. }
  rewrite Hf.
  rewrite (stable_sort_filter (distance_le query_hash)
             distance_le_total distance_le_trans
             (in_budget query_hash t) (filter (in_budget query_hash t') rows)).
  apply (filter_sorted_prefix (distance_le query_hash)).
  - intros x y Hxy Hy. unfold distance_le, in_budget in *.
    apply Nat.leb_le in Hxy. apply Z.leb_le in Hy. apply Z.leb_le. lia.
  - apply stable_sort_sorted;
      [apply distance_le_total | apply distance_le_trans].
Qed.

End Stage1Facts.

Lemma slice_to_prefix {A} (l rest : list A) (stop : Z) :
  exists rest', slice_to (l ++ rest) stop = slice_to l stop ++ rest'.
Proof.
  unfold slice_to. destruct (0 <=? stop) eqn:Hstop.
  - rewrite firstn_app. eauto.
  - apply Z.leb_gt in Hstop.
    set (n := Z.to_nat (Z.of_nat (length l) + stop)).
    set (m := Z.to_nat (Z.of_nat (length (l ++ rest)) + stop)).
    assert (Hn : (n <= length l)%nat) by (unfold n; lia).
    assert (Hnm : (n <= m)%nat) by (unfold n, m; rewrite length_app; lia).
    exists (skipn n (firstn m (l ++ rest))).
    rewrite <- (firstn_skipn n (firstn m (l ++ rest))) at 1. f_equal.
    rewrite firstn_firstn, Nat.min_l by exact Hnm.
    rewrite firstn_app. replace (n - length l)%nat with 0%nat by lia.
    simpl. apply app_nil_r.
Qed.

Section StableOrder.

Context {A : Type}.
Variable key : A -> nat.
Variable before : A -> A -> Prop.

#[local] Abbreviation key_le := (by_key key).
#[local] Abbreviation lex := (key_then key before).

Lemma insert_by_lex : forall x s,
  StronglySorted lex s -> Forall (before x) s ->
  StronglySorted lex (insert_by key_le x s).
Proof.
  induction s as [|y s IH]; intros Hs Hx.
  - repeat constructor.
  - inversion Hs as [|? ? Hs' Hall]; subst.
    inversion Hx as [|? ? Hxy Hxs]; subst.
    cbn [insert_by]. unfold by_key at 1.
    destruct (Nat.leb_spec (key x) (key y)) as [Hle|Hlt].
    + assert (Hlex : forall z, (key y <= key z)%nat -> before x z -> lex x z).
      { intros z Hyz Hxz. unfold key_then.
        destruct (Nat.eq_dec (key x) (key z)) as [E|E];
          [right; now split | left; lia]. }
      constructor; [exact Hs|].
      constructor; [now apply Hlex|].
      rewrite Forall_forall in *. intros z Hz.
      apply Hlex; [|now apply Hxs].
      destruct (Hall z Hz) as [H|[H _]]; lia.
    + constructor; [now apply IH|].
      rewrite Forall_forall in *. intros z Hz.
      apply (Permutation_in _ (insert_by_perm key_le x s)) in Hz.
      destruct Hz as [<-|Hz]; [now left | auto].
Qed.

(** The stable sort orders by key, and equal keys by input order. *)
Lemma stable_sort_lex : forall l,
  StronglySorted before l ->
  StronglySorted lex (stable_sort key_le l).
Proof.
  induction 1 as [|x l Hs IH Hall]; [constructor|].
  cbn [stable_sort fold_right]. fold (stable_sort key_le l).
  apply insert_by_lex; [exact IH|].
  now apply stable_sort_Forall.
Qed.

End StableOrder.

Lemma StronglySorted_filter_keep {A} (R : A -> A -> Prop) (keep : A -> bool) :
  forall l, StronglySorted R l -> StronglySorted R (filter keep l).
Proof.
  induction 1 as [|x l Hs IH Hall]; [constructor|].
  cbn [filter]. destruct (keep x); [|exact IH].
  constructor; [exact IH|].
  rewrite Forall_forall in *. intros z Hz. apply filter_In in Hz.
  now apply Hall.
Qed.

Lemma StronglySorted_snoc (l : list Z) (x : Z) :
  StronglySorted Z.lt l -> Forall (fun y => y < x) l ->
  StronglySorted Z.lt (l ++ [x]).
Proof.
  induction 1 as [|y l Hs IH Hall]; intro Hx.
  - repeat constructor.
  - inversion Hx; subst. simpl. constructor; [now apply IH|].
    apply Forall_app. split; [exact Hall | now repeat constructor].
Qed.

(** *** The store invariant holds of every store the code builds *)

Lemma create_tables_ok : store_ok create_tables.
Proof. split; constructor. Qed.

Lemma add_media_ok : forall d title year filepath duration total_frames,
  store_ok d ->
  store_ok (fst (add_media d title year filepath duration total_frames)).
Proof. intros. assumption. Qed.

Lemma insert_fingerprint_ok : forall media_id d entry,
  store_ok d -> store_ok (insert_fingerprint media_id d entry).
Proof.
  intros media_id d [idx [[ts ph] cnn]] [Hasc Hseq].
  unfold store_ok, ids_ascending in *. cbn.
  split.
  - rewrite map_app. cbn. apply StronglySorted_snoc; [exact Hasc|].
    rewrite Forall_map. eapply Forall_impl; [|exact Hseq].
    cbn. intros; lia.
  - apply Forall_app. split.
    + eapply Forall_impl; [|exact Hseq]. cbn. intros; lia.
    + repeat constructor. cbn. lia.
Qed.

Lemma add_fingerprints_ok : forall fps d media_id,
  store_ok d -> store_ok (add_fingerprints d media_id fps).
Proof.
  intros fps d media_id. unfold add_fingerprints.
  generalize 0. revert d.
  induction fps as [|e fps IH]; intros d i H; [exact H|].
  cbn [enumerate_from fold_left]. apply IH.
  now apply insert_fingerprint_ok.
Qed.

(** *** Stage 1 *)

Lemma hex_text_readable : forall q h,
  hex_text q -> hex_text h ->
  exists dist, hamming_distance q h = Returned dist.
Proof.
  intros q h [n1 H1] [n2 H2]. unfold hamming_distance.
  rewrite H1, H2. cbn [bind]. eauto.
Qed.

Lemma stored_readable : forall d q,
  hex_text q -> Forall (fun r => hex_text (f_phash r)) (fingerprints d) ->
  Forall (fun c => exists dist,
            hamming_distance q (c_phash c) = Returned dist) (stored d).
Proof.
  intros d q Hq H. unfold stored. rewrite Forall_map.
  eapply Forall_impl; [|exact H]. cbn. intros r Hr.
  now apply hex_text_readable.
Qed.

Lemma within_budget_in_budget : forall q t c,
  (exists dist, hamming_distance q (c_phash c) = Returned dist) ->
  (within_budget q t c <-> in_budget q t c = true).
Proof.
  intros q t c [dist Hd]. unfold within_budget, in_budget.
  rewrite (readable_distance q c dist Hd). split.
  - intros [dist' [Hd' Hle]]. rewrite Hd in Hd'. inversion Hd'; subst.
    now apply Z.leb_le.
  - intro H. apply Z.leb_le in H. eauto.
Qed.

Lemma ranked_within_In : forall q t rows c,
  In c (ranked_within q t rows) <-> In c rows /\ in_budget q t c = true.
Proof.
  intros. unfold ranked_within. rewrite stable_sort_In. apply filter_In.
Qed.

Lemma ranked_within_sorted : forall q t rows,
  Forall (fun c => exists dist,
            hamming_distance q (c_phash c) = Returned dist) rows ->
  StronglySorted (fun a b => c_id a < c_id b) rows ->
  StronglySorted (ranks_before q) (ranked_within q t rows).
Proof.
  intros q t rows Hread Hids. unfold ranked_within.
  pose proof (stable_sort_lex (distance_to q) (fun a b => c_id a < c_id b)
                (filter (in_budget q t) rows)
                (StronglySorted_filter_keep _ _ _ Hids)) as Hlex.
  change (by_key (distance_to q)) with (distance_le q) in Hlex.
  assert (Hin : forall c, In c (ranked_within q t rows) ->
                  hamming_distance q (c_phash c) =
                  Returned (distance_to q c)).
  { intros c Hc. apply ranked_within_In in Hc. destruct Hc as [Hc _].
    rewrite Forall_forall in Hread. destruct (Hread c Hc) as [dist Hd].
    now rewrite (readable_distance q c dist Hd). }
  unfold ranked_within in Hin.
  revert Hlex Hin. fold (distance_le q).
  generalize (stable_sort (distance_le q) (filter (in_budget q t) rows)).
  intros l Hlex. induction Hlex as [|a l Hs IH Hall]; intro Hin.
  - constructor.
  - constructor.
    + apply IH. intros c Hc. apply Hin. now right.
    + rewrite Forall_forall in *. intros b Hb.
      exists (distance_to q a), (distance_to q b).
      repeat split; [apply Hin; now left | apply Hin; now right |].
      exact (Hall b Hb).
Qed.

Lemma stored_ids_sorted : forall d,
  ids_ascending d -> StronglySorted (fun a b => c_id a < c_id b) (stored d).
Proof.
  intro d. unfold ids_ascending, stored.
  induction (fingerprints d) as [|r rows IH]; intro H; [constructor|].
  cbn [map] in *. inversion H as [|? ? Hs Hall]; subst.
  constructor; [now apply IH|].
  rewrite Forall_map in *. exact Hall.
Qed.

(** The result of a search in terms of the distance that
    [hamming_distance] computes. *)
Lemma search_by_phash_ranked_as_computed :
  forall (d : database) (query_hash : string) (max_distance limit : Z),
    (ids_ascending d ->
     hex_text query_hash ->
     Forall (fun r => hex_text (f_phash r)) (fingerprints d) ->
     0 <= limit ->
     exists ranked,
       search_by_phash d query_hash max_distance limit =
         Returned (firstn (Z.to_nat limit) ranked) /\
       (forall c, In c ranked <->
                  In c (stored d) /\ within_budget query_hash max_distance c) /\
       StronglySorted (ranks_before query_hash) ranked)
    /\ (fingerprints d = [] ->
        search_by_phash d query_hash max_distance limit = Returned [])
    /\ (hex_text query_hash ->
        Forall (fun r => hex_text (f_phash r)) (fingerprints d) ->
        (forall c, In c (stored d) ->
                   ~ within_budget query_hash max_distance c) ->
        search_by_phash d query_hash max_distance limit = Returned []).
Proof.
  intros d q t limit. split; [|split].
  - intros Hids Hq Hrows Hlimit.
    pose proof (stored_readable d q Hq Hrows) as Hread.
    exists (ranked_within q t (stored d)). split; [|split].
    + rewrite (search_by_phash_total q d t limit Hread).
      unfold slice_to. apply Z.leb_le in Hlimit. now rewrite Hlimit.
    + intro c. rewrite ranked_within_In. split.
      * intros [Hc Hb]. split; [exact Hc|].
        apply within_budget_in_budget; [|exact Hb].
        rewrite Forall_forall in Hread. auto.
      * intros [Hc Hb]. split; [exact Hc|].
        apply within_budget_in_budget; [|exact Hb].
        rewrite Forall_forall in Hread. auto.
    + apply ranked_within_sorted; [exact Hread|].
      now apply stored_ids_sorted.
  - intro Hempty. unfold search_by_phash. rewrite Hempty. cbn.
    unfold slice_to. destruct (0 <=? limit); now rewrite firstn_nil.
  - intros Hq Hrows Hnone.
    pose proof (stored_readable d q Hq Hrows) as Hread.
    rewrite (search_by_phash_total q d t limit Hread).
    unfold ranked_within. rewrite filter_none.
    + cbn. unfold slice_to. destruct (0 <=? limit); now rewrite firstn_nil.
    + intros c Hc. destruct (in_budget q t c) eqn:Hb; [|reflexivity].
      exfalso. apply (Hnone c Hc).
      apply within_budget_in_budget; [|exact Hb].
      rewrite Forall_forall in Hread. auto.
Qed.

(** C9.  Stage 1 is monotonic in [max_distance]: whatever the limit, the
    candidates returned at a threshold are returned, in the same leading
    positions, at every larger threshold. *)
Theorem search_by_phash_monotonic :
  forall (d : database) (query_hash : string) (t t' limit : Z)
         (l : list candidate),
    t <= t' ->
    search_by_phash d query_hash t limit = Returned l ->
    exists l',
      search_by_phash d query_hash t' limit = Returned l' /\
      (forall c, In c l -> In c l') /\
      (exists rest, l' = l ++ rest).
Proof.
  intros d q t t' limit l Htt' Hl.
  pose proof (search_by_phash_returned q d t limit l Hl) as Hread.
  rewrite (search_by_phash_total q d t limit Hread) in Hl.
  inversion Hl as [Hl']; clear Hl.
  rewrite (search_by_phash_total q d t' limit Hread).
  destruct (ranked_within_prefix q t t' (stored d) Htt') as [rest Hrest].
  rewrite Hrest.
  destruct (slice_to_prefix (ranked_within q t (stored d)) rest limit)
    as [rest' Hrest'].
  eexists. split; [reflexivity|]. rewrite Hrest'. split.
  - intros c Hc. apply in_or_app. now left.
  - now exists rest'.
Qed.

(** *** Stage 2 *)

Lemma StronglySorted_weaken {A} (R R' : A -> A -> Prop) :
  (forall a b, R a b -> R' a b) ->
  forall l, StronglySorted R l -> StronglySorted R' l.
Proof.
  intros HR. induction 1 as [|x l Hs IH Hall]; constructor; [exact IH|].
  eapply Forall_impl; [|exact Hall]. intros; now apply HR.
Qed.


Lemma Qgeb_true : forall x y, Qgeb x y = true <-> (y <= x)%Q.
Proof. intros. unfold Qgeb. apply Qle_bool_iff. Qed.

Lemma Qgtb_true : forall x y, Qgtb x y = true <-> (y < x)%Q.
Proof.
  intros x y. unfold Qgtb. rewrite negb_true_iff. split.
  - intro H. apply Qnot_le_lt. intro C. apply Qle_bool_iff in C. congruence.
  - intro H. destruct (Qle_bool x y) eqn:E; [|reflexivity].
    apply Qle_bool_iff in E. exfalso. now apply (Qlt_not_le y x).
Qed.

Lemma Qgtb_false : forall x y, Qgtb x y = false <-> (x <= y)%Q.
Proof.
  intros x y. unfold Qgtb. rewrite negb_false_iff. apply Qle_bool_iff.
Qed.

Lemma similarity_ge_total : forall a b : frame_match,
  Qgeb (fm_similarity a) (fm_similarity b) = true \/
  Qgeb (fm_similarity b) (fm_similarity a) = true.
Proof.
  intros a b. rewrite !Qgeb_true.
  destruct (Qlt_le_dec (fm_similarity a) (fm_similarity b)) as [H|H];
    [right; now apply Qlt_le_weak | now left].
Qed.

Lemma similarity_ge_trans : forall a b c : frame_match,
  Qgeb (fm_similarity a) (fm_similarity b) = true ->
  Qgeb (fm_similarity b) (fm_similarity c) = true ->
  Qgeb (fm_similarity a) (fm_similarity c) = true.
Proof.
  intros a b c. rewrite !Qgeb_true. intros H1 H2.
  eapply Qle_trans; eassumption.
Qed.

Section Stage2Facts.

Variable X : externals.

Lemma verify_with_cnn_returned : forall d cands q out,
  verify_with_cnn X d cands q = Returned out ->
  exists scored,
    for_each (score_candidate X d q) cands = Returned scored /\
    out = stable_sort
            (fun a b => Qgeb (fm_similarity a) (fm_similarity b)) scored.
Proof.
  intros d cands q out H. unfold verify_with_cnn in H.
  destruct (for_each (score_candidate X d q) cands) as [scored|e];
    [|discriminate].
  cbn [bind] in H. inversion H. eauto.
Qed.

Lemma score_candidate_total : forall d q c,
  (exists dist, cosine X q (c_cnn_blob c) = Returned dist) ->
  (exists row, select_media d (c_media_id c) = Some row) ->
  exists m, score_candidate X d q c = Returned m.
Proof.
  intros d q c [dist Hd] [row Hrow]. unfold score_candidate, fetch_title.
  rewrite Hd, Hrow. cbn [bind]. eauto.
Qed.

Lemma match_frame_unfold : forall self f cands out,
  search_by_phash (db self) (compute_phash X f) (phash_threshold self) 50
    = Returned cands ->
  cands <> [] ->
  verify_with_cnn X (db self) cands (compute_cnn_features X f)
    = Returned out ->
  _match_frame X self f =
  Returned (hd_error (valid_matches (cnn_threshold self) out)).
Proof.
  intros self f cands out Hs Hne Hv. unfold _match_frame.
  rewrite Hs. cbn [bind]. destruct cands as [|c cands]; [congruence|].
  rewrite Hv. cbn [bind].
  now destruct (valid_matches (cnn_threshold self) out).
Qed.

End Stage2Facts.

(** *** [max] and [Counter] *)

Section MaxFacts.

Context {A K : Type}.
Variable gt : K -> K -> bool.
Variables le lt : K -> K -> Prop.
Variable key : A -> K.

Hypothesis gt_true : forall a b, gt a b = true -> lt b a.
Hypothesis gt_false : forall a b, gt a b = false -> le a b.
Hypothesis le_refl : forall a, le a a.
Hypothesis le_trans : forall a b c, le a b -> le b c -> le a c.
Hypothesis lt_le : forall a b, lt a b -> le a b.
Hypothesis lt_le_trans : forall a b c, lt a b -> le b c -> lt a c.
Hypothesis le_lt_trans : forall a b c, le a b -> lt b c -> lt a c.

Lemma max_from_spec : forall l best,
  le (key best) (key (max_from gt key best l)) /\
  Forall (fun y => le (key y) (key (max_from gt key best l))) l /\
  (max_from gt key best l = best \/
   (lt (key best) (key (max_from gt key best l)) /\
    exists pre post,
      l = pre ++ max_from gt key best l :: post /\
      Forall (fun y => lt (key y) (key (max_from gt key best l))) pre)).
Proof.
  induction l as [|x l IH]; intro best; cbn [max_from].
  - split; [apply le_refl|]. split; [constructor | now left].
  - destruct (gt (key x) (key best)) eqn:G.
    + apply gt_true in G.
      destruct (IH x) as [Hx [Hall Hpos]].
      set (b := max_from gt key x l) in *.
      assert (Hbest : lt (key best) (key b)) by eauto.
      split; [now apply lt_le|]. split; [now constructor|].
      right. split; [exact Hbest|].
      destruct Hpos as [Hb | [Hlt [pre [post [Hl Hpre]]]]].
      * exists [], l. rewrite Hb at 1. split; [reflexivity | constructor].
      * exists (x :: pre), post. split; [simpl; now f_equal|].
        now constructor.
    + apply gt_false in G.
      destruct (IH best) as [Hx [Hall Hpos]].
      set (b := max_from gt key best l) in *.
      split; [exact Hx|]. split; [constructor; eauto|].
      destruct Hpos as [Hb | [Hlt [pre [post [Hl Hpre]]]]]; [now left|].
      right. split; [exact Hlt|].
      exists (x :: pre), post. split; [simpl; now f_equal|].
      constructor; eauto.
Qed.

(** [max(l, key=..)] on a non-empty list: the first element of highest
    key. *)
Lemma max_by_first_max : forall x rest,
  exists b pre post,
    max_by gt key (x :: rest) = Returned b /\
    x :: rest = pre ++ b :: post /\
    Forall (fun y => lt (key y) (key b)) pre /\
    Forall (fun y => le (key y) (key b)) (x :: rest).
Proof.
  intros x rest. cbn [max_by].
  destruct (max_from_spec rest x) as [Hx [Hall Hpos]].
  set (b := max_from gt key x rest) in *.
  destruct Hpos as [Hb | [Hlt [pre [post [Hl Hpre]]]]].
  - exists b, [], rest.
    split; [reflexivity|]. split; [cbn; now rewrite Hb|].
    split; [constructor | now constructor].
  - exists b, (x :: pre), post.
    split; [reflexivity|]. split; [simpl; now f_equal|].
    split; now constructor.
Qed.

End MaxFacts.

Lemma max_by_count : forall (x : string * Z) rest,
  exists b pre post,
    max_by Z.gtb snd (x :: rest) = Returned b /\
    x :: rest = pre ++ b :: post /\
    Forall (fun y => snd y < snd b) pre /\
    Forall (fun y => snd y <= snd b) (x :: rest).
Proof.
  intros x rest.
  apply (max_by_first_max Z.gtb Z.le Z.lt (@snd string Z)); intros; lia.
Qed.

Lemma max_by_similarity : forall (x : frame_match) rest,
  exists b pre post,
    max_by Qgtb fm_similarity (x :: rest) = Returned b /\
    x :: rest = pre ++ b :: post /\
    Forall (fun y => (fm_similarity y < fm_similarity b)%Q) pre /\
    Forall (fun y => (fm_similarity y <= fm_similarity b)%Q) (x :: rest).
Proof.
  intros x rest.
  apply (max_by_first_max Qgtb Qle Qlt fm_similarity).
  - intros a b H. now apply Qgtb_true.
  - intros a b H. now apply Qgtb_false.
  - apply Qle_refl.
  - apply Qle_trans.
  - apply Qlt_le_weak.
  - apply Qlt_le_trans.
  - apply Qle_lt_trans.
Qed.

Lemma occurrences_nonneg : forall t titles, 0 <= occurrences t titles.
Proof. intros. unfold occurrences. lia. Qed.

Lemma occurrences_app : forall t l1 l2,
  occurrences t (l1 ++ l2) = occurrences t l1 + occurrences t l2.
Proof.
  intros. unfold occurrences. rewrite filter_app, length_app. lia.
Qed.

Lemma occurrences_cons : forall t x l,
  occurrences t (x :: l) =
  (if String.eqb x t then 1 else 0) + occurrences t l.
Proof.
  intros. unfold occurrences. cbn [filter].
  destruct (String.eqb x t); cbn [length]; lia.
Qed.

Lemma occurrences_pos : forall t titles,
  In t titles <-> 0 < occurrences t titles.
Proof.
  intros t titles. induction titles as [|x l IH].
  - cbn. split; [tauto | lia].
  - rewrite occurrences_cons. pose proof (occurrences_nonneg t l).
    cbn [In]. destruct (String.eqb_spec x t) as [->|N].
    + split; [intro; lia | intro; now left].
    + rewrite IH.
      split; [intros [E|H']; [congruence | lia] | intro; right; lia].
Qed.

Lemma votes_occurrences : forall t ms,
  votes t ms = occurrences t (map fm_title ms).
Proof.
  intros t ms. unfold votes, occurrences. f_equal.
  induction ms as [|m ms IH]; [reflexivity|].
  cbn [filter map]. destruct (String.eqb (fm_title m) t); cbn [length];
    now rewrite IH.
Qed.

Lemma first_occurrence : forall (t : string) l,
  In t l -> exists pre post, l = pre ++ t :: post /\ ~ In t pre.
Proof.
  intros t l. induction l as [|x l IH]; intro H; [destruct H|].
  destruct (string_dec x t) as [->|N].
  - exists [], l. split; [reflexivity | intros []].
  - destruct H as [E|H]; [congruence|].
    destruct (IH H) as [pre [post [-> Hpre]]].
    exists (x :: pre), post. split; [reflexivity|].
    intros [E|C]; [congruence | contradiction].
Qed.

Lemma counter_incr_tally : forall c k k',
  tally (counter_incr c k) k' =
  tally c k' + (if String.eqb k k' then 1 else 0).
Proof.
  intros c k k'. unfold tally. induction c as [|[k0 n] c IH].
  - cbn. destruct (String.eqb k k'); cbn; lia.
  - cbn [counter_incr]. destruct (String.eqb_spec k0 k) as [->|N].
    + cbn [find fst snd]. destruct (String.eqb k k'); cbn [snd]; lia.
    + cbn [find fst snd]. destruct (String.eqb_spec k0 k') as [->|N'].
      * cbn [snd]. destruct (String.eqb_spec k k'); [congruence | lia].
      * exact IH.
Qed.

Lemma counter_incr_keys : forall c k,
  keys (counter_incr c k) = if in_dec string_dec k (keys c)
                            then keys c else keys c ++ [k].
Proof.
  intros c k. unfold keys. induction c as [|[k0 n] c IH].
  - reflexivity.
  - cbn [counter_incr]. destruct (String.eqb_spec k0 k) as [->|N].
    + cbn [map fst]. destruct (in_dec string_dec k (k :: map fst c)) as [_|C];
        [reflexivity | exfalso; apply C; now left].
    + cbn [map fst]. rewrite IH.
      destruct (in_dec string_dec k (map fst c)) as [I|I];
        destruct (in_dec string_dec k (k0 :: map fst c)) as [J|J];
        try reflexivity.
      * exfalso. apply J. now right.
      * exfalso. destruct J as [E|J]; [congruence | contradiction].
Qed.

Lemma counter_fold_tally : forall l c k,
  tally (fold_left counter_incr l c) k = tally c k + occurrences k l.
Proof.
  induction l as [|x l IH]; intros c k; cbn [fold_left].
  - unfold occurrences. cbn. lia.
  - rewrite IH, counter_incr_tally, occurrences_cons. lia.
Qed.

Lemma counter_fold_keys : forall l c,
  exists extra, keys (fold_left counter_incr l c) = keys c ++ extra.
Proof.
  induction l as [|x l IH]; intro c; cbn [fold_left].
  - exists []. now rewrite app_nil_r.
  - destruct (IH (counter_incr c x)) as [extra ->].
    rewrite counter_incr_keys.
    destruct (in_dec string_dec x (keys c)); [eauto|].
    exists ([x] ++ extra). now rewrite app_assoc.
Qed.

Lemma counter_fold_In : forall l c k,
  In k (keys (fold_left counter_incr l c)) <-> In k (keys c) \/ In k l.
Proof.
  induction l as [|x l IH]; intros c k; cbn [fold_left].
  - cbn. tauto.
  - rewrite IH, counter_incr_keys. cbn [In].
    destruct (in_dec string_dec x (keys c)) as [I|I].
    + split; [tauto|]. intros [H|[H|H]]; subst; tauto.
    + rewrite in_app_iff. cbn. tauto.
Qed.

Lemma counter_fold_NoDup : forall l c,
  NoDup (keys c) -> NoDup (keys (fold_left counter_incr l c)).
Proof.
  induction l as [|x l IH]; intros c H; cbn [fold_left]; [exact H|].
  apply IH. rewrite counter_incr_keys.
  destruct (in_dec string_dec x (keys c)) as [I|I]; [exact H|].
  apply NoDup_app; [exact H | repeat constructor; intros [] |].
  intros k Hk [E|[]]. subst. contradiction.
Qed.

Lemma tally_In : forall c k n,
  NoDup (keys c) -> In (k, n) c -> tally c k = n.
Proof.
  intros c k n. unfold tally, keys. induction c as [|[k0 n0] c IH];
    intros Hnd Hin; [destruct Hin|].
  cbn [map fst] in Hnd. inversion Hnd as [|? ? Hnot Hnd']; subst.
  cbn [find fst]. destruct Hin as [E|Hin].
  - inversion E; subst. now rewrite String.eqb_refl.
  - destruct (String.eqb_spec k0 k) as [->|N]; [|now apply IH].
    exfalso. apply Hnot. change k with (fst (k, n)). now apply in_map.
Qed.

Lemma NoDup_split_unique {A} (x : A) : forall l1 l2 l1' l2',
  NoDup (l1 ++ x :: l2) -> l1 ++ x :: l2 = l1' ++ x :: l2' -> l1 = l1'.
Proof.
  induction l1 as [|a l1 IH]; intros l2 l1' l2' Hnd E.
  - destruct l1' as [|b l1']; [reflexivity|].
    cbn in E. inversion E; subst. inversion Hnd as [|? ? Hnot _]; subst.
    exfalso. apply Hnot. apply in_or_app. right. now left.
  - destruct l1' as [|b l1'].
    + cbn in E. inversion E; subst. inversion Hnd as [|? ? Hnot _]; subst.
      exfalso. apply Hnot. apply in_or_app. right. now left.
    + cbn in E. inversion E; subst. f_equal.
      inversion Hnd; subst. eapply IH; eassumption.
Qed.

(** [Counter(titles).most_common(1)] names a title of highest count, and
    the one among those that occurs first. *)
Lemma most_common_first_max : forall titles,
  titles <> [] ->
  exists w n pre post,
    most_common_1 (Counter titles) = [(w, n)] /\
    n = occurrences w titles /\
    (forall t, occurrences t titles <= occurrences w titles) /\
    titles = pre ++ w :: post /\
    ~ In w pre /\
    (forall t, In t pre -> occurrences t titles < occurrences w titles).
Proof.
  intros titles Hne.
  assert (Hnd : NoDup (keys (Counter titles))).
  { apply counter_fold_NoDup. constructor. }
  assert (Hcount : forall k n, In (k, n) (Counter titles) ->
                     n = occurrences k titles).
  { intros k n Hin. rewrite <- (tally_In _ _ _ Hnd Hin).
    unfold Counter. rewrite counter_fold_tally. reflexivity. }
  assert (Hkeys : forall k, In k (keys (Counter titles)) <-> In k titles).
  { intro k. unfold Counter. rewrite counter_fold_In. cbn. tauto. }
  destruct (Counter titles) as [|x rest] eqn:HC.
  { destruct titles as [|t titles]; [congruence|].
    exfalso. apply (proj2 (Hkeys t)). now left. }
  destruct (max_by_count x rest)
    as [[w n] [pre_c [post_c [Hmax [Hsplit [Hpre Hall]]]]]].
  cbn [max_by] in Hmax. inversion Hmax as [Hmax']. cbn [snd] in *.
  assert (Hw : In (w, n) (x :: rest)).
  { rewrite Hsplit. apply in_or_app. right. now left. }
  pose proof (Hcount w n Hw) as Hn.
  assert (Hwt : In w titles).
  { apply Hkeys. change w with (fst (w, n)). now apply in_map. }
  destruct (first_occurrence w titles Hwt) as [pre [post [Htitles Hnot]]].
  exists w, n, pre, post.
  split; [cbn [most_common_1]; now rewrite Hmax'|].
  split; [exact Hn|]. split; [|split; [exact Htitles | split; [exact Hnot|]]].
  - intro t. destruct (in_dec string_dec t titles) as [I|I].
    + apply Hkeys in I. unfold keys in I. apply in_map_iff in I.
      destruct I as [[t' m] [E I]]. cbn in E. subst t'.
      rewrite <- (Hcount t m I), <- Hn.
      rewrite Forall_forall in Hall. exact (Hall (t, m) I).
    + pose proof (occurrences_nonneg w titles).
      destruct (proj1 (occurrences_pos w titles) Hwt).
      assert (occurrences t titles <= 0); [|lia].
      destruct (Z_lt_le_dec 0 (occurrences t titles)) as [P|P]; [|exact P].
      apply occurrences_pos in P. contradiction.
  - (* the keys before [w] in the counter are the titles before [w] *)
    assert (Hk : keys pre_c = keys (Counter pre)).
    { assert (E1 : keys (x :: rest) = keys pre_c ++ w :: keys post_c).
      { rewrite Hsplit. unfold keys. now rewrite map_app. }
      assert (E2 : exists extra,
                 keys (x :: rest) = keys (Counter pre) ++ w :: extra).
      { rewrite <- HC. unfold Counter at 1. rewrite Htitles.
        rewrite fold_left_app. cbn [fold_left].
        fold (Counter pre).
        destruct (counter_fold_keys post (counter_incr (Counter pre) w))
          as [extra ->].
        rewrite counter_incr_keys.
        destruct (in_dec string_dec w (keys (Counter pre))) as [I|I].
        - exfalso. apply Hnot. unfold Counter in I.
          apply counter_fold_In in I. cbn in I. tauto.
        - exists extra. now rewrite <- app_assoc. }
      destruct E2 as [extra E2].
      eapply NoDup_split_unique; [|rewrite <- E1; exact E2].
      rewrite <- E1. exact Hnd. }
    intros t Ht.
    assert (It : In t (keys pre_c)).
    { rewrite Hk. unfold Counter. apply counter_fold_In. now right. }
    unfold keys in It. apply in_map_iff in It.
    destruct It as [[t' m] [E It]]. cbn in E. subst t'.
    assert (Itc : In (t, m) (x :: rest)).
    { rewrite Hsplit. apply in_or_app. now left. }
    rewrite <- (Hcount t m Itc), <- Hn.
    rewrite Forall_forall in Hpre. exact (Hpre (t, m) It).
Qed.

(** *** The frame loop and the vote *)

Lemma votes_perm : forall t ms ms',
  Permutation ms ms' -> votes t ms = votes t ms'.
Proof.
  intros t ms ms' H. unfold votes. f_equal.
  induction H as [|m l l' _ IH|m m' l|l l' l'' _ IH1 _ IH2].
  - reflexivity.
  - cbn [filter]. destruct (String.eqb (fm_title m) t); cbn [length]; lia.
  - cbn [filter].
    destruct (String.eqb (fm_title m) t), (String.eqb (fm_title m') t);
      reflexivity.
  - lia.
Qed.

Section RecognizerFacts.

Variable X : externals.

Lemma match_frames_returned : forall self reads acc s,
  no_frame_raises X self reads ->
  match_frames X self reads acc s =
  Returned (acc ++ matching_frames X self reads,
            s + Z.of_nat (length (matching_frames X self reads))).
Proof.
  intros self reads. induction reads as [|r reads IH]; intros acc s H.
  - cbn. rewrite app_nil_r. f_equal. f_equal. lia.
  - inversion H as [|? ? Hr Hrest]; subst.
    destruct r as [f|]; cbn [match_frames matching_frames].
    + destruct (Hr f eq_refl) as [m Hm]. rewrite Hm. cbn [bind].
      destruct m as [mt|].
      * rewrite (IH _ _ Hrest). rewrite <- app_assoc. cbn [app length].
        f_equal. f_equal. lia.
      * now apply IH.
    + now apply IH.
Qed.

(** An exception raised while matching a frame ends the loop with that
    exception: only frames that cannot be read are skipped. *)
Lemma match_frames_raises : forall self before f after acc s e,
  no_frame_raises X self before ->
  _match_frame X self f = Raised e ->
  raises (match_frames X self (before ++ Some f :: after) acc s).
Proof.
  intros self before. induction before as [|r before IH];
    intros f after acc s e Hok Hf.
  - cbn [app match_frames]. rewrite Hf. cbn [bind]. now exists e.
  - inversion Hok as [|? ? Hr Hrest]; subst.
    destruct r as [g|]; cbn [app match_frames].
    + destruct (Hr g eq_refl) as [m Hm]. rewrite Hm. cbn [bind].
      destruct m; eapply IH; eassumption.
    + eapply IH; eassumption.
Qed.

(** The frames that produce a match are counted one by one. *)
Lemma matching_frames_count : forall self reads,
  length (matching_frames X self reads) =
  length (filter (fun r =>
                    match r with
                    | Some f =>
                        match _match_frame X self f with
                        | Returned (Some _) => true
                        | _ => false
                        end
                    | None => false
                    end) reads).
Proof.
  intros self reads. induction reads as [|[f|] reads IH]; cbn; auto.
  destruct (_match_frame X self f) as [[m|]|e]; cbn; auto.
Qed.

Lemma identify_video_no_match : forall self path n v reads,
  VideoCapture X path = Some v ->
  read_samples X v n = Returned reads ->
  no_frame_raises X self reads ->
  matching_frames X self reads = [] ->
  _identify_video X self path n = Returned (no_match n 0).
Proof.
  intros self path n v reads Hv Hr Hok Hnone. unfold _identify_video.
  rewrite Hv, Hr. cbn [bind].
  rewrite (match_frames_returned self reads [] 0 Hok), Hnone.
  reflexivity.
Qed.

Lemma identify_video_matched : forall self path n v reads,
  VideoCapture X path = Some v ->
  read_samples X v n = Returned reads ->
  no_frame_raises X self reads ->
  matching_frames X self reads <> [] ->
  exists w cnt best r,
    most_common_1 (Counter (map fm_title (matching_frames X self reads)))
      = [(w, cnt)] /\
    max_by Qgtb fm_similarity
           (filter (fun m => String.eqb (fm_title m) w)
                   (matching_frames X self reads)) = Returned best /\
    _identify_video X self path n = Returned r /\
    matched r = true /\
    title r = Some (fm_title best) /\
    year r = _get_year self (fm_media_id best) /\
    timestamp r = Some (fm_timestamp best) /\
    confidence r = Some (fm_similarity best) /\
    match_type r = _get_match_type (fm_similarity best) /\
    stage1_candidates r = 0 /\
    stage2_candidates r =
      Z.of_nat (length (matching_frames X self reads)) /\
    frames_sampled r = n /\
    frames_matched r = Z.of_nat (length (matching_frames X self reads)).
Proof.
  intros self path n v reads Hv Hr Hok Hne. unfold _identify_video.
  rewrite Hv, Hr. cbn [bind].
  rewrite (match_frames_returned self reads [] 0 Hok). cbn [bind app].
  destruct (matching_frames X self reads) as [|m0 ms0]; [congruence|].
  cbv beta iota zeta. remember (m0 :: ms0) as ms eqn:Hms.
  assert (Ht : map fm_title ms <> []) by (subst ms; discriminate).
  destruct (most_common_first_max _ Ht)
    as [w [cnt [pre [post [Hmc [_ [_ [Hsplit _]]]]]]]].
  assert (Hw : exists m, In m ms /\ fm_title m = w).
  { assert (I : In w (map fm_title ms)).
    { rewrite Hsplit. apply in_or_app. right. now left. }
    apply in_map_iff in I. destruct I as [m [E I]]. eauto. }
  destruct Hw as [m [Im Em]].
  assert (Hf : exists x rest,
             filter (fun m => String.eqb (fm_title m) w) ms = x :: rest).
  { destruct (filter (fun m => String.eqb (fm_title m) w) ms)
      as [|x rest] eqn:Hf; [|eauto].
    exfalso.
    assert (I : In m (filter (fun m => String.eqb (fm_title m) w) ms)).
    { apply filter_In. split; [exact Im|]. rewrite Em.
      apply String.eqb_refl. }
    rewrite Hf in I. destruct I. }
  destruct Hf as [x [rest Hf]].
  destruct (max_by_similarity x rest) as [best [_ [_ [Hbest _]]]].
  rewrite <- Hf in Hbest.
  exists w, cnt, best. eexists.
  split; [exact Hmc|]. split; [exact Hbest|].
  rewrite Hmc. cbn [item0 bind fst]. rewrite Hbest. cbn [bind].
  split; [reflexivity|].
  cbn. repeat split; reflexivity.
Qed.

End RecognizerFacts.

Lemma scenario_A3_B2_facts : forall ms,
  collected_as ms scenario_A3_B2 ->
  votes "A" ms = 3 /\
  votes "B" ms = 2 /\
  length ms = 5%nat /\
  (forall m, In m ms ->
     (fm_title m = "A"%string /\ (fm_similarity m <= 90 # 100)%Q) \/
     fm_title m = "B"%string) /\
  (exists m, In m ms /\ fm_title m = "A"%string /\
             (fm_similarity m == 90 # 100)%Q).
Proof.
  intros ms [l [Hperm Hall]]. unfold scenario_A3_B2 in Hall.
  inversion Hall as [|m1 e1 l1 s1 [T1 S1] H1]; subst; clear Hall.
  inversion H1 as [|m2 e2 l2 s2 [T2 S2] H2]; subst; clear H1.
  inversion H2 as [|m3 e3 l3 s3 [T3 S3] H3]; subst; clear H2.
  inversion H3 as [|m4 e4 l4 s4 [T4 S4] H4]; subst; clear H3.
  inversion H4 as [|m5 e5 l5 s5 [T5 S5] H5]; subst; clear H4.
  inversion H5; subst; clear H5. cbn [fst snd] in *.
  rewrite (votes_perm "A" _ _ Hperm), (votes_perm "B" _ _ Hperm).
  rewrite (Permutation_length Hperm).
  unfold votes. cbn [filter]. rewrite T1, T2, T3, T4, T5. cbn.
  split; [reflexivity|]. split; [reflexivity|]. split; [reflexivity|].
  split.
  - intros m Hm. apply (Permutation_in _ Hperm) in Hm.
    destruct Hm as [<-|[<-|[<-|[<-|[<-|[]]]]]]; auto; left;
      (split; [assumption|]).
    + rewrite S1. unfold Qle. cbn. lia.
    + rewrite S2. unfold Qle. cbn. lia.
    + rewrite S3. unfold Qle. cbn. lia.
  - exists m3. split; [|now split].
    apply (Permutation_in _ (Permutation_sym Hperm)). cbn. tauto.
Qed.

Section AggregationTheorems.

Variable X : externals.

(** C1.  The title returned has the most matching frames, the
    representative is a match of that title of the highest similarity,
    and [frames_matched] counts all matching frames; so three frames of
    "A" (0.81, 0.85, 0.90) and two of "B" (0.99, 0.99), collected in any
    order, give "A", 0.90 and 5. *)
Theorem identify_video_majority :
  forall (self : VisualRecognizer) (path : string) (n : Z)
         (v : video X) (reads : list (option (frame X))),
    VideoCapture X path = Some v ->
    read_samples X v n = Returned reads ->
    no_frame_raises X self reads ->
    matching_frames X self reads <> [] ->
    exists r best,
      _identify_video X self path n = Returned r /\
      matched r = true /\
      In best (matching_frames X self reads) /\
      title r = Some (fm_title best) /\
      confidence r = Some (fm_similarity best) /\
      timestamp r = Some (fm_timestamp best) /\
      frames_matched r = Z.of_nat (length (matching_frames X self reads)) /\
      (forall t, votes t (matching_frames X self reads) <=
                 votes (fm_title best) (matching_frames X self reads)) /\
      (forall m, In m (matching_frames X self reads) ->
                 fm_title m = fm_title best ->
                 (fm_similarity m <= fm_similarity best)%Q) /\
      (collected_as (matching_frames X self reads) scenario_A3_B2 ->
       title r = Some "A"%string /\
       (fm_similarity best == 90 # 100)%Q /\
       frames_matched r = 5).
Proof.
  intros self path n v reads Hv Hr Hok Hne.
  destruct (identify_video_matched X self path n v reads Hv Hr Hok Hne)
    as [w [cnt [best [r [Hmc [Hbest [Hid [Hm [Ht [_ [Hts [Hc [_ [_ [_
         [_ Hfm]]]]]]]]]]]]]]]].
  set (ms := matching_frames X self reads) in *.
  assert (Hne' : map fm_title ms <> []).
  { destruct ms; [congruence | discriminate]. }
  destruct (most_common_first_max _ Hne')
    as [w' [cnt' [pre [post [Hmc' [_ [Hmax _]]]]]]].
  rewrite Hmc in Hmc'. inversion Hmc'; subst w' cnt'; clear Hmc'.
  destruct (filter (fun m => String.eqb (fm_title m) w) ms)
    as [|x rest] eqn:Hf; [discriminate|].
  destruct (max_by_similarity x rest) as [b [p [q [Hb [Hs [_ Hall]]]]]].
  assert (Eb : b = best) by congruence. subst b.
  assert (Hin : In best ms /\ fm_title best = w).
  { assert (I : In best (x :: rest)).
    { rewrite Hs. apply in_or_app. right. now left. }
    rewrite <- Hf in I. apply filter_In in I. destruct I as [I E].
    split; [exact I | now apply String.eqb_eq]. }
  destruct Hin as [Hin Hw].
  assert (Hvotes : forall t, votes t ms <= votes (fm_title best) ms).
  { intro t. rewrite Hw, !votes_occurrences. apply Hmax. }
  assert (Hsim : forall m, In m ms -> fm_title m = fm_title best ->
                   (fm_similarity m <= fm_similarity best)%Q).
  { intros m Im Em. rewrite Forall_forall in Hall. apply Hall.
    rewrite <- Hf. apply filter_In. split; [exact Im|].
    rewrite Em, Hw. apply String.eqb_refl. }
  exists r, best.
  repeat (split; [assumption|]).
  intro Hsc. apply scenario_A3_B2_facts in Hsc.
  destruct Hsc as [VA [VB [Hlen [Hcases [m90 [I90 [T90 S90]]]]]]].
  assert (HA : fm_title best = "A"%string /\
               (fm_similarity best <= 90 # 100)%Q).
  { destruct (Hcases best Hin) as [HA|HB]; [exact HA|].
    exfalso. specialize (Hvotes "A"%string). rewrite HB in Hvotes. lia. }
  destruct HA as [HA Hle].
  split; [now rewrite Ht, HA|]. split.
  - apply Qle_antisym; [exact Hle|].
    rewrite <- S90. apply Hsim; [exact I90 | congruence].
  - rewrite Hfm, Hlen. reflexivity.
Qed.

(** C5, as the code has it.  The title returned has the most matching
    frames, and every title that matched before its first match has
    strictly fewer: among titles tied for the highest count the one
    seen first wins, whatever the similarities. *)
Theorem identify_video_tie_first_seen :
  forall (self : VisualRecognizer) (path : string) (n : Z)
         (v : video X) (reads : list (option (frame X))),
    VideoCapture X path = Some v ->
    read_samples X v n = Returned reads ->
    no_frame_raises X self reads ->
    matching_frames X self reads <> [] ->
    exists r w pre post,
      _identify_video X self path n = Returned r /\
      title r = Some w /\
      (forall t, votes t (matching_frames X self reads) <=
                 votes w (matching_frames X self reads)) /\
      map fm_title (matching_frames X self reads) = pre ++ w :: post /\
      ~ In w pre /\
      (forall t, In t pre ->
                 votes t (matching_frames X self reads) <
                 votes w (matching_frames X self reads)).
Proof.
  intros self path n v reads Hv Hr Hok Hne.
  destruct (identify_video_matched X self path n v reads Hv Hr Hok Hne)
    as [w [cnt [best' [r [Hmc [Hbest [Hid [_ [Ht' _]]]]]]]]].
  set (ms := matching_frames X self reads) in *.
  assert (Hne' : map fm_title ms <> []).
  { destruct ms; [congruence | discriminate]. }
  destruct (most_common_first_max _ Hne')
    as [w' [cnt' [pre [post [Hmc' [_ [Hmax [Hsplit [Hnot Hpre]]]]]]]]].
  rewrite Hmc in Hmc'. inversion Hmc'; subst w' cnt'; clear Hmc'.
  assert (Hw : fm_title best' = w).
  { destruct (filter (fun m => String.eqb (fm_title m) w) ms)
      as [|x rest] eqn:Hf; [discriminate|].
    destruct (max_by_similarity x rest) as [b [p [q [Hb [Hs _]]]]].
    assert (Eb : b = best') by congruence. subst b.
    assert (I : In best' (x :: rest)).
    { rewrite Hs. apply in_or_app. right. now left. }
    rewrite <- Hf in I. apply filter_In in I.
    now apply String.eqb_eq. }
  exists r, w, pre, post.
  split; [exact Hid|]. split; [now rewrite Ht', Hw|].
  split; [intro t; rewrite !votes_occurrences; apply Hmax|].
  split; [exact Hsplit|]. split; [exact Hnot|].
  intros t It. rewrite !votes_occurrences. now apply Hpre.
Qed.

End AggregationTheorems.

Section NotFound.

Variable X : externals.

(** C4, as the code has it.  When sampling the clip raises nothing and
    no frame matches, [identify] returns a not-found result and raises
    nothing: for a clip that opens it reports the requested number of
    frames, unreadable frames counting as frames without a match; for a
    still image that loads it reports one frame; for a file that cannot
    be opened or loaded it reports none.  When sampling the clip raises,
    as [numpy.linspace] does on a negative number of frames, [identify]
    raises the same exception whatever the frames are. *)
Theorem identify_not_found :
  forall (self : VisualRecognizer) (path : string) (n : Z) (elapsed_ms : Q),
    (existsb (String.eqb (path_ext X path)) image_extensions = true ->
     (imread X path = None ->
      not_found (identify X self path n elapsed_ms) 0) /\
     (forall f, imread X path = Some f ->
                _match_frame X self f = Returned None ->
                not_found (identify X self path n elapsed_ms) 1))
    /\
    (existsb (String.eqb (path_ext X path)) image_extensions = false ->
     (VideoCapture X path = None ->
      not_found (identify X self path n elapsed_ms) 0) /\
     (forall v reads,
         VideoCapture X path = Some v ->
         read_samples X v n = Returned reads ->
         no_frame_raises X self reads ->
         matching_frames X self reads = [] ->
         not_found (identify X self path n elapsed_ms) n) /\
     (forall v e,
         VideoCapture X path = Some v ->
         read_samples X v n = Raised e ->
         identify X self path n elapsed_ms = Raised e)).
Proof.
  intros self path n elapsed. unfold identify, not_found. split.
  - intro Hext. rewrite Hext. split.
    + intro Hread. unfold _identify_image. rewrite Hread. cbn [bind].
      eexists. split; [reflexivity|]. cbn. auto.
    + intros f Hread Hm. unfold _identify_image. rewrite Hread, Hm.
      cbn [bind]. eexists. split; [reflexivity|]. cbn. auto.
  - intro Hext. rewrite Hext. split; [|split].
    + intro Hv. unfold _identify_video. rewrite Hv. cbn [bind].
      eexists. split; [reflexivity|]. cbn. auto.
    + intros v reads Hv Hr Hok Hnone.
      rewrite (identify_video_no_match X self path n v reads Hv Hr Hok Hnone).
      cbn [bind]. eexists. split; [reflexivity|]. cbn. auto.
    + intros v e Hv Hr. unfold _identify_video. rewrite Hv, Hr.
      reflexivity.
Qed.

End NotFound.

(** *** The store *)

Lemma insert_all_rows : forall media_id entries d,
  fold_left (insert_fingerprint media_id) entries d =
  {| media := media d;
     media_seq := media_seq d;
     fingerprints := fingerprints d ++
                     rows_from media_id (fingerprints_seq d + 1) entries;
     fingerprints_seq := fingerprints_seq d + Z.of_nat (length entries) |}.
Proof.
  intros media_id entries. induction entries as [|[idx [[ts ph] cnn]] rest IH];
    intro d.
  - destruct d. cbn. rewrite app_nil_r. f_equal. lia.
  - cbn [fold_left]. rewrite IH. cbn. rewrite <- app_assoc. cbn.
    f_equal. lia.
Qed.

Lemma rows_from_entries : forall media_id batch next_id i,
  map (fun r => (f_timestamp r, f_phash r, f_cnn_features r))
      (rows_from media_id next_id (enumerate_from i batch)) = batch.
Proof.
  intros media_id batch. induction batch as [|[[ts ph] cnn] rest IH];
    intros next_id i; [reflexivity|].
  cbn. f_equal. apply IH.
Qed.

Lemma enumerate_from_length {A} : forall (l : list A) i,
  length (enumerate_from i l) = length l.
Proof.
  induction l as [|x l IH]; intro i; cbn; [reflexivity | now rewrite IH].
Qed.

(** C3, as the code has it.  [add_fingerprints] checks neither the hash
    length nor the vector dimension: for every batch it appends one row
    per entry, in order, under fresh ids, with the hash and the vector as
    given, and leaves the media table alone. *)
Theorem add_fingerprints_unchecked :
  forall (d : database) (media_id : Z) (batch : list (Q * string * features)),
    media (add_fingerprints d media_id batch) = media d /\
    fingerprints (add_fingerprints d media_id batch) =
      fingerprints d ++
      rows_from media_id (fingerprints_seq d + 1) (enumerate_from 0 batch) /\
    map (fun r => (f_timestamp r, f_phash r, f_cnn_features r))
        (rows_from media_id (fingerprints_seq d + 1) (enumerate_from 0 batch))
      = batch /\
    fingerprints_seq (add_fingerprints d media_id batch) =
      fingerprints_seq d + Z.of_nat (length batch).
Proof.
  intros d media_id batch. unfold add_fingerprints.
  rewrite insert_all_rows. cbn [media fingerprints fingerprints_seq].
  rewrite enumerate_from_length, rows_from_entries. auto.
Qed.

(** C3 fails as stated: a batch whose hash has 4 digits where the store has
    16, and whose vector has 3 entries where the store has 2, is
    inserted. *)
Lemma add_fingerprints_accepts_mismatch :
  ~ rejects_mismatch Scenario.single 1 Scenario.odd_batch.
Proof.
  unfold rejects_mismatch. intro H.
  assert (Hbad : Exists (mismatching Scenario.single) Scenario.odd_batch).
  { constructor. cbn. left. exists 16%nat.
    split; [reflexivity | discriminate]. }
  specialize (H Hbad).
  apply (f_equal (fun d => length (fingerprints d))) in H.
  vm_compute in H. discriminate.
Qed.

(** *** Evaluations on the small world *)

(** C2: on a clip of one frame that has two Stage-1 candidates, both of
    which pass Stage 2, [_identify_video] reports 0 and 1 where
    [recognize_frame] on that frame reports 2 and 2. *)
Theorem identify_video_stage_counts :
  exists r report,
    _identify_video Scenario.twins_files Scenario.twins_engine "one.mp4" 1
      = Returned r /\
    recognize_frame Scenario.twins_files Scenario.twins
                    ("0000000000000000"%string, [1%Q]) 15 (6 # 10)
      = Returned (Some report) /\
    matched r = true /\
    frames_matched r = 1 /\
    fr_candidates_stage1 report = 2 /\ stage1_candidates r = 0 /\
    fr_candidates_stage2 report = 2 /\ stage2_candidates r = 1.
Proof.
  eexists. eexists.
  split; [vm_compute; reflexivity|].
  split; [vm_compute; reflexivity|].
  cbn. repeat split; reflexivity.
Qed.

(** C4 fails as stated: for a clip that cannot be opened the result
    reports no sampled frame, not the five requested; for a still image
    that cannot be loaded it reports no frame, not the one requested. *)
Lemma unopened_file_reports_no_frame :
  ~ not_found_reports_request Scenario.files Scenario.engine "gone.mp4" 5 12
  /\
  ~ not_found_reports_request Scenario.files Scenario.engine "gone.png" 1 12.
Proof.
  unfold not_found_reports_request. split; intro H.
  - destruct H as [r [Hr [_ [_ Hs]]]].
    + vm_compute. discriminate.
    + intros v reads Hv. vm_compute in Hv. discriminate.
    + vm_compute in Hr. inversion Hr; subst r. cbn in Hs. discriminate.
  - destruct H as [r [Hr [_ [_ Hs]]]].
    + intros _. split; [reflexivity|].
      intros f Hf. vm_compute in Hf. discriminate.
    + intros v reads Hv. vm_compute in Hv. discriminate.
    + vm_compute in Hr. inversion Hr; subst r. cbn in Hs. discriminate.
Qed.

(** C5 fails as stated: "A" (best 0.81) and "B" (best 0.99) have one frame
    each, "A" matched first, and "A" is returned. *)
Lemma tie_break_ignores_similarity :
  exists r,
    _identify_video Scenario.files Scenario.engine "tie.mp4" 2 = Returned r /\
    title r = Some "A"%string /\
    length (matching_frames Scenario.files Scenario.engine Scenario.clip_tie)
      = 2%nat /\
    votes "A" (matching_frames Scenario.files Scenario.engine
                               Scenario.clip_tie) = 1 /\
    votes "B" (matching_frames Scenario.files Scenario.engine
                               Scenario.clip_tie) = 1 /\
    ~ tie_broken_by_similarity
        (matching_frames Scenario.files Scenario.engine Scenario.clip_tie)
        "A".
Proof.
  eexists. split; [vm_compute; reflexivity|].
  split; [reflexivity|].
  let v := eval vm_compute in
             (matching_frames Scenario.files Scenario.engine Scenario.clip_tie)
  in assert (E : matching_frames Scenario.files Scenario.engine
                                 Scenario.clip_tie = v)
    by (vm_compute; reflexivity).
  rewrite E. split; [reflexivity|]. split; [reflexivity|].
  split; [reflexivity|].
  unfold tie_broken_by_similarity. intro H.
  match goal with
  | _ : _ = [_; ?mB] |- _ =>
      destruct (H "B"%string mB eq_refl (or_intror (or_introl eq_refl)) eq_refl)
        as [m' [Hin [Ht Hle]]]
  end.
  destruct Hin as [<-|[<-|[]]].
  - unfold Qle in Hle. cbn in Hle. lia.
  - cbn in Ht. discriminate.
Qed.

(** *** The theorems at work on the small world *)

(** Thresholds 5 and 15 on the library. *)
Lemma search_by_phash_monotonic_witness :
  exists l l',
    search_by_phash Scenario.library "0000000000000001" 5 50 = Returned l /\
    search_by_phash Scenario.library "0000000000000001" 15 50 = Returned l' /\
    (forall c, In c l -> In c l') /\
    (exists rest, l' = l ++ rest).
Proof.
  destruct (search_by_phash Scenario.library "0000000000000001" 5 50)
    as [l|e] eqn:Hl; [|vm_compute in Hl; discriminate].
  destruct (search_by_phash_monotonic
              Scenario.library "0000000000000001" 5 15 50 l) as [l' H].
  - lia.
  - exact Hl.
  - exists l, l'. tauto.
Defined.

(** The clip of five frames, the two frames of "B" among the first
    three. *)
Lemma identify_video_majority_witness :
  exists r,
    _identify_video Scenario.files Scenario.engine "five.mp4" 5 = Returned r /\
    title r = Some "A"%string /\
    (exists c, confidence r = Some c /\ (c == 90 # 100)%Q) /\
    frames_matched r = 5.
Proof.
  destruct (identify_video_majority
              Scenario.files Scenario.engine "five.mp4" 5
              Scenario.clip_five Scenario.clip_five)
    as [r [best [Hid [_ [_ [_ [Hc [_ [_ [_ [_ Hscenario]]]]]]]]]]].
  - reflexivity.
  - reflexivity.
  - frames_return.
  - vm_compute. discriminate.
  - destruct Hscenario as [Ht [Hs Hf]].
    + let v := eval vm_compute in
                 (matching_frames Scenario.files Scenario.engine
                                  Scenario.clip_five)
      in assert (E : matching_frames Scenario.files Scenario.engine
                                     Scenario.clip_five = v)
        by (vm_compute; reflexivity).
      rewrite E. clear E.
      match goal with
      | |- collected_as [?b1; ?a1; ?b2; ?a2; ?a3] _ =>
          exists [a1; a2; a3; b1; b2]; split
      end.
      * apply Permutation_cons_app with (l1 := [_; _; _]) (l2 := [_]).
        cbn [app]. apply perm_skip.
        apply Permutation_cons_app with (l1 := [_; _]) (l2 := []).
        apply Permutation_refl.
      * unfold scenario_A3_B2.
        repeat first [apply Forall2_nil
                     | apply Forall2_cons; [split; vm_compute; reflexivity|]].
    + exists r. split; [exact Hid|]. split; [exact Ht|].
      split; [eauto | exact Hf].
Defined.

(** The clip with one frame of each title. *)
Lemma identify_video_tie_first_seen_witness :
  exists r w pre post,
    _identify_video Scenario.files Scenario.engine "tie.mp4" 2 = Returned r /\
    title r = Some w /\
    map fm_title (matching_frames Scenario.files Scenario.engine
                                  Scenario.clip_tie) = pre ++ w :: post /\
    ~ In w pre.
Proof.
  destruct (identify_video_tie_first_seen
              Scenario.files Scenario.engine "tie.mp4" 2
              Scenario.clip_tie Scenario.clip_tie)
    as [r [w [pre [post [Hid [Ht [_ [Hsplit [Hnot _]]]]]]]]].
  - reflexivity.
  - reflexivity.
  - frames_return.
  - vm_compute. discriminate.
  - exists r, w, pre, post. auto.
Defined.

(** A clip without a matching frame, a clip and an image that do not
    exist, an image without a match, and the clip sampled at -1
    frames. *)
Lemma identify_not_found_witness :
  not_found (identify Scenario.files Scenario.engine "none.mp4" 3 12) 3 /\
  not_found (identify Scenario.files Scenario.engine "gone.mp4" 3 12) 0 /\
  not_found (identify Scenario.files Scenario.engine "still.png" 3 12) 1 /\
  not_found (identify Scenario.files Scenario.engine "gone.png" 3 12) 0 /\
  identify Scenario.files Scenario.engine "none.mp4" (-1) 12 =
    Raised ValueError.
Proof.
  split; [|split; [|split; [|split]]].
  - apply (proj1 (proj2 (proj2 (identify_not_found
                                  Scenario.files Scenario.engine
                                  "none.mp4" 3 12) eq_refl)))
      with (v := Scenario.clip_none) (reads := Scenario.clip_none).
    + reflexivity.
    + reflexivity.
    + frames_return.
    + reflexivity.
  - apply (proj2 (identify_not_found
                    Scenario.files Scenario.engine "gone.mp4" 3 12)).
    + reflexivity.
    + reflexivity.
  - apply (proj1 (identify_not_found
                    Scenario.files Scenario.engine "still.png" 3 12))
      with (f := ("3333333333333333"%string, [1%Q])).
    + reflexivity.
    + reflexivity.
    + vm_compute. reflexivity.
  - apply (proj1 (identify_not_found
                    Scenario.files Scenario.engine "gone.png" 3 12)).
    + reflexivity.
    + reflexivity.
  - apply (proj2 (proj2 (proj2 (identify_not_found
                                  Scenario.files Scenario.engine
                                  "none.mp4" (-1) 12) eq_refl)))
      with (v := Scenario.clip_none).
    + reflexivity.
    + reflexivity.
Defined.

(* ================================================================== *)
(** ** More about [hamming_distance] *)

Lemma count_differing_sym : forall l1 l2 : list bool,
  count_differing (combine l1 l2) = count_differing (combine l2 l1).
Proof.
  unfold count_differing.
  induction l1 as [|x l1 IH]; intros [|y l2]; try reflexivity.
  cbn [combine filter fst snd]. specialize (IH l2).
  destruct x, y; cbn; congruence.
Qed.

Lemma count_differing_le : forall l : list (bool * bool),
  (count_differing l <= length l)%nat.
Proof. intro l. unfold count_differing. apply filter_length_le. Qed.

Lemma count_differing_zero : forall l1 l2 : list bool,
  length l1 = length l2 ->
  (count_differing (combine l1 l2) = 0%nat <-> l1 = l2).
Proof.
  unfold count_differing.
  induction l1 as [|x l1 IH]; intros [|y l2] Hlen; try discriminate.
  - split; reflexivity.
  - cbn [combine filter fst snd]. injection Hlen as Hlen.
    specialize (IH l2 Hlen).
    destruct x, y; cbn [Bool.eqb negb length]; split; intro H;
      try discriminate; try (f_equal; now apply IH);
      try (apply IH; congruence).
Qed.

Lemma count_differing_triangle : forall l1 l2 l3 : list bool,
  length l1 = length l2 -> length l2 = length l3 ->
  (count_differing (combine l1 l3) <=
   count_differing (combine l1 l2) + count_differing (combine l2 l3))%nat.
Proof.
  unfold count_differing.
  induction l1 as [|x l1 IH]; intros [|y l2] [|z l3] H12 H23;
    try discriminate; [cbn; lia|].
  injection H12 as H12. injection H23 as H23.
  specialize (IH l2 l3 H12 H23).
  cbn [combine filter fst snd].
  destruct x, y, z; cbn [Bool.eqb negb length]; lia.
Qed.

Lemma pos_bits_value : forall p acc,
  fold_left (fun a (b : bool) => (2 * a + (if b then 1 else 0))%N)
            (Hex.pos_bits p acc) 0%N =
  fold_left (fun a (b : bool) => (2 * a + (if b then 1 else 0))%N)
            acc (Npos p).
Proof.
  induction p as [p IH|p IH|]; intro acc; cbn [Hex.pos_bits].
  - rewrite IH. reflexivity.
  - rewrite IH. reflexivity.
  - reflexivity.
Qed.

Lemma bin_value : forall n, bits_value (Hex.bin n) = n.
Proof.
  intros [|p]; [reflexivity|].
  unfold bits_value. cbn [Hex.bin]. now rewrite pos_bits_value.
Qed.

Lemma zfill_value : forall w l, bits_value (Hex.zfill w l) = bits_value l.
Proof.
  intros w l. unfold bits_value, Hex.zfill. rewrite fold_left_app. f_equal.
  induction (w - length l)%nat as [|k IH]; [reflexivity | exact IH].
Qed.

Lemma pos_bits_length : forall p acc,
  length (Hex.pos_bits p acc) = (Pos.size_nat p + length acc)%nat.
Proof.
  induction p as [p IH|p IH|]; intro acc; cbn [Hex.pos_bits Pos.size_nat];
    try rewrite IH; cbn [length]; lia.
Qed.

Lemma size_nat_below : forall p k,
  (Npos p < 2 ^ N.of_nat k)%N -> (Pos.size_nat p <= k)%nat.
Proof.
  induction p as [p IH|p IH|]; intros [|k] H;
    try (cbn in H; lia); cbn [Pos.size_nat].
  - rewrite Nat2N.inj_succ, N.pow_succ_r' in H.
    apply le_n_S, IH. lia.
  - rewrite Nat2N.inj_succ, N.pow_succ_r' in H.
    apply le_n_S, IH. lia.
  - lia.
Qed.

Lemma zfill_64_length : forall n,
  (n < 2 ^ 64)%N -> length (Hex.zfill 64 (Hex.bin n)) = 64%nat.
Proof.
  intros n Hn. unfold Hex.zfill. rewrite length_app, repeat_length.
  assert (length (Hex.bin n) <= 64)%nat; [|lia].
  destruct n as [|p]; [cbn; lia|].
  cbn [Hex.bin]. rewrite pos_bits_length. cbn [length].
  pose proof (size_nat_below p 64 Hn). lia.
Qed.

Lemma digit_below_16 : forall c d, Hex.digit c = Some d -> (d < 16)%N.
Proof.
  intros c d. unfold Hex.digit.
  repeat match goal with
         | |- context [if ?b then _ else _] => destruct b eqn:?
         end; intro H; inversion H; subst;
    repeat match goal with
           | H : (_ && _)%bool = true |- _ =>
               apply andb_true_iff in H; destruct H
           | H : (_ <=? _)%N = true |- _ => apply N.leb_le in H
           end; lia.
Qed.

Lemma digits_below : forall s acc n,
  Hex.digits acc s = Returned n ->
  (n < (acc + 1) * 16 ^ N.of_nat (String.length s))%N.
Proof.
  induction s as [|c s IH]; intros acc n H; cbn [Hex.digits] in H.
  - inversion H; subst. cbn. lia.
  - destruct (Hex.digit c) as [d|] eqn:Hd; [|discriminate].
    apply IH in H. apply digit_below_16 in Hd.
    cbn [String.length]. rewrite Nat2N.inj_succ, N.pow_succ_r'.
    nia.
Qed.

Lemma int16_below : forall s n,
  Hex.int16 s = Returned n -> (String.length s <= 16)%nat ->
  (n < 2 ^ 64)%N.
Proof.
  intros s n H Hlen.
  assert (Hd : Hex.digits 0%N s = Returned n).
  { destruct s; [discriminate | exact H]. }
  apply digits_below in Hd.
  assert (16 ^ N.of_nat (String.length s) <= 16 ^ 16)%N.
  { apply N.pow_le_mono_r; lia. }
  change (2 ^ 64)%N with (16 ^ 16)%N. lia.
Qed.

Lemma int16_raises_ValueError : forall s e,
  Hex.int16 s = Raised e -> e = ValueError.
Proof.
  intros s e. unfold Hex.int16. destruct s as [|c s]; [congruence|].
  generalize 0%N. generalize (String c s). clear.
  induction s as [|c s IH]; intros acc H; cbn [Hex.digits] in H.
  - discriminate.
  - destruct (Hex.digit c); [eapply IH; eassumption | congruence].
Qed.

(** X1.  The Hamming distance does not depend on the order of its two
    arguments, also when it raises. *)
Theorem hamming_distance_sym : forall hash1 hash2,
  hamming_distance hash1 hash2 = hamming_distance hash2 hash1.
Proof.
  intros a b. unfold hamming_distance.
  destruct (Hex.int16 a) as [n1|e1] eqn:Ha,
           (Hex.int16 b) as [n2|e2] eqn:Hb; cbn [bind].
  - f_equal. apply count_differing_sym.
  - reflexivity.
  - reflexivity.
  - apply int16_raises_ValueError in Ha, Hb. congruence.
Qed.

(** X2.  For two hashes whose values fit in 64 bits the distance is 0
    exactly when the values are equal. *)
Theorem hamming_distance_zero_iff : forall hash1 hash2 n1 n2,
  Hex.int16 hash1 = Returned n1 ->
  Hex.int16 hash2 = Returned n2 ->
  (n1 < 2 ^ 64)%N -> (n2 < 2 ^ 64)%N ->
  (hamming_distance hash1 hash2 = Returned 0%nat <-> n1 = n2).
Proof.
  intros a b n1 n2 Ha Hb H1 H2. unfold hamming_distance.
  rewrite Ha, Hb. cbn [bind].
  pose proof (zfill_64_length n1 H1) as L1.
  pose proof (zfill_64_length n2 H2) as L2.
  split.
  - intro H. inversion H as [H0].
    apply count_differing_zero in H0; [|congruence].
    apply (f_equal bits_value) in H0.
    now rewrite !zfill_value, !bin_value in H0.
  - intros ->. f_equal. apply count_differing_zero; congruence.
Qed.

Lemma hamming_distance_at_most_64 : forall a b n1 n2,
  Hex.int16 a = Returned n1 -> Hex.int16 b = Returned n2 ->
  (String.length a <= 16)%nat ->
  exists dist, hamming_distance a b = Returned dist /\ (dist <= 64)%nat.
Proof.
  intros a b n1 n2 Ha Hb La. unfold hamming_distance.
  rewrite Ha, Hb. cbn [bind]. eexists. split; [reflexivity|].
  etransitivity; [apply count_differing_le|].
  rewrite length_combine.
  rewrite (zfill_64_length n1 (int16_below a n1 Ha La)). lia.
Qed.

(** X3.  On hexadecimal texts of at most 16 digits, which is what the
    extractor produces, the distance is returned and is at most 64. *)
Theorem hamming_distance_bounded : forall hash1 hash2,
  hex_text hash1 -> hex_text hash2 ->
  (String.length hash1 <= 16)%nat -> (String.length hash2 <= 16)%nat ->
  exists dist, hamming_distance hash1 hash2 = Returned dist /\
               (dist <= 64)%nat.
Proof.
  intros a b [n1 Ha] [n2 Hb] La Lb.
  eapply hamming_distance_at_most_64; eassumption.
Qed.

(** X4.  On such texts the distance satisfies the triangle inequality. *)
Theorem hamming_distance_triangle : forall hash1 hash2 hash3 d12 d23 d13,
  (String.length hash1 <= 16)%nat -> (String.length hash2 <= 16)%nat ->
  (String.length hash3 <= 16)%nat ->
  hamming_distance hash1 hash2 = Returned d12 ->
  hamming_distance hash2 hash3 = Returned d23 ->
  hamming_distance hash1 hash3 = Returned d13 ->
  (d13 <= d12 + d23)%nat.
Proof.
  intros a b c d12 d23 d13 La Lb Lc. unfold hamming_distance.
  destruct (Hex.int16 a) as [n1|] eqn:Ha; [|discriminate].
  destruct (Hex.int16 b) as [n2|] eqn:Hb; [|discriminate].
  destruct (Hex.int16 c) as [n3|] eqn:Hc; [|discriminate].
  cbn [bind]. intros H12 H23 H13.
  inversion H12; inversion H23; inversion H13; subst.
  pose proof (zfill_64_length n1 (int16_below a n1 Ha La)).
  pose proof (zfill_64_length n2 (int16_below b n2 Hb Lb)).
  pose proof (zfill_64_length n3 (int16_below c n3 Hc Lc)).
  apply count_differing_triangle; congruence.
Qed.

Lemma hamming_distance_zero_iff_witness :
  hamming_distance "0F" "f" = Returned 0%nat <-> 15%N = 15%N.
Proof.
  apply (hamming_distance_zero_iff "0F" "f" 15 15);
    [reflexivity | reflexivity | reflexivity | reflexivity].
Defined.

Lemma hamming_distance_bounded_witness :
  exists dist,
    hamming_distance "0000000000000000" "ffffffffffffffff" = Returned dist /\
    (dist <= 64)%nat.
Proof.
  apply hamming_distance_bounded;
    [returned_by_evaluation | returned_by_evaluation | cbn; lia | cbn; lia].
Defined.

Lemma hamming_distance_triangle_witness :
  exists d12 d23 d13,
    hamming_distance "00000000ffffffff" "ffffffffffffffff" = Returned d12 /\
    hamming_distance "ffffffffffffffff" "0000000000000000" = Returned d23 /\
    hamming_distance "00000000ffffffff" "0000000000000000" = Returned d13 /\
    (d13 <= d12 + d23)%nat.
Proof.
  exists 32%nat, 64%nat, 32%nat.
  split; [reflexivity|]. split; [reflexivity|]. split; [reflexivity|].
  apply (hamming_distance_triangle
           "00000000ffffffff" "ffffffffffffffff" "0000000000000000");
    try (cbn; lia); reflexivity.
Defined.

(* ================================================================== *)
(** ** More about [search_by_phash] *)

Lemma hamming_distance_raises_ValueError : forall a b e,
  hamming_distance a b = Raised e -> e = ValueError.
Proof.
  intros a b e. unfold hamming_distance.
  destruct (Hex.int16 a) as [n1|e1] eqn:Ha; cbn [bind].
  - destruct (Hex.int16 b) as [n2|e2] eqn:Hb; cbn [bind]; [discriminate|].
    intro H. inversion H; subst. eapply int16_raises_ValueError; eassumption.
  - intro H. inversion H; subst. eapply int16_raises_ValueError; eassumption.
Qed.

Lemma hamming_distance_returns_iff : forall a b,
  (exists dist, hamming_distance a b = Returned dist) <->
  hex_text a /\ hex_text b.
Proof.
  intros a b. split.
  - intros [dist H]. unfold hamming_distance in H.
    destruct (Hex.int16 a) as [n1|] eqn:Ha; [|discriminate].
    destruct (Hex.int16 b) as [n2|] eqn:Hb; [|discriminate].
    split; eexists; eassumption.
  - intros [Ha Hb]. now apply hex_text_readable.
Qed.

Lemma hamming_distance_self : forall a,
  hex_text a -> hamming_distance a a = Returned 0%nat.
Proof.
  intros a [n Ha]. unfold hamming_distance. rewrite Ha. cbn [bind]. f_equal.
  now apply count_differing_zero.
Qed.

Lemma scan_rows_raises_ValueError : forall q t rows e,
  scan_rows q t rows = Raised e -> e = ValueError.
Proof.
  intros q t rows e. induction rows as [|c rows IH]; cbn [scan_rows].
  - discriminate.
  - destruct (hamming_distance q (c_phash c)) as [dist|e'] eqn:Hd;
      cbn [bind].
    + destruct (scan_rows q t rows) as [rs|e'']; cbn [bind];
        [discriminate|].
      intro H. inversion H; subst. now apply IH.
    + intro H. inversion H; subst.
      eapply hamming_distance_raises_ValueError; eassumption.
Qed.

Lemma firstn_In {A} (n : nat) (l : list A) (x : A) :
  In x (firstn n l) -> In x l.
Proof.
  intro H. rewrite <- (firstn_skipn n l). apply in_or_app. now left.
Qed.

Lemma slice_to_incl {A} (l : list A) (stop : Z) : incl (slice_to l stop) l.
Proof.
  unfold slice_to. intros x Hx.
  destruct (0 <=? stop); eapply firstn_In; eassumption.
Qed.

Lemma slice_to_length {A} (l : list A) (stop : Z) :
  (length (slice_to l stop) <= length l)%nat /\
  (0 <= stop -> (length (slice_to l stop) <= Z.to_nat stop)%nat).
Proof.
  unfold slice_to. split.
  - destruct (0 <=? stop); rewrite length_firstn; lia.
  - intro H. apply Z.leb_le in H. rewrite H. rewrite length_firstn. lia.
Qed.

Lemma StronglySorted_firstn {A} (R : A -> A -> Prop) : forall n l,
  StronglySorted R l -> StronglySorted R (firstn n l).
Proof.
  induction n as [|n IH]; intros l H; [constructor|].
  destruct l as [|x l]; [constructor|].
  inversion H as [|? ? Hs Hall]; subst. cbn [firstn].
  constructor; [now apply IH|].
  rewrite Forall_forall in *. intros y Hy. apply Hall.
  eapply firstn_In; eassumption.
Qed.

Lemma StronglySorted_slice_to {A} (R : A -> A -> Prop) (l : list A) stop :
  StronglySorted R l -> StronglySorted R (slice_to l stop).
Proof.
  intro H. unfold slice_to.
  destruct (0 <=? stop); now apply StronglySorted_firstn.
Qed.

(** X5.  A search returns exactly when [hamming_distance] returns for
    the query against every stored hash, whatever the threshold and the
    limit: one stored hash that cannot be compared makes every search
    raise, and on an empty store the query is never read.  Whenever a
    search raises, it raises [ValueError]. *)
Theorem search_by_phash_returns_iff :
  forall (d : database) (query_hash : string) (max_distance limit : Z),
    ((exists l,
         search_by_phash d query_hash max_distance limit = Returned l) <->
     Forall (fun r => exists dist,
                 hamming_distance query_hash (f_phash r) = Returned dist)
            (fingerprints d)) /\
    (fingerprints d = [] ->
     search_by_phash d query_hash max_distance limit = Returned []) /\
    (forall e,
        search_by_phash d query_hash max_distance limit = Raised e ->
        e = ValueError).
Proof.
  intros d q t limit. split; [split|split].
  - intros [l Hl]. apply search_by_phash_returned in Hl.
    unfold stored in Hl. rewrite Forall_map in Hl. exact Hl.
  - intro Hall. eexists. apply search_by_phash_total.
    unfold stored. rewrite Forall_map. exact Hall.
  - intro Hempty. unfold search_by_phash. rewrite Hempty. cbn.
    unfold slice_to. destruct (0 <=? limit); now rewrite firstn_nil.
  - intros e H. pose proof H as H0.
    unfold search_by_phash in H. fold (stored d) in H.
    destruct (scan_rows q t (stored d)) as [rs|e'] eqn:Hs; cbn [bind] in H.
    + apply scan_rows_returned in Hs.
      rewrite (search_by_phash_total q d t limit Hs) in H0. discriminate.
    + inversion H; subst. eapply scan_rows_raises_ValueError; eassumption.
Qed.

Lemma filter_all {A} (keep : A -> bool) (l : list A) :
  (forall x, In x l -> keep x = true) -> filter keep l = l.
Proof.
  induction l as [|x l IH]; intro H; [reflexivity|].
  cbn [filter]. rewrite (H x (or_introl eq_refl)). f_equal.
  apply IH. intros y Hy. apply H. now right.
Qed.

Lemma ranked_within_length : forall q t rows,
  (length (ranked_within q t rows) <= length rows)%nat.
Proof.
  intros. unfold ranked_within. rewrite stable_sort_length.
  apply filter_length_le.
Qed.

(** X6.  Whatever the store and the limit, a search that returns gives
    only stored fingerprints within the budget, in non-decreasing order of
    distance, no more of them than the store holds and, for a limit that
    is not negative, no more than the limit. *)
Theorem search_by_phash_sound :
  forall (d : database) (query_hash : string) (max_distance limit : Z)
         (l : list candidate),
    search_by_phash d query_hash max_distance limit = Returned l ->
    (forall c, In c l ->
               In c (stored d) /\ within_budget query_hash max_distance c) /\
    (length l <= length (fingerprints d))%nat /\
    (0 <= limit -> (length l <= Z.to_nat limit)%nat) /\
    StronglySorted
      (fun a b => forall da db,
           hamming_distance query_hash (c_phash a) = Returned da ->
           hamming_distance query_hash (c_phash b) = Returned db ->
           (da <= db)%nat) l.
Proof.
  intros d q t limit l Hl.
  pose proof (search_by_phash_returned q d t limit l Hl) as Hread.
  rewrite (search_by_phash_total q d t limit Hread) in Hl.
  inversion Hl as [El]; clear Hl.
  split; [|split; [|split]].
  - intros c Hc. apply slice_to_incl in Hc.
    apply ranked_within_In in Hc. destruct Hc as [Hc Hb].
    split; [exact Hc|]. apply within_budget_in_budget; [|exact Hb].
    rewrite Forall_forall in Hread. exact (Hread c Hc).
  - pose proof (proj1 (slice_to_length (ranked_within q t (stored d)) limit)).
    pose proof (ranked_within_length q t (stored d)).
    unfold stored in *. rewrite length_map in *. lia.
  - apply slice_to_length.
  - apply StronglySorted_slice_to.
    apply (StronglySorted_weaken (fun a b => distance_le q a b = true)).
    + intros a b Hab da db Ha Hb. unfold distance_le in Hab.
      apply Nat.leb_le in Hab.
      now rewrite (readable_distance q a da Ha),
                  (readable_distance q b db Hb) in Hab.
    + apply stable_sort_sorted;
        [apply distance_le_total | apply distance_le_trans].
Qed.

(** X7.  A search for the hash of a stored fingerprint, with a threshold
    that is not negative and a positive limit, returns a list that starts
    with a fingerprint at distance 0. *)
Theorem search_by_phash_finds_stored_hash :
  forall (d : database) (r : fingerprint_row) (max_distance limit : Z)
         (l : list candidate),
    In r (fingerprints d) ->
    0 <= max_distance -> 0 < limit ->
    search_by_phash d (f_phash r) max_distance limit = Returned l ->
    exists c rest,
      l = c :: rest /\
      hamming_distance (f_phash r) (c_phash c) = Returned 0%nat.
Proof.
  intros d r t limit l Hr Ht Hlimit Hl. set (q := f_phash r) in *.
  pose proof (search_by_phash_returned q d t limit l Hl) as Hread.
  rewrite (search_by_phash_total q d t limit Hread) in Hl.
  inversion Hl as [El]; clear Hl.
  assert (Hx : In (select_candidate r) (stored d)) by now apply in_map.
  assert (Hself : hamming_distance q (c_phash (select_candidate r))
                  = Returned 0%nat).
  { rewrite Forall_forall in Hread.
    apply hamming_distance_self.
    exact (proj1 (proj1 (hamming_distance_returns_iff q q)
                        (Hread _ Hx))). }
  assert (Hin : In (select_candidate r) (ranked_within q t (stored d))).
  { apply ranked_within_In. split; [exact Hx|]. unfold in_budget.
    rewrite (readable_distance q _ _ Hself). apply Z.leb_le. lia. }
  pose proof (stable_sort_sorted (distance_le q) (distance_le_total q)
                (distance_le_trans q)
                (filter (in_budget q t) (stored d))) as Hsorted.
  fold (ranked_within q t (stored d)) in Hsorted.
  destruct (ranked_within q t (stored d)) as [|c ranked] eqn:Hranked;
    [destruct Hin|].
  exists c, (firstn (Z.to_nat limit - 1) ranked). split.
  - unfold slice_to. destruct (Z.leb_spec 0 limit) as [_|C]; [|lia].
    replace (Z.to_nat limit) with (S (Z.to_nat limit - 1)) at 1 by lia.
    reflexivity.
  - assert (Hc : In c (stored d)).
    { assert (I : In c (ranked_within q t (stored d)))
        by (rewrite Hranked; now left).
      now apply ranked_within_In in I. }
    rewrite Forall_forall in Hread. destruct (Hread c Hc) as [dist Hd].
    rewrite Hd. f_equal.
    destruct Hin as [E|Hin].
    + subst c. rewrite Hself in Hd. now inversion Hd.
    + inversion Hsorted as [|? ? _ Hall]; subst.
      rewrite Forall_forall in Hall. specialize (Hall _ Hin).
      unfold distance_le in Hall. apply Nat.leb_le in Hall.
      rewrite (readable_distance q c dist Hd),
              (readable_distance q _ _ Hself) in Hall. lia.
Qed.

(** X8.  A negative threshold lets no fingerprint through; a threshold of
    64 or more lets every fingerprint through when the hashes are
    hexadecimal texts of at most 16 digits. *)
Theorem search_by_phash_budget_extremes :
  forall (d : database) (query_hash : string) (max_distance limit : Z),
    (max_distance < 0 ->
     forall l,
       search_by_phash d query_hash max_distance limit = Returned l ->
       l = []) /\
    (64 <= max_distance ->
     hex_text query_hash -> (String.length query_hash <= 16)%nat ->
     Forall (fun r => hex_text (f_phash r)) (fingerprints d) ->
     exists ranked,
       Permutation ranked (stored d) /\
       search_by_phash d query_hash max_distance limit =
       Returned (slice_to ranked limit)).
Proof.
  intros d q t limit. split.
  - intros Ht l Hl.
    pose proof (search_by_phash_returned q d t limit l Hl) as Hread.
    rewrite (search_by_phash_total q d t limit Hread) in Hl.
    inversion Hl as [El]; clear Hl.
    unfold ranked_within. rewrite filter_none.
    + cbn. unfold slice_to. destruct (0 <=? limit); now rewrite firstn_nil.
    + intros c _. unfold in_budget. apply Z.leb_gt. lia.
  - intros Ht [nq Hq] Lq Hrows.
    pose proof (stored_readable d q (ex_intro _ nq Hq) Hrows) as Hread.
    exists (ranked_within q t (stored d)). split.
    + unfold ranked_within. rewrite stable_sort_perm.
      rewrite filter_all; [reflexivity|].
      intros c Hc. unfold in_budget. apply Z.leb_le.
      unfold stored in Hc. apply in_map_iff in Hc.
      destruct Hc as [r [<- Hr]]. rewrite Forall_forall in Hrows.
      destruct (Hrows r Hr) as [nr Hnr].
      destruct (hamming_distance_at_most_64 q (f_phash r) nq nr Hq Hnr Lq)
        as [dist [Hd Hle]].
      cbn [select_candidate c_phash] in *.
      rewrite (readable_distance q (select_candidate r) dist Hd). lia.
    + now apply search_by_phash_total.
Qed.

(* ================================================================== *)
(** ** More about Stage 2 and the frame recognizers *)

Lemma for_each_In {A B} (f : A -> outcome B) : forall l ys,
  for_each f l = Returned ys ->
  forall y, In y ys -> exists x, In x l /\ f x = Returned y.
Proof.
  induction l as [|x l IH]; cbn [for_each]; intros ys H y Hy.
  - inversion H; subst. destruct Hy.
  - destruct (f x) as [y0|e] eqn:Hx; cbn [bind] in H; [|discriminate].
    destruct (for_each f l) as [ys'|e] eqn:Hl; cbn [bind] in H;
      [|discriminate].
    inversion H; subst. destruct Hy as [<-|Hy].
    + exists x. split; [now left | exact Hx].
    + destruct (IH ys' eq_refl y Hy) as [x' [Hin Hx']].
      exists x'. split; [now right | exact Hx'].
Qed.

Lemma filter_head_split {A} (keep : A -> bool) : forall l x rest,
  filter keep l = x :: rest ->
  exists pre post,
    l = pre ++ x :: post /\ keep x = true /\
    Forall (fun y => keep y = false) pre.
Proof.
  induction l as [|y l IH]; intros x rest H; [discriminate|].
  cbn [filter] in H. destruct (keep y) eqn:Ky.
  - inversion H; subst. exists [], l. repeat split; [exact Ky | constructor].
  - destruct (IH x rest H) as [pre [post [-> [Kx Hpre]]]].
    exists (y :: pre), post. repeat split; [exact Kx | now constructor].
Qed.

Lemma StronglySorted_app_tail {A} (R : A -> A -> Prop) : forall pre x post,
  StronglySorted R (pre ++ x :: post) -> Forall (R x) post.
Proof.
  induction pre as [|y pre IH]; intros x post H; cbn [app] in H;
    inversion H; subst; [assumption | now apply IH].
Qed.

Section FrameFacts.

Variable X : externals.

Lemma score_candidate_returned : forall d q c m,
  score_candidate X d q c = Returned m ->
  exists dist row,
    cosine X q (c_cnn_blob c) = Returned dist /\
    select_media d (c_media_id c) = Some row /\
    m = {| fm_media_id := c_media_id c; fm_title := m_title row;
           fm_timestamp := c_timestamp c;
           fm_similarity := (1 - dist)%Q |}.
Proof.
  intros d q c m. unfold score_candidate, fetch_title.
  destruct (cosine X q (c_cnn_blob c)) as [dist|e]; cbn [bind];
    [|discriminate].
  destruct (select_media d (c_media_id c)) as [row|]; cbn [bind];
    [|discriminate].
  intro H. inversion H. eauto.
Qed.

(** What [_match_frame] tells when it returns. *)
Lemma match_frame_returned : forall self f res,
  _match_frame X self f = Returned res ->
  exists cands,
    search_by_phash (db self) (compute_phash X f) (phash_threshold self) 50
      = Returned cands /\
    ((cands = [] /\ res = None) \/
     exists scored,
       for_each (score_candidate X (db self) (compute_cnn_features X f))
                cands = Returned scored /\
       res = hd_error
               (valid_matches (cnn_threshold self)
                  (stable_sort
                     (fun a b => Qgeb (fm_similarity a) (fm_similarity b))
                     scored))).
Proof.
  intros self f res H. unfold _match_frame in H.
  destruct (search_by_phash (db self) (compute_phash X f)
                            (phash_threshold self) 50) as [cands|e];
    cbn [bind] in H; [|discriminate].
  exists cands. split; [reflexivity|].
  destruct cands as [|c cands]; [left; split; congruence|]. right.
  destruct (verify_with_cnn X (db self) (c :: cands)
                            (compute_cnn_features X f)) as [out|e] eqn:Hv;
    cbn [bind] in H; [|discriminate].
  apply verify_with_cnn_returned in Hv. destruct Hv as [scored [Hs ->]].
  exists scored. split; [exact Hs|].
  destruct (valid_matches _ _); inversion H; reflexivity.
Qed.

Lemma match_frame_some : forall self f m,
  _match_frame X self f = Returned (Some m) ->
  exists cands scored,
    search_by_phash (db self) (compute_phash X f) (phash_threshold self) 50
      = Returned cands /\
    for_each (score_candidate X (db self) (compute_cnn_features X f)) cands
      = Returned scored /\
    In m scored /\
    (cnn_threshold self <= fm_similarity m)%Q /\
    (forall m', In m' scored -> (fm_similarity m' <= fm_similarity m)%Q).
Proof.
  intros self f m H. apply match_frame_returned in H.
  destruct H as [cands [Hs [[_ C] | [scored [Hsc Hres]]]]]; [discriminate|].
  exists cands, scored. split; [exact Hs|]. split; [exact Hsc|].
  set (ge := fun a b : frame_match =>
               Qgeb (fm_similarity a) (fm_similarity b)) in *.
  unfold valid_matches in Hres.
  destruct (filter (fun m => Qgeb (fm_similarity m) (cnn_threshold self))
                   (stable_sort ge scored)) as [|x rest] eqn:Hf;
    [discriminate|].
  cbn in Hres. inversion Hres; subst x; clear Hres.
  destruct (filter_head_split _ _ _ _ Hf) as [pre [post [Hl [Km Hpre]]]].
  apply Qgeb_true in Km.
  assert (Hin : In m (stable_sort ge scored)).
  { rewrite Hl. apply in_or_app. right. now left. }
  split; [now apply stable_sort_In in Hin|]. split; [exact Km|].
  intros m' Hm'. apply (stable_sort_In ge) in Hm'. rewrite Hl in Hm'.
  apply in_app_or in Hm'. destruct Hm' as [Hm'|[<-|Hm']].
  - rewrite Forall_forall in Hpre. specialize (Hpre m' Hm').
    unfold Qgeb in Hpre.
    apply Qlt_le_weak. eapply Qlt_le_trans; [|exact Km].
    apply Qnot_le_lt. intro C. apply Qle_bool_iff in C. congruence.
  - apply Qle_refl.
  - pose proof (stable_sort_sorted ge similarity_ge_total
                  similarity_ge_trans scored) as Hsorted.
    rewrite Hl in Hsorted. apply StronglySorted_app_tail in Hsorted.
    rewrite Forall_forall in Hsorted. specialize (Hsorted m' Hm').
    now apply Qgeb_true in Hsorted.
Qed.

(** A match names a media row of the store, under its title. *)
Lemma match_frame_title : forall self f m,
  _match_frame X self f = Returned (Some m) ->
  fetch_title (db self) (fm_media_id m) = Returned (fm_title m).
Proof.
  intros self f m H. apply match_frame_some in H.
  destruct H as [cands [scored [_ [Hsc [Hin _]]]]].
  destruct (for_each_In _ _ _ Hsc m Hin) as [c [_ Hc]].
  apply score_candidate_returned in Hc.
  destruct Hc as [dist [row [_ [Hrow ->]]]]. cbn.
  unfold fetch_title. now rewrite Hrow.
Qed.

(** X9.  When the similarity of every candidate can be computed and the
    media row of some candidate is missing, [verify_with_cnn] raises
    [TypeError]. *)
Theorem verify_with_cnn_missing_media :
  forall (d : database) (candidates : list candidate)
         (query_features : features),
    Forall (fun c => exists dist,
                cosine X query_features (c_cnn_blob c) = Returned dist)
           candidates ->
    Exists (fun c => select_media d (c_media_id c) = None) candidates ->
    verify_with_cnn X d candidates query_features = Raised TypeError.
Proof.
  intros d cands q Hcos Hmiss. unfold verify_with_cnn.
  assert (H : for_each (score_candidate X d q) cands = Raised TypeError).
  { induction Hcos as [|c cands [dist Hd] _ IH]; [inversion Hmiss|].
    cbn [for_each]. unfold score_candidate at 1, fetch_title. rewrite Hd.
    cbn [bind].
    destruct (select_media d (c_media_id c)) as [row|] eqn:Hrow;
      cbn [bind]; [|reflexivity].
    inversion Hmiss as [? ? C|? ? Hrest]; subst; [congruence|].
    now rewrite (IH Hrest). }
  now rewrite H.
Qed.


(** X12.  [recognize_frame] and [_match_frame] agree: with the same
    store and thresholds they raise alike and return the same match or no
    match; and a report of [recognize_frame] counts at least one and at
    most 50 candidates, of which at least one and at most all pass
    Stage 2. *)
Theorem recognize_frame_agrees :
  forall (d : database) (f : frame X) (pt : Z) (ct : Q),
    _match_frame X {| db := d; phash_threshold := pt; cnn_threshold := ct |}
                 f =
    (rep <- recognize_frame X d f pt ct ;;
     Returned (option_map report_match rep)) /\
    (forall rep,
        recognize_frame X d f pt ct = Returned (Some rep) ->
        1 <= fr_candidates_stage2 rep /\
        fr_candidates_stage2 rep <= fr_candidates_stage1 rep /\
        fr_candidates_stage1 rep <= 50).
Proof.
  intros d f pt ct. split.
  - unfold _match_frame, recognize_frame. cbn [db phash_threshold
                                                  cnn_threshold].
    destruct (search_by_phash d (compute_phash X f) pt 50) as [cands|e];
      cbn [bind]; [|reflexivity].
    destruct cands as [|c cands]; [reflexivity|].
    destruct (verify_with_cnn X d (c :: cands) (compute_cnn_features X f))
      as [out|e]; cbn [bind]; [|reflexivity].
    destruct (valid_matches ct out) as [|[mid t ts sim] rest];
      reflexivity.
  - intros rep H. unfold recognize_frame in H.
    destruct (search_by_phash d (compute_phash X f) pt 50) as [cands|e]
      eqn:Hs; cbn [bind] in H; [|discriminate].
    assert (L3 : (length cands <= 50)%nat).
    { pose proof (search_by_phash_returned _ _ _ _ _ Hs) as Hread.
      rewrite (search_by_phash_total _ _ _ _ Hread) in Hs.
      inversion Hs as [Es].
      exact (proj2 (slice_to_length
                      (ranked_within (compute_phash X f) pt (stored d))
                      50) ltac:(lia)). }
    destruct cands as [|c cands']; [discriminate|].
    destruct (verify_with_cnn X d (c :: cands') (compute_cnn_features X f))
      as [out|e] eqn:Hv; cbn [bind] in H; [|discriminate].
    destruct (valid_matches ct out) as [|m rest] eqn:Hvalid;
      [discriminate|].
    inversion H; subst rep; clear H.
    cbn [fr_candidates_stage1 fr_candidates_stage2].
    apply verify_with_cnn_returned in Hv. destruct Hv as [scored [Hsc ->]].
    pose proof (for_each_length _ _ _ Hsc) as L1.
    pose proof (filter_length_le
                  (fun m => Qgeb (fm_similarity m) ct)
                  (stable_sort
                     (fun a b => Qgeb (fm_similarity a) (fm_similarity b))
                     scored)) as L2.
    unfold valid_matches in Hvalid. rewrite Hvalid in L2.
    rewrite stable_sort_length in L2.
    cbn [length] in *. lia.
Qed.

End FrameFacts.

(** X13.  A higher similarity never gets a weaker label. *)
Theorem get_match_type_monotone : forall s1 s2 : Q,
  (s1 <= s2)%Q ->
  (strength (_get_match_type s1) <= strength (_get_match_type s2))%nat.
Proof.
  intros s1 s2 H. unfold _get_match_type, Qgeb.
  repeat match goal with
         | |- context [Qle_bool ?c ?s] =>
             let E := fresh "E" in destruct (Qle_bool c s) eqn:E
         end; cbn [strength]; try lia;
    repeat match goal with
           | E : Qle_bool _ _ = true |- _ => apply Qle_bool_iff in E
           end;
    exfalso;
    match goal with
    | E1 : (?c <= s1)%Q, E2 : Qle_bool ?c s2 = false |- _ =>
        assert (C : Qle_bool c s2 = true)
          by (apply Qle_bool_iff; eapply Qle_trans; eassumption);
        congruence
    end.
Qed.

(* ================================================================== *)
(** ** More about [identify] *)

Section IdentifyFacts.

Variable X : externals.

Lemma match_frames_inv : forall self reads acc s st,
  match_frames X self reads acc s = Returned st ->
  no_frame_raises X self reads.
Proof.
  intros self reads. induction reads as [|r reads IH]; intros acc s st H.
  - constructor.
  - destruct r as [f|]; cbn [match_frames] in H.
    + destruct (_match_frame X self f) as [m|e] eqn:Hm; cbn [bind] in H;
        [|discriminate].
      constructor.
      * intros f' E. inversion E; subst f'. eauto.
      * destruct m; eapply IH; eassumption.
    + constructor; [intros f' E; discriminate | eapply IH; eassumption].
Qed.

Lemma match_frames_raises_with : forall self before f after acc s e,
  no_frame_raises X self before ->
  _match_frame X self f = Raised e ->
  match_frames X self (before ++ Some f :: after) acc s = Raised e.
Proof.
  intros self before. induction before as [|r before IH];
    intros f after acc s e Hok Hf.
  - cbn [app match_frames]. now rewrite Hf.
  - inversion Hok as [|? ? Hr Hrest]; subst.
    destruct r as [g|]; cbn [app match_frames].
    + destruct (Hr g eq_refl) as [m Hm]. rewrite Hm. cbn [bind].
      destruct m; now apply IH.
    + now apply IH.
Qed.

Lemma match_frames_only_reads : forall self reads acc s,
  match_frames X self reads acc s =
  match_frames X self (filter is_read reads) acc s.
Proof.
  intros self reads. induction reads as [|r reads IH]; intros acc s;
    [reflexivity|].
  destruct r as [f|]; cbn [filter is_read match_frames].
  - destruct (_match_frame X self f) as [[m|]|e]; cbn [bind];
      [apply IH | apply IH | reflexivity].
  - apply IH.
Qed.

Lemma matching_frames_In : forall self reads m,
  In m (matching_frames X self reads) ->
  exists f, In (Some f) reads /\ _match_frame X self f = Returned (Some m).
Proof.
  intros self reads m. induction reads as [|r reads IH]; [intros []|].
  destruct r as [f|]; cbn [matching_frames].
  - destruct (_match_frame X self f) as [[m0|]|e] eqn:Hm.
    + intros [<-|H].
      * exists f. split; [now left | exact Hm].
      * destruct (IH H) as [g [Hg Hmg]]. exists g. split; [now right|auto].
    + intro H. destruct (IH H) as [g [Hg Hmg]].
      exists g. split; [now right | auto].
    + intro H. destruct (IH H) as [g [Hg Hmg]].
      exists g. split; [now right | auto].
  - intro H. destruct (IH H) as [g [Hg Hmg]].
    exists g. split; [now right | auto].
Qed.

Lemma matching_frames_length : forall self reads,
  (length (matching_frames X self reads) <= length reads)%nat.
Proof.
  intros self reads. rewrite matching_frames_count.
  apply filter_length_le.
Qed.

(** What [_identify_video] tells when it returns on a clip that opens. *)
Lemma identify_video_returned : forall self path n v reads r,
  VideoCapture X path = Some v ->
  read_samples X v n = Returned reads ->
  _identify_video X self path n = Returned r ->
  no_frame_raises X self reads /\
  frames_matched r = Z.of_nat (length (matching_frames X self reads)) /\
  ((matching_frames X self reads = [] /\ r = no_match n 0) \/
   exists best,
     In best (matching_frames X self reads) /\
     matched r = true /\
     title r = Some (fm_title best) /\
     year r = _get_year self (fm_media_id best) /\
     timestamp r = Some (fm_timestamp best) /\
     confidence r = Some (fm_similarity best) /\
     match_type r = _get_match_type (fm_similarity best) /\
     stage1_candidates r = 0 /\
     stage2_candidates r = frames_matched r /\
     frames_sampled r = n).
Proof.
  intros self path n v reads r Hv Hr H.
  assert (Hok : no_frame_raises X self reads).
  { unfold _identify_video in H. rewrite Hv, Hr in H. cbn [bind] in H.
    destruct (match_frames X self reads [] 0) as [st|e] eqn:Hm;
      [|discriminate].
    eapply match_frames_inv; eassumption. }
  split; [exact Hok|].
  destruct (matching_frames X self reads) as [|m0 ms0] eqn:Hms.
  - rewrite (identify_video_no_match X self path n v reads Hv Hr Hok Hms)
      in H.
    inversion H; subst r. split; [reflexivity|]. left. auto.
  - assert (Hne : matching_frames X self reads <> [])
      by (rewrite Hms; discriminate).
    destruct (identify_video_matched X self path n v reads Hv Hr Hok Hne)
      as [w [cnt [best [r' [_ [Hbest [Hid Hfields]]]]]]].
    rewrite Hid in H. inversion H; subst r'; clear H.
    rewrite Hms in *.
    destruct Hfields as [F1 [F2 [F3 [F4 [F5 [F6 [F7 [F8 [F9 F10]]]]]]]]].
    split; [exact F10|]. right. exists best.
    assert (Hin : In best (m0 :: ms0)).
    { destruct (filter (fun m => String.eqb (fm_title m) w) (m0 :: ms0))
        as [|x rest] eqn:Hf; [discriminate|].
      destruct (max_by_similarity x rest) as [b [p [q [Hb [Hs _]]]]].
      assert (Eb : b = best) by congruence. subst b.
      assert (I : In best (x :: rest)).
      { rewrite Hs. apply in_or_app. right. now left. }
      rewrite <- Hf in I. now apply filter_In in I. }
    repeat (split; [assumption|]).
    split; [congruence | exact F9].
Qed.

(** X14.  Every result that [identify] returns carries the measured time
    and 0 Stage-1 candidates; a result that is not matched has no title,
    year, timestamp or confidence, the label [NONE] and no matching frame;
    a matched result is built from one match of a frame: it has the title,
    timestamp and similarity of that match, the year of its media row,
    the title is the one stored for the media row, and at least one frame
    matched. *)
Theorem identify_result_shape :
  forall (self : VisualRecognizer) (path : string) (n : Z) (elapsed_ms : Q)
         (r : RecognitionResult),
    identify X self path n elapsed_ms = Returned r ->
    processing_time_ms r = Some elapsed_ms /\
    stage1_candidates r = 0 /\
    (matched r = false ->
     title r = None /\ year r = None /\ timestamp r = None /\
     confidence r = None /\ match_type r = NONE /\
     frames_matched r = 0 /\ stage2_candidates r = 0) /\
    (matched r = true ->
     exists m,
       title r = Some (fm_title m) /\
       timestamp r = Some (fm_timestamp m) /\
       confidence r = Some (fm_similarity m) /\
       year r = _get_year self (fm_media_id m) /\
       fetch_title (db self) (fm_media_id m) = Returned (fm_title m) /\
       1 <= frames_matched r).
Proof.
  intros self path n elapsed r H. unfold identify in H.
  destruct (existsb (String.eqb (path_ext X path)) image_extensions).
  - (* a still image *)
    unfold _identify_image in H.
    destruct (imread X path) as [f|]; cbn [bind] in H.
    + destruct (_match_frame X self f) as [[mt|]|e] eqn:Hm;
        cbn [bind] in H; [| |discriminate]; inversion H; subst r; clear H;
        cbn.
      * split; [reflexivity|]. split; [reflexivity|].
        split; [discriminate|]. intros _.
        exists mt. repeat (split; [reflexivity|]).
        split; [|lia].
        now apply match_frame_title in Hm.
      * split; [reflexivity|]. split; [reflexivity|].
        split; [intros _; repeat split | discriminate].
    + inversion H; subst r; clear H. cbn.
      split; [reflexivity|]. split; [reflexivity|].
      split; [intros _; repeat split | discriminate].
  - (* a clip *)
    destruct (_identify_video X self path n) as [r0|e] eqn:Hid;
      cbn [bind] in H; [|discriminate].
    inversion H; subst r; clear H. cbn [set_processing_time
      processing_time_ms stage1_candidates matched title year timestamp
      confidence match_type frames_matched stage2_candidates].
    split; [reflexivity|].
    pose proof Hid as Hid0. unfold _identify_video in Hid0.
    destruct (VideoCapture X path) as [v|] eqn:Hv.
    + destruct (read_samples X v n) as [reads|e] eqn:Hr;
        cbn [bind] in Hid0; [|discriminate]. clear Hid0.
      destruct (identify_video_returned self path n v reads r0 Hv Hr Hid)
        as [Hok [Hfm [[Hms ->] | [best Hbest]]]].
      * cbn. split; [reflexivity|].
        split; [intros _; repeat split | discriminate].
      * destruct Hbest as [Hin [F1 [F2 [F3 [F4 [F5 [F6 [F7 [F8 _]]]]]]]]].
        cbn [frames_matched] in Hfm.
        split; [exact F7|]. split; [congruence|]. intros _.
        exists best. repeat (split; [assumption|]).
        destruct (matching_frames_In self reads best Hin) as [f [_ Hm]].
        split.
        -- now apply match_frame_title in Hm.
        -- rewrite Hfm.
           destruct (matching_frames X self reads); [destruct Hin|].
           cbn [length]. lia.
    + inversion Hid0; subst r0. cbn. split; [reflexivity|].
      split; [intros _; repeat split | discriminate].
Qed.

(** X15.  Reads that gave no frame do not count: two clips whose
    sampled reads agree on the frames that could be read are identified
    alike. *)
Theorem identify_video_only_reads :
  forall (self : VisualRecognizer) (path1 path2 : string) (n : Z)
         (v1 v2 : video X) (reads1 reads2 : list (option (frame X))),
    VideoCapture X path1 = Some v1 ->
    read_samples X v1 n = Returned reads1 ->
    VideoCapture X path2 = Some v2 ->
    read_samples X v2 n = Returned reads2 ->
    filter is_read reads1 = filter is_read reads2 ->
    _identify_video X self path1 n = _identify_video X self path2 n.
Proof.
  intros self p1 p2 n v1 v2 reads1 reads2 Hv1 Hr1 Hv2 Hr2 Hsame.
  unfold _identify_video. rewrite Hv1, Hr1, Hv2, Hr2. cbn [bind].
  rewrite (match_frames_only_reads self reads1),
          (match_frames_only_reads self reads2), Hsame.
  reflexivity.
Qed.

(** X16.  An exception raised while matching a frame of a clip is the
    exception of the whole call: [identify] raises what the first such
    frame raises. *)
Theorem identify_video_propagates :
  forall (self : VisualRecognizer) (path : string) (n : Z) (elapsed_ms : Q)
         (v : video X) (before after : list (option (frame X)))
         (f : frame X) (e : exn),
    existsb (String.eqb (path_ext X path)) image_extensions = false ->
    VideoCapture X path = Some v ->
    read_samples X v n = Returned (before ++ Some f :: after) ->
    no_frame_raises X self before ->
    _match_frame X self f = Raised e ->
    identify X self path n elapsed_ms = Raised e.
Proof.
  intros self path n elapsed v before after f e Hext Hv Hr Hok Hf.
  unfold identify, _identify_video. rewrite Hext, Hv, Hr. cbn [bind].
  now rewrite (match_frames_raises_with self before f after [] 0 e Hok Hf).
Qed.

(** X17.  For a clip that opens, [frames_matched] is the number of
    sampled reads that gave a frame with a match; it never exceeds the
    number of reads. *)
Theorem identify_video_frames_matched :
  forall (self : VisualRecognizer) (path : string) (n : Z)
         (v : video X) (reads : list (option (frame X)))
         (r : RecognitionResult),
    VideoCapture X path = Some v ->
    read_samples X v n = Returned reads ->
    _identify_video X self path n = Returned r ->
    frames_matched r =
      Z.of_nat (length (filter
                          (fun rd =>
                             match rd with
                             | Some f =>
                                 match _match_frame X self f with
                                 | Returned (Some _) => true
                                 | _ => false
                                 end
                             | None => false
                             end) reads)) /\
    frames_matched r <= Z.of_nat (length reads).
Proof.
  intros self path n v reads r Hv Hr Hid.
  destruct (identify_video_returned self path n v reads r Hv Hr Hid)
    as [_ [Hfm _]].
  rewrite Hfm. split.
  - now rewrite matching_frames_count.
  - pose proof (matching_frames_length self reads). lia.
Qed.

End IdentifyFacts.

(* ================================================================== *)
(** ** More about the store *)

Lemma rows_from_ids : forall media_id entries n,
  map f_id (rows_from media_id (Z.of_nat n + 1) entries) =
  map Z.of_nat (seq (S n) (length entries)).
Proof.
  intros media_id entries.
  induction entries as [|[idx [[ts ph] cnn]] rest IH]; intro n;
    [reflexivity|].
  cbn [rows_from map f_id length seq]. f_equal; [lia|].
  replace (Z.of_nat n + 1 + 1) with (Z.of_nat (S n) + 1) by lia.
  apply IH.
Qed.

Lemma ids_upto_app : forall n k,
  ids_upto (n + k) = ids_upto n ++ map Z.of_nat (seq (S n) k).
Proof.
  intros n k. unfold ids_upto. now rewrite seq_app, map_app.
Qed.

Lemma built_counters : forall d,
  built d ->
  (map m_id (media d) = ids_upto (length (media d)) /\
   media_seq d = Z.of_nat (length (media d))) /\
  (map f_id (fingerprints d) = ids_upto (length (fingerprints d)) /\
   fingerprints_seq d = Z.of_nat (length (fingerprints d))).
Proof.
  induction 1 as [|d title year filepath duration n_frames _ IH
                  |d media_id fps _ IH].
  - repeat split.
  - destruct IH as [[Hm Hs] Hf]. split; [|exact Hf].
    cbn [add_media fst media media_seq]. rewrite map_app, length_app.
    cbn [map length m_id]. rewrite ids_upto_app, Hm, Hs. cbn [seq map].
    split; [f_equal; f_equal; lia | lia].
  - destruct IH as [Hm [Hf Hs]]. unfold add_fingerprints.
    rewrite insert_all_rows. cbn [media media_seq fingerprints
                                        fingerprints_seq].
    split; [exact Hm|]. rewrite map_app, length_app, Hs.
    rewrite rows_from_ids, ids_upto_app, Hf.
    assert (L : length (rows_from media_id
                          (Z.of_nat (length (fingerprints d)) + 1)
                          (enumerate_from 0 fps)) = length fps).
    { rewrite <- (length_map f_id), rows_from_ids, length_map, length_seq.
      apply enumerate_from_length. }
    rewrite L, enumerate_from_length. split; [reflexivity | lia].
Qed.

Lemma select_media_fresh : forall d media_id,
  Forall (fun m => m_id m <= media_seq d) (media d) ->
  media_seq d < media_id ->
  select_media d media_id = None.
Proof.
  intros d media_id Hall Hlt. unfold select_media.
  induction Hall as [|m l Hm _ IH]; [reflexivity|].
  cbn [find]. destruct (Z.eqb_spec (m_id m) media_id); [lia | exact IH].
Qed.

Lemma find_app {A} (p : A -> bool) (l1 l2 : list A) :
  find p (l1 ++ l2) =
  match find p l1 with
  | Some x => Some x
  | None => find p l2
  end.
Proof.
  induction l1 as [|x l1 IH]; [reflexivity|].
  cbn [app find]. destruct (p x); [reflexivity | exact IH].
Qed.

Lemma built_media_bounded : forall d,
  built d -> Forall (fun m => m_id m <= media_seq d) (media d).
Proof.
  intros d H. destruct (built_counters d H) as [[Hm Hs] _].
  rewrite Hs. rewrite Forall_forall. intros m Hin.
  assert (I : In (m_id m) (map m_id (media d))) by now apply in_map.
  rewrite Hm in I. unfold ids_upto in I. apply in_map_iff in I.
  destruct I as [k [<- Hk]]. apply in_seq in Hk. lia.
Qed.

(** X18.  In every store built from the empty tables by [add_media] and
    [add_fingerprints], the media ids and the fingerprint ids are 1, 2,
    3, .. in table order, and each counter equals the number of rows. *)
Theorem built_ids_consecutive : forall d : database,
  built d ->
  map m_id (media d) = ids_upto (length (media d)) /\
  media_seq d = Z.of_nat (length (media d)) /\
  map f_id (fingerprints d) = ids_upto (length (fingerprints d)) /\
  fingerprints_seq d = Z.of_nat (length (fingerprints d)).
Proof.
  intros d H. destruct (built_counters d H) as [[H1 H2] [H3 H4]]. auto.
Qed.

(** X19.  In such a store, [add_media] returns an id that was not in
    use; afterwards the new id resolves to the row just given, with its
    title and year, every other id resolves as before, and the
    fingerprints are untouched. *)
Theorem add_media_lookup :
  forall (d : database) (title : string) (year : option Z)
         (filepath : option string) (duration : option Q)
         (n_frames : option Z),
    built d ->
    let d' := fst (add_media d title year filepath duration n_frames) in
    let id := snd (add_media d title year filepath duration n_frames) in
    select_media d id = None /\
    select_media d' id =
      Some {| m_id := id; m_title := title; m_year := year;
              m_duration := duration; m_filepath := filepath;
              m_total_frames := n_frames |} /\
    fetch_title d' id = Returned title /\
    (forall self, db self = d' -> _get_year self id = year) /\
    (forall other, other <> id ->
                   select_media d' other = select_media d other) /\
    fingerprints d' = fingerprints d.
Proof.
  intros d title year filepath duration n_frames Hb d' id.
  assert (Ei : id = media_seq d + 1) by reflexivity.
  assert (Ed : media d' =
               media d ++
               [{| m_id := id; m_title := title; m_year := year;
                   m_duration := duration; m_filepath := filepath;
                   m_total_frames := n_frames |}]) by reflexivity.
  assert (Ef : fingerprints d' = fingerprints d) by reflexivity.
  clearbody d' id.
  pose proof (built_media_bounded d Hb) as Hbound.
  assert (Hfresh : select_media d id = None).
  { apply select_media_fresh; [exact Hbound | lia]. }
  assert (Hnew : select_media d' id =
                 Some {| m_id := id; m_title := title; m_year := year;
                         m_duration := duration; m_filepath := filepath;
                         m_total_frames := n_frames |}).
  { unfold select_media in *. rewrite Ed.
    rewrite find_app, Hfresh. cbn [find m_id]. now rewrite Z.eqb_refl. }
  split; [exact Hfresh|]. split; [exact Hnew|].
  split; [unfold fetch_title; now rewrite Hnew|].
  split; [intros self <-; unfold _get_year; now rewrite Hnew|].
  split; [|exact Ef].
  intros other Hother. unfold select_media. rewrite Ed.
  rewrite find_app.
  destruct (find (fun m => m_id m =? other) (media d)); [reflexivity|].
  cbn [find m_id]. destruct (Z.eqb_spec id other);
    [congruence | reflexivity].
Qed.

(* ================================================================== *)
(** ** The extraction and ingestion scripts *)

Lemma float_div_done : forall x y,
  ~ (y == 0)%Q -> Script.float_div x y = Script.Done (x / y)%Q.
Proof.
  intros x y H. unfold Script.float_div.
  destruct (Qeq_bool y 0) eqn:E; [|reflexivity].
  apply Qeq_bool_iff in E. contradiction.
Qed.

Lemma float_div_failed : forall x y,
  (y == 0)%Q -> Script.float_div x y = Script.Failed Script.ZeroDivisionError.
Proof.
  intros x y H. unfold Script.float_div.
  apply Qeq_bool_iff in H. now rewrite H.
Qed.

Lemma py_int_fraction : forall x : Q,
  (0 <= x)%Q -> (x < 1)%Q -> Script.py_int x = 0.
Proof.
  intros [a b] H0 H1. unfold Script.py_int, Qle, Qlt in *. cbn in *.
  apply Z.quot_small. lia.
Qed.

Lemma StronglySorted_map {A B} (R : A -> A -> Prop) (R' : B -> B -> Prop)
      (g : A -> B) :
  (forall a b, R a b -> R' (g a) (g b)) ->
  forall l, StronglySorted R l -> StronglySorted R' (map g l).
Proof.
  intros Hg. induction 1 as [|x l Hs IH Hall]; cbn [map]; constructor;
    [exact IH|].
  rewrite Forall_map. eapply Forall_impl; [|exact Hall].
  intros; now apply Hg.
Qed.

Lemma enumerate_from_sorted {A} : forall (l : list A) i,
  StronglySorted (fun a b => fst a < fst b) (enumerate_from i l) /\
  Forall (fun a => i <= fst a) (enumerate_from i l).
Proof.
  induction l as [|x l IH]; intro i; cbn [enumerate_from].
  - split; constructor.
  - destruct (IH (i + 1)) as [Hs Hall]. split.
    + constructor; [exact Hs|].
      eapply Forall_impl; [|exact Hall]. cbn. intros; lia.
    + constructor; [cbn; lia|].
      eapply Forall_impl; [|exact Hall]. cbn. intros; lia.
Qed.

Section ExtractionFacts.

Variable X : externals.
Variable S : script_externals X.

Lemma sample_loop_done : forall video_fps frame_interval reads k acc,
  ~ (video_fps == 0)%Q -> frame_interval <> 0 ->
  Script.sample_loop X video_fps frame_interval reads k acc =
  Script.Done
    (acc ++ sampled X video_fps frame_interval (enumerate_from k reads)).
Proof.
  intros video_fps I reads. induction reads as [|f reads IH];
    intros k acc Hfps HI.
  - cbn. now rewrite app_nil_r.
  - cbn [Script.sample_loop enumerate_from]. unfold Script.int_mod.
    destruct (Z.eqb_spec I 0) as [C|_]; [contradiction|].
    cbn [Script.and_then]. unfold sampled. cbn [filter fst snd].
    destruct (k mod I =? 0).
    + rewrite (float_div_done _ _ Hfps). cbn [Script.and_then].
      rewrite (IH _ _ Hfps HI). unfold sampled. cbn [map fst snd].
      now rewrite <- app_assoc.
    + apply (IH _ _ Hfps HI).
Qed.

Lemma sample_loop_zero_interval : forall video_fps f reads k acc,
  Script.sample_loop X video_fps 0 (f :: reads) k acc =
  Script.Failed Script.ZeroDivisionError.
Proof. reflexivity. Qed.

(** X22.  When [extract_from_video] returns for a positive frame rate,
    it returns at most one fingerprint per frame, with strictly ascending
    timestamps, and unless the video has no frame the first fingerprint
    is that of the first frame, at time 0. *)
Theorem extract_from_video_timestamps :
  forall (video_path : string) (sample_rate elapsed : Q) (v : video X)
         (fingerprints : list (Q * string * features)),
    VideoCapture X video_path = Some v ->
    (0 < fps S v)%Q ->
    Script.extract_from_video X S video_path sample_rate elapsed =
    Script.Done fingerprints ->
    (length fingerprints <= length (frames S v))%nat /\
    StronglySorted Qlt (map (fun e => fst (fst e)) fingerprints) /\
    (forall f rest,
        frames S v = f :: rest ->
        exists t others,
          fingerprints =
            (t, compute_phash X f, compute_cnn_features X f) :: others /\
          (t == 0)%Q).
Proof.
  intros path rate elapsed v fingerprints Hv Hpos H.
  assert (Hfps : ~ (fps S v == 0)%Q).
  { intro C. rewrite C in Hpos. now apply Qlt_irrefl in Hpos. }
  assert (E : fingerprints =
              sampled X (fps S v) (Script.py_int (fps S v / rate))
                      (enumerate_from 0 (frames S v))).
  { unfold Script.extract_from_video in H. rewrite Hv in H.
    rewrite (float_div_done _ _ Hfps) in H. cbn [Script.and_then] in H.
    destruct (Script.float_div (fps S v) rate) as [ratio|] eqn:Hratio;
      [|discriminate].
    assert (ratio = (fps S v / rate)%Q) as ->.
    { unfold Script.float_div in Hratio.
      destruct (Qeq_bool rate 0); [discriminate | now inversion Hratio]. }
    cbn [Script.and_then] in H.
    destruct (frames S v) as [|f reads] eqn:Hframes.
    - cbn [Script.sample_loop Script.and_then] in H.
      destruct (Script.float_div _ elapsed); [|discriminate].
      cbn [Script.and_then] in H. now inversion H.
    - destruct (Z.eq_dec (Script.py_int (fps S v / rate)) 0) as [HI|HI].
      + rewrite HI in H. discriminate.
      + rewrite sample_loop_done in H by assumption.
        cbn [Script.and_then app] in H.
        destruct (Script.float_div _ elapsed); [|discriminate].
        cbn [Script.and_then] in H. now inversion H. }
  subst fingerprints. unfold sampled. split; [|split].
  - rewrite length_map.
    etransitivity; [apply filter_length_le|].
    now rewrite enumerate_from_length.
  - rewrite map_map. cbn [fst].
    apply (StronglySorted_map (fun a b : Z * frame X => fst a < fst b)).
    + intros a b Hab. unfold Qdiv.
      apply Qmult_lt_compat_r; [now apply Qinv_lt_0_compat|].
      now rewrite <- Zlt_Qlt.
    + apply StronglySorted_filter_keep, enumerate_from_sorted.
  - intros f rest Hframes. rewrite Hframes.
    cbn [enumerate_from filter fst]. rewrite Zmod_0_l. cbn [Z.eqb map fst snd].
    eexists. eexists. split; [reflexivity|].
    unfold Qdiv. now rewrite Qmult_0_l.
Qed.

End ExtractionFacts.

Lemma rows_from_media_id : forall media_id entries next_id,
  Forall (fun r => f_media_id r = media_id)
         (rows_from media_id next_id entries).
Proof.
  intros media_id entries.
  induction entries as [|[idx [[ts ph] cnn]] rest IH]; intro next_id;
    cbn [rows_from]; constructor; [reflexivity | apply IH].
Qed.

Lemma rows_from_length : forall media_id entries next_id,
  length (rows_from media_id next_id entries) = length entries.
Proof.
  intros media_id entries.
  induction entries as [|[idx [[ts ph] cnn]] rest IH]; intro next_id;
    cbn [rows_from length]; [reflexivity | now rewrite IH].
Qed.

Lemma select_media_some : forall d media_id row,
  select_media d media_id = Some row ->
  In row (media d) /\ m_id row = media_id.
Proof.
  intros d media_id row H. unfold select_media in H.
  apply find_some in H. destruct H as [Hin Heq].
  split; [exact Hin | now apply Z.eqb_eq].
Qed.

Lemma count_media_id_none : forall (rows : list fingerprint_row) media_id,
  Forall (fun r => f_media_id r <> media_id) rows ->
  filter (fun r => f_media_id r =? media_id) rows = [].
Proof.
  intros rows media_id H. apply filter_none. intros r Hr.
  rewrite Forall_forall in H. specialize (H r Hr).
  now apply Z.eqb_neq.
Qed.

Lemma count_media_id_all : forall (rows : list fingerprint_row) media_id,
  Forall (fun r => f_media_id r = media_id) rows ->
  filter (fun r => f_media_id r =? media_id) rows = rows.
Proof.
  intros rows media_id H. apply filter_all. intros r Hr.
  rewrite Forall_forall in H. specialize (H r Hr).
  now apply Z.eqb_eq.
Qed.

(** Adding a media row that records [length fps] frames and then its
    fingerprints keeps the store coherent. *)
Lemma coherent_ingest : forall d title year filepath duration fps,
  coherent d ->
  coherent
    (add_fingerprints
       (fst (add_media d title year filepath duration
                       (Some (Z.of_nat (length fps)))))
       (media_seq d + 1) fps).
Proof.
  intros d title year filepath duration fps [Hbound [Href Htot]].
  unfold add_fingerprints. rewrite insert_all_rows.
  cbn [add_media fst media media_seq fingerprints fingerprints_seq].
  set (id := media_seq d + 1).
  set (row := {| m_id := id; m_title := title; m_year := year;
                 m_duration := duration; m_filepath := filepath;
                 m_total_frames := Some (Z.of_nat (length fps)) |}).
  set (rows := rows_from id (fingerprints_seq d + 1) (enumerate_from 0 fps)).
  assert (Hfresh : select_media d id = None).
  { apply select_media_fresh; [exact Hbound | unfold id; lia]. }
  assert (Hold : Forall (fun r => f_media_id r <> id) (fingerprints d)).
  { eapply Forall_impl; [|exact Href]. cbn. intros r [m Hm] C.
    rewrite C in Hm. congruence. }
  assert (Hnew : Forall (fun r => f_media_id r = id) rows)
    by apply rows_from_media_id.
  unfold coherent, select_media, fingerprints_of.
  cbn [media media_seq fingerprints]. split; [|split].
  - apply Forall_app. split.
    + eapply Forall_impl; [|exact Hbound]. cbn. intros; lia.
    + repeat constructor. cbn. lia.
  - apply Forall_app. split.
    + eapply Forall_impl; [|exact Href]. cbn. intros r [m Hm].
      exists m. unfold select_media in Hm. now rewrite find_app, Hm.
    + eapply Forall_impl; [|exact Hnew]. cbn. intros r ->.
      exists row. unfold select_media in Hfresh.
      rewrite find_app, Hfresh. cbn [find m_id]. unfold row at 1.
      cbn [m_id]. now rewrite Z.eqb_refl.
  - apply Forall_app. split.
    + rewrite Forall_forall in *. intros m Hm.
      rewrite (Htot m Hm). unfold fingerprints_of.
      rewrite filter_app, length_app.
      rewrite (count_media_id_none rows (m_id m)); [cbn; f_equal; lia|].
      rewrite Forall_forall.
      intros r Hr. rewrite (Hnew r Hr). specialize (Hbound m Hm).
      unfold id. lia.
    + repeat constructor. cbn [m_total_frames m_id row].
      rewrite filter_app, length_app.
      rewrite (count_media_id_none _ id Hold),
              (count_media_id_all _ id Hnew).
      unfold rows. rewrite rows_from_length, enumerate_from_length.
      reflexivity.
Qed.

Lemma last_cons_default {A} : forall (others : list A) first dflt,
  last (first :: others) dflt = last others first.
Proof.
  induction others as [|x others IH]; intros first dflt; [reflexivity|].
  change (last (first :: x :: others) dflt) with (last (x :: others) dflt).
  rewrite (IH x dflt), (IH x first). reflexivity.
Qed.

Section IngestionFacts.

Variable X : externals.
Variable S : script_externals X.

(** What a run of [add_video_to_database] that ends normally has
    done. *)
Lemma add_video_to_database_completed :
  forall d video_path title year sample_rate elapsed d',
    Script.add_video_to_database X S d video_path title year sample_rate
                                 elapsed = Script.Completed d' ->
    exists first others,
      path_exists S video_path = true /\
      Script.extract_from_video X S video_path sample_rate elapsed =
        Script.Done (first :: others) /\
      d' = add_fingerprints
             (fst (add_media d title year (Some video_path)
                             (Some (fst (fst (last others first))))
                             (Some (Z.of_nat (length (first :: others))))))
             (media_seq d + 1) (first :: others).
Proof.
  intros d path title year rate elapsed d' H.
  unfold Script.add_video_to_database in H.
  destruct (path_exists S path); cbn [negb] in H; [|discriminate].
  destruct (Script.extract_from_video X S path rate elapsed)
    as [[|first others]|]; try discriminate.
  exists first, others. split; [reflexivity|]. split; [reflexivity|].
  cbn [add_media] in H. now inversion H.
Qed.

Lemma ingested_is_coherent : forall d, ingested X S d -> coherent d.
Proof.
  induction 1 as [|d d' path title year rate elapsed _ IH Hrun].
  - repeat split; constructor.
  - apply add_video_to_database_completed in Hrun.
    destruct Hrun as [first [others [_ [_ ->]]]].
    now apply coherent_ingest.
Qed.

Lemma verify_with_cnn_total : forall d cands q,
  Forall (fun c => exists dist,
              cosine X q (c_cnn_blob c) = Returned dist) cands ->
  Forall (fun c => exists row,
              select_media d (c_media_id c) = Some row) cands ->
  exists out, verify_with_cnn X d cands q = Returned out.
Proof.
  intros d cands q Hcos Hmedia.
  assert (Hret : Forall (fun c => exists m,
                    score_candidate X d q c = Returned m) cands).
  { rewrite Forall_forall in *. intros c Hc.
    apply score_candidate_total; auto. }
  pose (dflt := {| fm_media_id := 0; fm_title := EmptyString;
                   fm_timestamp := 0%Q; fm_similarity := 0%Q |}).
  unfold verify_with_cnn.
  rewrite (for_each_total (score_candidate X d q) dflt cands Hret).
  cbn [bind]. eauto.
Qed.

(** X23.  A run of [add_video_to_database] that ends normally has found
    the file, extracted at least one fingerprint, added one media row
    with the given title and year, the path, the timestamp of the last
    fingerprint as duration and the number of fingerprints as frame
    count, and appended one fingerprint row per fingerprint, all of the
    new media id. *)
Theorem add_video_to_database_result :
  forall (d : database) (video_path title : string) (year : option Z)
         (sample_rate elapsed : Q) (d' : database),
    Script.add_video_to_database X S d video_path title year sample_rate
                                 elapsed = Script.Completed d' ->
    exists extracted,
      path_exists S video_path = true /\
      Script.extract_from_video X S video_path sample_rate elapsed =
        Script.Done extracted /\
      extracted <> [] /\
      (forall dflt,
          media d' =
          media d ++
          [{| m_id := media_seq d + 1; m_title := title; m_year := year;
              m_duration := Some (fst (fst (last extracted dflt)));
              m_filepath := Some video_path;
              m_total_frames := Some (Z.of_nat (length extracted)) |}]) /\
      fingerprints d' =
        fingerprints d ++
        rows_from (media_seq d + 1) (fingerprints_seq d + 1)
                  (enumerate_from 0 extracted).
Proof.
  intros d path title year rate elapsed d' H.
  apply add_video_to_database_completed in H.
  destruct H as [first [others [Hex [Hfp ->]]]].
  exists (first :: others).
  split; [exact Hex|]. split; [exact Hfp|]. split; [discriminate|].
  unfold add_fingerprints. rewrite insert_all_rows.
  cbn [media fingerprints add_media fst]. split; [|reflexivity].
  intro dflt. now rewrite last_cons_default.
Qed.

(** X24.  In every store built by runs of [add_video_to_database], each
    fingerprint belongs to a media row and each media row records the
    number of its fingerprints. *)
Theorem ingested_coherent : forall d : database,
  ingested X S d ->
  Forall (fun r => exists row, select_media d (f_media_id r) = Some row)
         (fingerprints d) /\
  Forall (fun m => m_total_frames m =
                   Some (Z.of_nat (fingerprints_of d (m_id m))))
         (media d).
Proof.
  intros d H. destruct (ingested_is_coherent d H) as [_ [H1 H2]]. auto.
Qed.

(** X25.  On such a store Stage 2 finds the title of every Stage-1
    candidate: [verify_with_cnn] returns on the result of any search
    whenever the cosine distance of each candidate can be computed. *)
Theorem ingested_verify_returns :
  forall (d : database) (query_hash : string) (max_distance limit : Z)
         (candidates : list candidate) (query_features : features),
    ingested X S d ->
    search_by_phash d query_hash max_distance limit = Returned candidates ->
    Forall (fun c => exists dist,
                cosine X query_features (c_cnn_blob c) = Returned dist)
           candidates ->
    exists out,
      verify_with_cnn X d candidates query_features = Returned out /\
      length out = length candidates.
Proof.
  intros d q t limit cands features Hing Hs Hcos.
  destruct (ingested_is_coherent d Hing) as [_ [Href _]].
  assert (Hmedia : Forall (fun c => exists row,
                      select_media d (c_media_id c) = Some row) cands).
  { pose proof (search_by_phash_returned _ _ _ _ _ Hs) as Hread.
    rewrite (search_by_phash_total _ _ _ _ Hread) in Hs.
    inversion Hs as [Es]. rewrite Forall_forall in *. intros c Hc.
    apply slice_to_incl, ranked_within_In in Hc. destruct Hc as [Hc _].
    unfold stored in Hc. apply in_map_iff in Hc.
    destruct Hc as [r [<- Hr]]. exact (Href r Hr). }
  destruct (verify_with_cnn_total d cands features Hcos Hmedia)
    as [out Hout].
  exists out. split; [exact Hout|].
  apply verify_with_cnn_returned in Hout. destruct Hout as [scored [Hsc ->]].
  rewrite stable_sort_length. eapply for_each_length; eassumption.
Qed.

End IngestionFacts.

(* ================================================================== *)
(** ** The command-line recognizer against the SDK *)

Lemma max_from_map {A B K} (gt : K -> K -> bool) (key : A -> K)
      (key' : B -> K) (g : A -> B) :
  (forall a, key' (g a) = key a) ->
  forall l x,
    g (max_from gt key x l) = max_from gt key' (g x) (map g l).
Proof.
  intros Hk. induction l as [|y l IH]; intro x; [reflexivity|].
  cbn [max_from map]. rewrite !Hk.
  destruct (gt (key y) (key x)); apply IH.
Qed.

Lemma filter_map_comm {A B} (p : B -> bool) (g : A -> B) (l : list A) :
  filter p (map g l) = map g (filter (fun a => p (g a)) l).
Proof.
  induction l as [|x l IH]; [reflexivity|].
  cbn [map filter]. destruct (p (g x)); cbn [map]; now rewrite IH.
Qed.

Section CommandLineFacts.

Variable X : externals.
Variable S : script_externals X.

Lemma match_frame_via_report : forall self f,
  _match_frame X self f =
  (rep <- recognize_frame X (db self) f (phash_threshold self)
                          (cnn_threshold self) ;;
   Returned (option_map report_match rep)).
Proof.
  intros self f. unfold _match_frame, recognize_frame.
  destruct (search_by_phash (db self) (compute_phash X f)
                            (phash_threshold self) 50) as [cands|e];
    cbn [bind]; [|reflexivity].
  destruct cands as [|c cands]; [reflexivity|].
  destruct (verify_with_cnn X (db self) (c :: cands)
                            (compute_cnn_features X f))
    as [out|e]; cbn [bind]; [|reflexivity].
  destruct (valid_matches (cnn_threshold self) out)
    as [|[mid t ts sim] rest]; reflexivity.
Qed.

Lemma match_frames_via_reports : forall self reads acc s,
  match_frames X self reads (map report_match acc) s =
  (reps <- Script.report_frames X (db self) (phash_threshold self)
                                (cnn_threshold self) reads acc ;;
   Returned (map report_match reps,
             s + Z.of_nat (length reps) - Z.of_nat (length acc))).
Proof.
  intros self reads. induction reads as [|r reads IH]; intros acc s.
  - cbn. f_equal. f_equal. lia.
  - destruct r as [f|]; cbn [match_frames Script.report_frames].
    + rewrite match_frame_via_report.
      destruct (recognize_frame X (db self) f (phash_threshold self)
                                (cnn_threshold self)) as [[rep|]|e];
        cbn [bind option_map]; [| apply IH | reflexivity].
      replace (map report_match acc ++ [report_match rep])
        with (map report_match (acc ++ [rep]))
        by (now rewrite map_app).
      rewrite IH.
      destruct (Script.report_frames X (db self) (phash_threshold self)
                  (cnn_threshold self) reads (acc ++ [rep]));
        cbn [bind]; [|reflexivity].
      rewrite length_app. cbn [length]. f_equal. f_equal. lia.
    + apply IH.
Qed.

(** X26.  On an image the command-line recognizer and the SDK agree:
    with the same store and thresholds [recognize_image] and
    [_identify_image] raise alike, find no match alike, and announce the
    same title, timestamp and similarity. *)
Theorem recognize_image_agrees :
  forall (self : VisualRecognizer) (image_path : string),
    (rep <- Script.recognize_image X (db self) image_path
                                   (phash_threshold self)
                                   (cnn_threshold self) ;;
     Returned (option_map report_summary rep)) =
    (r <- _identify_image X self image_path ;;
     Returned (result_summary r)).
Proof.
  intros self path. unfold Script.recognize_image, _identify_image.
  destruct (imread X path) as [f|]; [|reflexivity].
  rewrite match_frame_via_report.
  destruct (recognize_frame X (db self) f (phash_threshold self)
                            (cnn_threshold self)) as [[rep|]|e];
    reflexivity.
Qed.

(** X27.  On a clip whose frame rate is not 0 the command-line
    recognizer and the SDK agree in the same way: [recognize_video] and
    [_identify_video] raise alike, find no match alike, and announce the
    same title, timestamp and similarity.  On a clip that opens with a
    frame rate of 0, [recognize_video] raises [ZeroDivisionError]. *)
Theorem recognize_video_agrees :
  forall (self : VisualRecognizer) (video_path : string)
         (sample_frames : Z),
    ((forall v, VideoCapture X video_path = Some v ->
                ~ (fps S v == 0)%Q) ->
     Script.and_then
       (Script.recognize_video X S (db self) video_path sample_frames
                               (phash_threshold self) (cnn_threshold self))
       (fun rep =>
          Script.Done
            (option_map (fun vr => report_summary (Script.vr_match vr))
                        rep)) =
     Script.and_then
       (Script.lift (_identify_video X self video_path sample_frames))
       (fun r => Script.Done (result_summary r))) /\
    (forall v, VideoCapture X video_path = Some v ->
               (fps S v == 0)%Q ->
               Script.recognize_video X S (db self) video_path
                                      sample_frames (phash_threshold self)
                                      (cnn_threshold self) =
               Script.Failed Script.ZeroDivisionError).
Proof.
  intros self path n. split.
  - intro Hfps. unfold Script.recognize_video, _identify_video.
    destruct (VideoCapture X path) as [v|]; [|reflexivity].
    rewrite (float_div_done _ _ (Hfps v eq_refl)).
    cbn [Script.and_then].
    destruct (read_samples X v n) as [reads|e];
      cbn [Script.lift Script.and_then bind]; [|reflexivity].
    change (@nil frame_match) with (map report_match []).
    rewrite match_frames_via_reports.
    destruct (Script.report_frames X (db self) (phash_threshold self)
                (cnn_threshold self) reads []) as [reps|e];
      cbn [Script.lift Script.and_then bind]; [|reflexivity].
    destruct reps as [|rep0 reps0]; [reflexivity|].
    cbn [map]. cbv beta iota zeta.
    change (report_match rep0 :: map report_match reps0)
      with (map report_match (rep0 :: reps0)).
    change (fr_title rep0 :: map fr_title reps0)
      with (map fr_title (rep0 :: reps0)).
    set (reps := rep0 :: reps0).
    rewrite (map_map report_match fm_title).
    change (fun x => fm_title (report_match x)) with fr_title.
    change (fm_title (report_match rep0) :: map fr_title reps0)
      with (map fr_title reps).
    destruct (item0 (most_common_1 (Counter (map fr_title reps))))
      as [top|e]; cbn [Script.lift Script.and_then bind]; [|reflexivity].
    rewrite (filter_map_comm
               (fun m => String.eqb (fm_title m) (fst top)) report_match).
    change (fun a => String.eqb (fm_title (report_match a)) (fst top))
      with (fun a => String.eqb (fr_title a) (fst top)).
    destruct (filter (fun a => String.eqb (fr_title a) (fst top)) reps)
      as [|x rest]; [reflexivity|].
    cbn [map max_by Script.lift Script.and_then bind].
    rewrite <- (max_from_map Qgtb fr_similarity fm_similarity report_match)
      by reflexivity.
    reflexivity.
  - intros v Hv Hfps. unfold Script.recognize_video. rewrite Hv.
    now rewrite (float_div_failed _ _ Hfps).
Qed.

End CommandLineFacts.

Lemma report_frames_length {X : externals} :
  forall d pt ct (reads : list (option (frame X))) acc reps,
    Script.report_frames X d pt ct reads acc = Returned reps ->
    (length reps <= length acc + length reads)%nat.
Proof.
  intros d pt ct reads. induction reads as [|r reads IH]; intros acc reps H.
  - cbn in H. inversion H. cbn. lia.
  - destruct r as [f|]; cbn [Script.report_frames] in H.
    + destruct (recognize_frame X d f pt ct) as [[rep|]|e];
        cbn [bind] in H; [| |discriminate].
      * apply IH in H. rewrite length_app in H. cbn [length] in *. lia.
      * apply IH in H. cbn [length]. lia.
    + apply IH in H. cbn [length]. lia.
Qed.

Lemma occurrences_le_length : forall t titles,
  occurrences t titles <= Z.of_nat (length titles).
Proof.
  intros t titles. unfold occurrences.
  pose proof (filter_length_le (fun x => String.eqb x t) titles). lia.
Qed.

Section VotesFacts.

Variable X : externals.
Variable S : script_externals X.

(** X28.  The report that [recognize_video] returns is the report of one
    of the matched frames; its ['votes'] text is the number of matched
    frames with the title of that report, over the requested number of
    frames (not over the number of frames read or matched); that number
    of votes is at least 1, at most the number of sampled reads, and no
    title has more. *)
Theorem recognize_video_votes :
  forall (d : database) (video_path : string) (sample_frames pt : Z)
         (ct : Q) (vr : Script.video_report),
    Script.recognize_video X S d video_path sample_frames pt ct =
      Script.Done (Some vr) ->
    exists v reads reps,
      VideoCapture X video_path = Some v /\
      read_samples X v sample_frames = Returned reads /\
      Script.report_frames X d pt ct reads [] = Returned reps /\
      In (Script.vr_match vr) reps /\
      Script.vr_votes vr =
        (Script.str_int (occurrences (fr_title (Script.vr_match vr))
                                     (map fr_title reps))
         ++ "/" ++ Script.str_int sample_frames)%string /\
      1 <= occurrences (fr_title (Script.vr_match vr))
                       (map fr_title reps) /\
      occurrences (fr_title (Script.vr_match vr)) (map fr_title reps) <=
        Z.of_nat (length reads) /\
      (forall t, occurrences t (map fr_title reps) <=
                 occurrences (fr_title (Script.vr_match vr))
                             (map fr_title reps)).
Proof.
  intros d path n pt ct vr H. unfold Script.recognize_video in H.
  destruct (VideoCapture X path) as [v|] eqn:Hv; [|discriminate].
  destruct (Script.float_div (inject_Z (total_frames S v)) (fps S v));
    cbn [Script.and_then] in H; [|discriminate].
  destruct (read_samples X v n) as [reads|e] eqn:Hreads;
    cbn [Script.lift Script.and_then] in H; [|discriminate].
  destruct (Script.report_frames X d pt ct reads []) as [reps|e] eqn:Hreps;
    cbn [Script.lift Script.and_then] in H; [|discriminate].
  exists v, reads, reps.
  split; [reflexivity|]. split; [exact Hreads|]. split; [exact Hreps|].
  pose proof (report_frames_length d pt ct reads [] reps Hreps) as Hlen.
  cbn [length] in Hlen.
  destruct reps as [|rep0 reps0]; [discriminate|].
  cbv beta iota zeta in H.
  remember (rep0 :: reps0) as reps eqn:Er.
  assert (Hne : map fr_title reps <> []) by (subst reps; discriminate).
  clear Er rep0 reps0.
  destruct (most_common_first_max (map fr_title reps) Hne)
    as [w [k [pre [post [Hmc [Hk [Hmax [Hsplit _]]]]]]]].
  rewrite Hmc in H. cbn [item0 Script.lift Script.and_then fst] in H.
  destruct (filter (fun m => String.eqb (fr_title m) w) reps)
    as [|x rest] eqn:Hf; [discriminate|].
  destruct (max_by_first_max Qgtb Qle Qlt fr_similarity) with
    (x := x) (rest := rest) as [b [pre' [post' [Hb [Hb_split _]]]]].
  - intros q1 q2 G. now apply Qgtb_true.
  - intros q1 q2 G. now apply Qgtb_false.
  - apply Qle_refl.
  - apply Qle_trans.
  - apply Qlt_le_weak.
  - apply Qlt_le_trans.
  - apply Qle_lt_trans.
  - rewrite Hb in H. cbn [Script.lift Script.and_then] in H.
    inversion H as [Hvr]. cbn [Script.vr_match Script.vr_votes].
    assert (Hin : In b (filter (fun m => String.eqb (fr_title m) w) reps)).
    { rewrite Hf, Hb_split. apply in_or_app. right. now left. }
    apply filter_In in Hin. destruct Hin as [Hin Htitle].
    apply String.eqb_eq in Htitle. rewrite Htitle.
    assert (Htally : tally (Counter (map fr_title reps)) w =
                     occurrences w (map fr_title reps)).
    { unfold Counter. rewrite counter_fold_tally. reflexivity. }
    rewrite Htally.
    split; [exact Hin|]. split; [reflexivity|].
    assert (Hw : In w (map fr_title reps)).
    { rewrite Hsplit. apply in_or_app. right. now left. }
    apply occurrences_pos in Hw.
    pose proof (occurrences_le_length w (map fr_title reps)) as Hle.
    rewrite length_map in Hle.
    split; [lia|]. split; [lia | exact Hmax].
Qed.

End VotesFacts.

(* ================================================================== *)
(** ** Stage 2 in floating point *)

Lemma insert_by_ext {A} (le le' : A -> A -> bool) : forall x l,
  (forall y, In y l -> le x y = le' x y) ->
  insert_by le x l = insert_by le' x l.
Proof.
  intros x l. induction l as [|y l IH]; intro H; [reflexivity|].
  cbn [insert_by]. rewrite (H y) by now left.
  destruct (le' x y); [reflexivity|].
  f_equal. apply IH. intros z Hz. apply H. now right.
Qed.

Lemma stable_sort_ext {A} (le le' : A -> A -> bool) : forall l,
  (forall x y, In x l -> In y l -> le x y = le' x y) ->
  stable_sort le l = stable_sort le' l.
Proof.
  induction l as [|x l IH]; intro H; [reflexivity|].
  cbn [stable_sort fold_right]. fold (stable_sort le l) (stable_sort le' l).
  rewrite IH by (intros; apply H; now right).
  apply insert_by_ext. intros y Hy.
  apply H; [now left | right; now apply stable_sort_In in Hy].
Qed.

Lemma StronglySorted_weaken_on {A} (P : A -> Prop) (R R' : A -> A -> Prop) :
  (forall a b, P a -> P b -> R a b -> R' a b) ->
  forall l, Forall P l -> StronglySorted R l -> StronglySorted R' l.
Proof.
  intros HR l HP Hs. induction Hs as [|x l Hs IH Hall]; [constructor|].
  inversion HP as [|? ? Px Pl]; subst.
  constructor; [now apply IH|].
  rewrite Forall_forall in *. intros y Hy. apply HR; auto.
Qed.

(* ================================================================== *)
(** ** The distance of [hamming_distance] is the Hamming distance *)

Lemma bits_value_snoc : forall l (b : bool),
  bits_value (l ++ [b]) = (2 * bits_value l + N.b2n b)%N.
Proof.
  intros l b. unfold bits_value. rewrite fold_left_app. cbn [fold_left].
  now destruct b.
Qed.

Lemma testbit_bits_value : forall l i,
  N.testbit (bits_value l) (N.of_nat i) = nth i (rev l) false.
Proof.
  induction l as [|b l IH] using rev_ind; intro i.
  - cbn. now destruct i.
  - rewrite bits_value_snoc, rev_app_distr. cbn [rev app].
    destruct i as [|i]; cbn [nth].
    + apply N.testbit_0_r.
    + rewrite Nat2N.inj_succ, N.testbit_succ_r. apply IH.
Qed.

Lemma bits_of_value : forall l,
  length l = 64%nat ->
  rev l = map (fun i => N.testbit (bits_value l) (N.of_nat i)) (seq 0 64).
Proof.
  intros l Hl. apply (nth_ext _ _ false false).
  - now rewrite length_rev, length_map, length_seq.
  - intros i Hi. rewrite length_rev, Hl in Hi.
    rewrite <- testbit_bits_value.
    rewrite (nth_indep _ false
               (N.testbit (bits_value l) (N.of_nat 0)))
      by now rewrite length_map, length_seq.
    rewrite (map_nth (fun i => N.testbit (bits_value l) (N.of_nat i))).
    now rewrite seq_nth.
Qed.

Lemma combine_app_same {A B} : forall (a c : list A) (b d : list B),
  length a = length b ->
  combine (a ++ c) (b ++ d) = combine a b ++ combine c d.
Proof.
  induction a as [|x a IH]; intros c [|y b] d H; try discriminate;
    [reflexivity|].
  cbn. f_equal. apply IH. now injection H.
Qed.

Lemma combine_rev_same {A B} : forall (a : list A) (b : list B),
  length a = length b ->
  combine (rev a) (rev b) = rev (combine a b).
Proof.
  induction a as [|x a IH]; intros [|y b] H; try discriminate;
    [reflexivity|].
  injection H as H. cbn [rev combine].
  rewrite combine_app_same by now rewrite !length_rev.
  now rewrite IH.
Qed.

Lemma count_differing_rev : forall l : list (bool * bool),
  count_differing (rev l) = count_differing l.
Proof.
  intro l. unfold count_differing.
  induction l as [|p l IH]; [reflexivity|].
  cbn [rev]. rewrite filter_app, length_app, IH. cbn [filter].
  destruct (negb (Bool.eqb (fst p) (snd p))); cbn [length]; lia.
Qed.

Lemma count_differing_maps {A} (f g : A -> bool) : forall l,
  count_differing (combine (map f l) (map g l)) =
  length (filter (fun i => xorb (f i) (g i)) l).
Proof.
  unfold count_differing. induction l as [|x l IH]; [reflexivity|].
  cbn [map combine filter fst snd].
  destruct (f x), (g x); cbn [Bool.eqb negb xorb length]; now rewrite IH.
Qed.

(** On hashes of at most 16 digits the code computes the number of
    differing bits of the two values. *)
Lemma hamming_distance_bits : forall a b na nb,
  hash64 a na -> hash64 b nb ->
  hamming_distance a b = Returned (bit_distance na nb).
Proof.
  intros a b na nb [Ha La] [Hb Lb]. unfold hamming_distance.
  rewrite Ha, Hb. cbn [bind]. f_equal.
  pose proof (zfill_64_length na (int16_below a na Ha La)) as L1.
  pose proof (zfill_64_length nb (int16_below b nb Hb Lb)) as L2.
  pose proof (bits_of_value _ L1) as B1.
  pose proof (bits_of_value _ L2) as B2.
  rewrite zfill_value, bin_value in B1, B2.
  rewrite <- (rev_involutive (Hex.zfill 64 (Hex.bin na))),
          <- (rev_involutive (Hex.zfill 64 (Hex.bin nb))).
  rewrite B1, B2.
  rewrite combine_rev_same by now rewrite !length_map.
  rewrite count_differing_rev. apply count_differing_maps.
Qed.

Lemma within_hamming_as_computed : forall q t c nq nc,
  hash64 q nq -> hash64 (c_phash c) nc ->
  (within_budget q t c <-> within_hamming q t c).
Proof.
  intros q t c nq nc Hq Hc. unfold within_budget, within_hamming.
  rewrite (hamming_distance_bits q (c_phash c) nq nc Hq Hc). split.
  - intros [dist [E Hle]]. inversion E; subst dist.
    exists nq, nc. auto.
  - intros [nq' [nc' [[Hq' _] [[Hc' _] Hle]]]].
    destruct Hq as [Hq _], Hc as [Hc _].
    rewrite Hq in Hq'. rewrite Hc in Hc'.
    inversion Hq'; inversion Hc'; subst. eauto.
Qed.

Lemma ranks_before_as_computed : forall q a b,
  is_hash64 q -> is_hash64 (c_phash a) -> is_hash64 (c_phash b) ->
  ranks_before q a b -> ranks_before_hamming q a b.
Proof.
  intros q a b [nq Hq] [na Ha] [nb Hb] [da [db [Da [Db H]]]].
  rewrite (hamming_distance_bits q _ nq na Hq Ha) in Da.
  rewrite (hamming_distance_bits q _ nq nb Hq Hb) in Db.
  inversion Da; inversion Db; subst.
  exists nq, na, nb. auto.
Qed.

Lemma hash64_hex_text : forall s, is_hash64 s -> hex_text s.
Proof. intros s [n [H _]]. now exists n. Qed.

(** C7.  For 64-bit hashes, written as at most 16 hexadecimal digits,
    Stage 1 returns exactly the stored fingerprints whose Hamming
    distance to the query, the number of differing bits, is at most
    [max_distance], ascending by that distance, equal distances by
    ascending fingerprint id, cut to the first [limit]; an empty store,
    or one with no hash within the budget, gives the empty list and no
    exception. *)
Theorem search_by_phash_ranked :
  forall (d : database) (query_hash : string) (max_distance limit : Z),
    (ids_ascending d ->
     is_hash64 query_hash ->
     Forall (fun r => is_hash64 (f_phash r)) (fingerprints d) ->
     0 <= limit ->
     exists ranked,
       search_by_phash d query_hash max_distance limit =
         Returned (firstn (Z.to_nat limit) ranked) /\
       (forall c, In c ranked <->
                  In c (stored d) /\
                  within_hamming query_hash max_distance c) /\
       StronglySorted (ranks_before_hamming query_hash) ranked)
    /\ (fingerprints d = [] ->
        search_by_phash d query_hash max_distance limit = Returned [])
    /\ (is_hash64 query_hash ->
        Forall (fun r => is_hash64 (f_phash r)) (fingerprints d) ->
        (forall c, In c (stored d) ->
                   ~ within_hamming query_hash max_distance c) ->
        search_by_phash d query_hash max_distance limit = Returned []).
Proof.
  intros d q t limit.
  destruct (search_by_phash_ranked_as_computed d q t limit)
    as [Hranked [Hempty Hnone]].
  assert (Hstored : Forall (fun r => is_hash64 (f_phash r)) (fingerprints d) ->
                    forall c, In c (stored d) -> is_hash64 (c_phash c)).
  { intros Hrows c Hc. unfold stored in Hc. apply in_map_iff in Hc.
    destruct Hc as [r [<- Hr]]. rewrite Forall_forall in Hrows.
    exact (Hrows r Hr). }
  assert (Hhex : Forall (fun r => is_hash64 (f_phash r)) (fingerprints d) ->
                 Forall (fun r => hex_text (f_phash r)) (fingerprints d)).
  { intro Hrows. eapply Forall_impl; [|exact Hrows].
    intro r. apply hash64_hex_text. }
  split; [|split].
  - intros Hids Hq Hrows Hlimit.
    destruct (Hranked Hids (hash64_hex_text q Hq) (Hhex Hrows) Hlimit)
      as [ranked [Hsearch [Hin Hsorted]]].
    exists ranked. split; [exact Hsearch|].
    assert (Hmem : forall c, In c ranked -> is_hash64 (c_phash c)).
    { intros c Hc. apply Hstored; [exact Hrows|]. now apply Hin. }
    destruct Hq as [nq Hq]. split.
    + intro c. rewrite Hin. split; intros [Hc Hb]; split; try exact Hc.
      * destruct (Hstored Hrows c Hc) as [nc Hnc].
        now apply (within_hamming_as_computed q t c nq nc Hq Hnc).
      * destruct (Hstored Hrows c Hc) as [nc Hnc].
        now apply (within_hamming_as_computed q t c nq nc Hq Hnc).
    + apply (StronglySorted_weaken_on
               (fun c => is_hash64 (c_phash c)) (ranks_before q)).
      * intros a b Pa Pb. apply ranks_before_as_computed; eauto.
        now exists nq.
      * rewrite Forall_forall. exact Hmem.
      * exact Hsorted.
  - exact Hempty.
  - intros Hq Hrows Hfar.
    apply Hnone; [now apply hash64_hex_text | now apply Hhex |].
    intros c Hc Hb. apply (Hfar c Hc).
    destruct Hq as [nq Hq]. destruct (Hstored Hrows c Hc) as [nc Hnc].
    now apply (within_hamming_as_computed q t c nq nc Hq Hnc).
Qed.

(** Stage 1 on the library with a budget of 32 bits and a limit of 3:
    fingerprint 1 is at distance 0, fingerprints 3, 4 and 5 at 32 and
    fingerprint 2 at 64, and the search gives 1, 3, 4.  A query far from
    every fingerprint gives the empty list. *)
Lemma search_by_phash_ranked_witness :
  (exists ranked,
      search_by_phash Scenario.library "0000000000000000" 32 3 =
        Returned (firstn 3 ranked) /\
      map c_id (firstn 3 ranked) = [1; 3; 4] /\
      (forall c, In c ranked <->
                 In c (stored Scenario.library) /\
                 within_hamming "0000000000000000" 32 c) /\
      StronglySorted (ranks_before_hamming "0000000000000000") ranked) /\
  search_by_phash Scenario.library "3333333333333333" 15 50 = Returned [].
Proof.
  assert (Hrows : Forall (fun r => is_hash64 (f_phash r))
                         (fingerprints Scenario.library)).
  { each_row ltac:(eexists; split; [vm_compute; reflexivity | cbn; lia]). }
  split.
  - destruct (proj1 (search_by_phash_ranked
                       Scenario.library "0000000000000000" 32 3))
      as [ranked [Hsearch [Hin Hsorted]]].
    + change (StronglySorted Z.lt [1; 2; 3; 4; 5]).
      repeat first [apply SSorted_nil | apply SSorted_cons
                   | apply Forall_nil | apply Forall_cons | reflexivity].
    + eexists. split; [vm_compute; reflexivity | cbn; lia].
    + exact Hrows.
    + lia.
    + exists ranked. split; [exact Hsearch|]. split; [|split; assumption].
      change (Z.to_nat 3) with 3%nat in Hsearch.
      let v := eval vm_compute in
                 (search_by_phash Scenario.library "0000000000000000" 32 3)
      in assert (E : search_by_phash Scenario.library "0000000000000000"
                                     32 3 = v)
        by (vm_compute; reflexivity).
      rewrite Hsearch in E.
      apply (f_equal (fun o => map c_id (value_or [] o))) in E.
      exact E.
  - apply (proj2 (proj2 (search_by_phash_ranked
                           Scenario.library "3333333333333333" 15 50))).
    + eexists. split; [vm_compute; reflexivity | cbn; lia].
    + exact Hrows.
    + intros c Hc [nq [nc [[Hq _] [[Hnc _] Hle]]]].
      destruct Hc as [<-|[<-|[<-|[<-|[<-|[]]]]]];
        vm_compute in Hq; vm_compute in Hnc; inversion Hq; inversion Hnc;
        subst nq nc; vm_compute in Hle; now apply Hle.
Defined.

Lemma not_below_total : forall a b,
  Np.not_below a b = true \/ Np.not_below b a = true.
Proof.
  intros [|x] [|y]; cbn; auto.
  destruct (Qlt_le_dec x y) as [H|H].
  - right. apply Qle_bool_iff. now apply Qlt_le_weak.
  - left. now apply Qle_bool_iff.
Qed.

Lemma not_below_trans : forall a b c,
  Np.not_below a b = true -> Np.not_below b c = true ->
  Np.not_below a c = true.
Proof.
  intros [|x] [|y] [|z]; cbn; try congruence.
  rewrite !Qle_bool_iff. intros H1 H2. eapply Qle_trans; eassumption.
Qed.

Lemma not_below_numbers : forall a b,
  Np.number a -> Np.number b ->
  negb (Np.lt a b) = Np.not_below a b.
Proof.
  intros a b [x ->] [y ->]. cbn. apply negb_involutive.
Qed.

Lemma ge_float_number : forall s t,
  Np.ge_float s t = true <->
  exists x, s = Np.num x /\ (Np.as_float32 t <= x)%Q.
Proof.
  intros [|x] t; cbn; split.
  - discriminate.
  - intros [x [H _]]. discriminate.
  - intro H. exists x. split; [reflexivity | now apply Qle_bool_iff].
  - intros [y [H Hle]]. inversion H; subst. now apply Qle_bool_iff.
Qed.

Lemma ge_float_false_number : forall x t,
  Np.ge_float (Np.num x) t = false -> (x < Np.as_float32 t)%Q.
Proof.
  intros x t H. cbn in H. apply Qnot_le_lt. intro C.
  apply Qle_bool_iff in C. congruence.
Qed.

Lemma filter_nil_all {A} (keep : A -> bool) : forall l,
  filter keep l = [] -> forall z, In z l -> keep z = false.
Proof.
  induction l as [|x l IH]; intros H z Hz; [destruct Hz|].
  cbn [filter] in H. destruct (keep x) eqn:K; [discriminate|].
  destruct Hz as [<-|Hz]; [exact K | now apply IH].
Qed.

Lemma sort_reverse_perm : forall J l, Permutation (Np.sort_reverse J l) l.
Proof.
  intros J l. unfold Np.sort_reverse.
  destruct (Np.has_nan l);
    [apply Np.sort_with_nan_perm | apply stable_sort_perm].
Qed.

Lemma sort_reverse_In : forall J l m, In m (Np.sort_reverse J l) <-> In m l.
Proof.
  intros J l m. split; apply Permutation_in;
    [apply sort_reverse_perm | symmetry; apply sort_reverse_perm].
Qed.

Lemma sort_reverse_numbers : forall J l,
  Forall (fun m => Np.number (Np.fm_similarity m)) l ->
  Np.sort_reverse J l =
  stable_sort
    (fun a b => negb (Np.lt (Np.fm_similarity a) (Np.fm_similarity b))) l.
Proof.
  intros J l H. unfold Np.sort_reverse.
  replace (Np.has_nan l) with false; [reflexivity|].
  symmetry. unfold Np.has_nan.
  induction H as [|m l [x Hm] _ IH]; [reflexivity|].
  cbn [existsb]. now rewrite Hm, IH.
Qed.

Lemma sort_reverse_one_run : forall J l,
  Np.one_run l = true -> Np.sort_reverse J l = l.
Proof.
  intros J l H. unfold Np.sort_reverse.
  destruct (Np.has_nan l); [now apply Np.sort_with_nan_run|].
  induction l as [|a [|b l] IH]; [reflexivity | reflexivity |].
  cbn [Np.one_run] in H. apply andb_prop in H. destruct H as [Hab Hrun].
  change (stable_sort
            (fun a b => negb (Np.lt (Np.fm_similarity a)
                                    (Np.fm_similarity b))) (a :: b :: l))
    with (insert_by
            (fun a b => negb (Np.lt (Np.fm_similarity a)
                                    (Np.fm_similarity b))) a
            (stable_sort
               (fun a b => negb (Np.lt (Np.fm_similarity a)
                                       (Np.fm_similarity b))) (b :: l))).
  rewrite (IH Hrun). cbn [insert_by]. now rewrite Hab.
Qed.

Section FloatStage2.

Variable X : externals.
Variable J : Np.interpreter.

Lemma np_score_candidate_inv : forall d q c m,
  Np.score_candidate X d q c = Returned m ->
  exists dist row,
    cosine X q (c_cnn_blob c) = Returned dist /\
    select_media d (c_media_id c) = Some row /\
    m = {| Np.fm_media_id := c_media_id c; Np.fm_title := m_title row;
           Np.fm_timestamp := c_timestamp c;
           Np.fm_similarity :=
             if Np.zero_magnitude q || Np.zero_magnitude (c_cnn_blob c)
             then Np.nan else Np.num (Np.float32 (1 - dist)) |}.
Proof.
  intros d q c m. unfold Np.score_candidate, Np.scipy_cosine, fetch_title.
  destruct (cosine X q (c_cnn_blob c)) as [dist|e]; cbn [bind];
    [|discriminate].
  destruct (select_media d (c_media_id c)) as [row|]; cbn [bind];
    [|discriminate].
  intro H. inversion H. exists dist, row.
  split; [reflexivity|]. split; [reflexivity|].
  now destruct (Np.zero_magnitude q || Np.zero_magnitude (c_cnn_blob c)).
Qed.

(** Away from vectors of magnitude 0 the score in floating point is the
    rational score with the similarity rounded to [float32]. *)
Lemma np_score_candidate_rounds : forall d q c,
  Np.zero_magnitude q || Np.zero_magnitude (c_cnn_blob c) = false ->
  Np.score_candidate X d q c =
  (m <- score_candidate X d q c ;;
   Returned {| Np.fm_media_id := fm_media_id m; Np.fm_title := fm_title m;
               Np.fm_timestamp := fm_timestamp m;
               Np.fm_similarity :=
                 Np.num (Np.float32 (fm_similarity m)) |}).
Proof.
  intros d q c Hz.
  unfold Np.score_candidate, Np.scipy_cosine, score_candidate.
  rewrite Hz.
  destruct (cosine X q (c_cnn_blob c)) as [dist|e]; cbn [bind];
    [|reflexivity].
  now destruct (fetch_title d (c_media_id c)).
Qed.

Lemma np_score_candidate_total : forall d q c,
  (exists dist, cosine X q (c_cnn_blob c) = Returned dist) ->
  (exists row, select_media d (c_media_id c) = Some row) ->
  exists m, Np.score_candidate X d q c = Returned m.
Proof.
  intros d q c [dist Hd] [row Hrow].
  unfold Np.score_candidate, Np.scipy_cosine, fetch_title.
  rewrite Hd, Hrow. cbn [bind]. eauto.
Qed.

Lemma np_verify_returned : forall d cands q out,
  Np.verify_with_cnn X J d cands q = Returned out ->
  exists scored,
    for_each (Np.score_candidate X d q) cands = Returned scored /\
    out = Np.sort_reverse J scored.
Proof.
  intros d cands q out H. unfold Np.verify_with_cnn in H.
  destruct (for_each (Np.score_candidate X d q) cands) as [scored|e];
    [|discriminate].
  cbn [bind] in H. inversion H. eauto.
Qed.

(** Without a vector of magnitude 0 every similarity is a number. *)
Lemma np_scored_numbers : forall d q cands scored,
  Np.zero_magnitude q = false ->
  Forall (fun c => Np.zero_magnitude (c_cnn_blob c) = false) cands ->
  for_each (Np.score_candidate X d q) cands = Returned scored ->
  Forall (fun m => Np.number (Np.fm_similarity m)) scored.
Proof.
  intros d q cands scored Hq Hc Hs. rewrite Forall_forall in *.
  intros m Hm.
  destruct (for_each_In _ _ _ Hs m Hm) as [c [Hin Hsc]].
  apply np_score_candidate_inv in Hsc.
  destruct Hsc as [dist [row [_ [_ ->]]]]. cbn.
  rewrite Hq, (Hc c Hin). cbn. eexists. reflexivity.
Qed.

(** On numbers the sort leaves the list in descending order. *)
Lemma np_sorted_numbers : forall scored : list Np.frame_match,
  Forall (fun m => Np.number (Np.fm_similarity m)) scored ->
  StronglySorted
    (fun a b => Np.at_most (Np.fm_similarity b) (Np.fm_similarity a))
    (Np.sort_reverse J scored).
Proof.
  intros scored Hnum. rewrite (sort_reverse_numbers J scored Hnum).
  rewrite (stable_sort_ext _
             (fun a b => Np.not_below (Np.fm_similarity a)
                                      (Np.fm_similarity b))).
  - apply (StronglySorted_weaken_on
             (fun m => Np.number (Np.fm_similarity m))
             (fun a b => Np.not_below (Np.fm_similarity a)
                                      (Np.fm_similarity b) = true)).
    + intros a b [x Ha] [y Hb]. rewrite Ha, Hb. cbn.
      now rewrite Qle_bool_iff.
    + now apply stable_sort_Forall.
    + apply stable_sort_sorted.
      * intros a b. apply not_below_total.
      * intros a b c. apply not_below_trans.
  - rewrite Forall_forall in Hnum. intros a b Ha Hb.
    apply not_below_numbers; auto.
Qed.

Lemma np_match_frame_some : forall self f m,
  Np._match_frame X J self f = Returned (Some m) ->
  exists cands scored rest,
    search_by_phash (db self) (compute_phash X f) (phash_threshold self) 50
      = Returned cands /\
    for_each (Np.score_candidate X (db self) (compute_cnn_features X f))
             cands = Returned scored /\
    Np.valid_matches (cnn_threshold self) (Np.sort_reverse J scored)
      = m :: rest.
Proof.
  intros self f m H. unfold Np._match_frame in H.
  destruct (search_by_phash (db self) (compute_phash X f)
                            (phash_threshold self) 50) as [cands|e];
    cbn [bind] in H; [|discriminate].
  destruct cands as [|c cands]; [discriminate|].
  destruct (Np.verify_with_cnn X J (db self) (c :: cands)
                               (compute_cnn_features X f))
    as [out|e] eqn:Hv; cbn [bind] in H; [|discriminate].
  apply np_verify_returned in Hv. destruct Hv as [scored [Hs ->]].
  destruct (Np.valid_matches _ _) as [|best rest] eqn:Hvalid;
    [discriminate|].
  inversion H; subst best. exists (c :: cands), scored, rest. auto.
Qed.

Lemma np_match_frame_verified : forall self f cands out,
  search_by_phash (db self) (compute_phash X f) (phash_threshold self) 50
    = Returned cands ->
  cands <> [] ->
  Np.verify_with_cnn X J (db self) cands (compute_cnn_features X f)
    = Returned out ->
  Np._match_frame X J self f =
  Returned (hd_error (Np.valid_matches (cnn_threshold self) out)).
Proof.
  intros self f cands out Hs Hne Hv. unfold Np._match_frame.
  rewrite Hs. cbn [bind]. destruct cands as [|c cands]; [congruence|].
  rewrite Hv. cbn [bind].
  now destruct (Np.valid_matches (cnn_threshold self) out).
Qed.

Lemma np_match_frame_none : forall self f,
  Np._match_frame X J self f = Returned None <->
  exists cands scored,
    search_by_phash (db self) (compute_phash X f) (phash_threshold self) 50
      = Returned cands /\
    for_each (Np.score_candidate X (db self) (compute_cnn_features X f))
             cands = Returned scored /\
    Np.valid_matches (cnn_threshold self) scored = [].
Proof.
  intros self f. unfold Np._match_frame. split.
  - destruct (search_by_phash (db self) (compute_phash X f)
                              (phash_threshold self) 50) as [cands|e];
      cbn [bind]; [|discriminate].
    destruct cands as [|c cands].
    + intros _. exists [], []. auto.
    + destruct (Np.verify_with_cnn X J (db self) (c :: cands)
                                   (compute_cnn_features X f))
        as [out|e] eqn:Hv; cbn [bind]; [|discriminate].
      apply np_verify_returned in Hv. destruct Hv as [scored [Hs ->]].
      destruct (Np.valid_matches _ _) as [|best rest] eqn:Hvalid;
        [|discriminate].
      intros _. exists (c :: cands), scored.
      split; [reflexivity|]. split; [exact Hs|].
      unfold Np.valid_matches in *.
      apply filter_none. intros m Hm.
      destruct (Np.ge_float (Np.fm_similarity m) (cnn_threshold self))
        eqn:G; [|reflexivity].
      assert (I : In m (@nil Np.frame_match)); [|destruct I].
      rewrite <- Hvalid. apply filter_In. split; [|exact G].
      now apply sort_reverse_In.
  - intros [cands [scored [Hs [Hsc Hnone]]]]. rewrite Hs. cbn [bind].
    destruct cands as [|c cands]; [reflexivity|].
    unfold Np.verify_with_cnn. rewrite Hsc. cbn [bind].
    unfold Np.valid_matches in *.
    rewrite filter_none; [reflexivity|].
    intros m Hm. apply sort_reverse_In in Hm.
    exact (filter_nil_all _ scored Hnone m Hm).
Qed.



(** C10, as the code has it.  [verify_with_cnn] applies no similarity
    floor: whenever it returns, it returns one scored result per
    candidate, whatever the similarities.  It returns exactly when, for
    every candidate, the cosine call returns and the media row exists.
    The floor is the caller's: a match that [_match_frame] returns has
    passed it, and [_match_frame] returns the first result of
    [verify_with_cnn] that passes it. *)
Theorem verify_with_cnn_one_per_candidate :
  forall (d : database) (candidates : list candidate)
         (query_features : features),
    (forall out,
        Np.verify_with_cnn X J d candidates query_features = Returned out ->
        length out = length candidates /\
        exists scored,
          for_each (Np.score_candidate X d query_features) candidates
            = Returned scored /\
          Permutation out scored)
    /\ ((exists out,
            Np.verify_with_cnn X J d candidates query_features
              = Returned out)
        <->
        Forall (fun c =>
                  (exists dist,
                      cosine X query_features (c_cnn_blob c) = Returned dist) /\
                  (exists row, select_media d (c_media_id c) = Some row))
               candidates)
    /\ (forall self f m,
           Np._match_frame X J self f = Returned (Some m) ->
           Np.ge_float (Np.fm_similarity m) (cnn_threshold self) = true)
    /\ (forall self f out,
           db self = d ->
           compute_cnn_features X f = query_features ->
           search_by_phash d (compute_phash X f) (phash_threshold self) 50
             = Returned candidates ->
           candidates <> [] ->
           Np.verify_with_cnn X J d candidates query_features
             = Returned out ->
           Np._match_frame X J self f =
           Returned (hd_error (Np.valid_matches (cnn_threshold self) out))).
Proof.
  intros d cands q. split; [|split; [|split]].
  - intros out H. apply np_verify_returned in H.
    destruct H as [scored [Hs ->]]. split.
    + rewrite (Permutation_length (sort_reverse_perm J scored)).
      eapply for_each_length; eassumption.
    + exists scored. split; [exact Hs | apply sort_reverse_perm].
  - pose (dflt := {| Np.fm_media_id := 0; Np.fm_title := EmptyString;
                     Np.fm_timestamp := 0%Q; Np.fm_similarity := Np.nan |}).
    split.
    + intros [out H]. apply np_verify_returned in H.
      destruct H as [scored [Hs _]].
      apply (for_each_returned _ dflt) in Hs. destruct Hs as [_ Hall].
      eapply Forall_impl; [|exact Hall]. cbn. intros c [m Hm].
      apply np_score_candidate_inv in Hm.
      destruct Hm as [dist [row [Hd [Hrow _]]]]. eauto.
    + intro Hall.
      assert (Hret : Forall (fun c => exists m,
                        Np.score_candidate X d q c = Returned m) cands).
      { eapply Forall_impl; [|exact Hall]. cbn. intros c [H1 H2].
        now apply np_score_candidate_total. }
      pose proof (for_each_total (Np.score_candidate X d q) dflt cands Hret)
        as Hs.
      unfold Np.verify_with_cnn. rewrite Hs. cbn [bind]. eauto.
  - intros self f m Hm. apply np_match_frame_some in Hm.
    destruct Hm as [cs [scored [rest [_ [_ Hvalid]]]]].
    assert (I : In m (m :: rest)) by now left.
    rewrite <- Hvalid in I. apply filter_In in I. tauto.
  - intros self f out <- <- Hs Hne Hv.
    now apply (np_match_frame_verified self f cands).
Qed.

(** X11.  A match returned by [_match_frame] is the score of a Stage-1
    candidate and reaches the similarity floor as numpy compares it;
    when no score is [nan], no candidate scores higher.  No match is
    returned exactly when there is no candidate or no score passes the
    floor. *)
Theorem match_frame_best :
  forall (self : VisualRecognizer) (f : frame X),
    (forall m,
        Np._match_frame X J self f = Returned (Some m) ->
        exists cands scored,
          search_by_phash (db self) (compute_phash X f)
                          (phash_threshold self) 50 = Returned cands /\
          for_each (Np.score_candidate X (db self)
                                       (compute_cnn_features X f))
                   cands = Returned scored /\
          In m scored /\
          Np.ge_float (Np.fm_similarity m) (cnn_threshold self) = true /\
          (Forall (fun m' => Np.number (Np.fm_similarity m')) scored ->
           forall m', In m' scored ->
                      Np.at_most (Np.fm_similarity m')
                                 (Np.fm_similarity m))) /\
    (Np._match_frame X J self f = Returned None <->
     exists cands scored,
       search_by_phash (db self) (compute_phash X f)
                       (phash_threshold self) 50 = Returned cands /\
       for_each (Np.score_candidate X (db self)
                                    (compute_cnn_features X f))
                cands = Returned scored /\
       (forall m', In m' scored ->
                   Np.ge_float (Np.fm_similarity m') (cnn_threshold self)
                   = false)).
Proof.
  intros self f. split.
  - intros m Hm. apply np_match_frame_some in Hm.
    destruct Hm as [cands [scored [rest [Hs [Hsc Hvalid]]]]].
    exists cands, scored. split; [exact Hs|]. split; [exact Hsc|].
    assert (I : In m (m :: rest)) by now left.
    rewrite <- Hvalid in I. apply filter_In in I. destruct I as [I G].
    apply sort_reverse_In in I.
    split; [exact I|]. split; [exact G|].
    intros Hnum m' Hm'.
    pose proof (np_sorted_numbers scored Hnum) as Hsorted.
    apply (StronglySorted_filter_keep _
             (fun m => Np.ge_float (Np.fm_similarity m)
                                   (cnn_threshold self))) in Hsorted.
    fold (Np.valid_matches (cnn_threshold self)
                           (Np.sort_reverse J scored)) in Hsorted.
    rewrite Hvalid in Hsorted.
    inversion Hsorted as [|? ? _ Hall]; subst.
    apply ge_float_number in G. destruct G as [x [Ex Hx]].
    rewrite Forall_forall in Hnum. destruct (Hnum m' Hm') as [y Ey].
    destruct (Np.ge_float (Np.fm_similarity m') (cnn_threshold self))
      eqn:G'.
    + assert (I' : In m' (m :: rest)).
      { rewrite <- Hvalid. apply filter_In.
        split; [now apply sort_reverse_In | exact G']. }
      destruct I' as [<-|I'].
      * rewrite Ex. cbn. apply Qle_refl.
      * rewrite Forall_forall in Hall. now apply Hall.
    + rewrite Ey in G'. apply ge_float_false_number in G'.
      rewrite Ex, Ey. cbn. apply Qlt_le_weak.
      eapply Qlt_le_trans; eassumption.
  - rewrite np_match_frame_none. split.
    + intros [cands [scored [Hs [Hsc Hnone]]]]. exists cands, scored.
      split; [exact Hs|]. split; [exact Hsc|].
      intros m' Hm'. exact (filter_nil_all _ scored Hnone m' Hm').
    + intros [cands [scored [Hs [Hsc Hnone]]]]. exists cands, scored.
      split; [exact Hs|]. split; [exact Hsc|].
      now apply filter_none.
Qed.

End FloatStage2.




(** Beside a [nan] the sort leaves the numbers where they were: in the
    store [blank] Stage 1 gives the fingerprints in the order 1, 2, 3,
    Stage 2 scores them 0.7, [nan] and 0.9, which is one run, and the
    output has 0.7 in front of 0.9. *)
Example stage2_unsorted_beside_nan :
  forall J : Np.interpreter,
  exists a b,
    Np.stage2_verify Footage.blank_files J Footage.blank
                     (stored Footage.blank) [1%Q] (6 # 10)
      = Returned [a; b] /\
    Np.below (Np.fm_similarity a) (Np.fm_similarity b) /\
    Np._match_frame Footage.blank_files J (default_recognizer Footage.blank)
                    ("0000000000000000"%string, [1%Q]) = Returned (Some a).
Proof.
  intro J.
  assert (Hscored :
            exists scored,
              for_each (Np.score_candidate Footage.blank_files Footage.blank
                                           [1%Q])
                       (stored Footage.blank) = Returned scored /\
              Np.one_run scored = true /\
              exists a b,
                Np.valid_matches (6 # 10) scored = [a; b] /\
                Np.below (Np.fm_similarity a) (Np.fm_similarity b)).
  { eexists. split; [vm_compute; reflexivity|].
    split; [vm_compute; reflexivity|].
    eexists. eexists. split; vm_compute; reflexivity. }
  destruct Hscored as [scored [Hs [Hrun [a [b [Hvalid Hbelow]]]]]].
  assert (Hv : Np.verify_with_cnn Footage.blank_files J Footage.blank
                                  (stored Footage.blank) [1%Q]
               = Returned scored).
  { unfold Np.verify_with_cnn. rewrite Hs. cbn [bind].
    now rewrite sort_reverse_one_run. }
  exists a, b. split; [|split; [exact Hbelow|]].
  - unfold Np.stage2_verify. rewrite Hv. cbn [bind]. now rewrite Hvalid.
  - rewrite (np_match_frame_verified
               Footage.blank_files J (default_recognizer Footage.blank)
               ("0000000000000000"%string, [1%Q])
               (stored Footage.blank) scored).
    + cbn [cnn_threshold default_recognizer]. now rewrite Hvalid.
    + vm_compute. reflexivity.
    + discriminate.
    + exact Hv.
Qed.

(** C10 fails as stated: the fingerprint of the store [orphans] has a
    vector of the query's shape and no media row, and [verify_with_cnn]
    raises instead of returning a result for it. *)
Lemma verify_needs_media_rows :
  ~ Np.one_result_per_candidate
      Scenario.files Footage.leaves_as_is Footage.orphans
      (stored Footage.orphans) [1%Q].
Proof.
  unfold Np.one_result_per_candidate. intro H.
  destruct H as [out [Hout _]].
  - vm_compute. discriminate.
  - each_row returned_by_evaluation.
  - vm_compute in Hout. discriminate.
Qed.



(** [verify_with_cnn] on all the fingerprints of the library gives five
    results, one of them at 0.81; the recognizer [wide], which asks for
    0.88, gets a match that passes its floor. *)
Lemma verify_with_cnn_one_per_candidate_witness :
  (exists out,
      Np.verify_with_cnn Scenario.files Footage.leaves_as_is
                         Scenario.library
                         (stored Scenario.library) [1%Q] = Returned out /\
      length out = 5%nat /\
      Exists (fun m => Np.ge_float (Np.fm_similarity m) (88 # 100) = false)
             out) /\
  (exists m,
      Np._match_frame Scenario.files Footage.leaves_as_is Footage.wide
                      ("0000000000000000"%string, [1%Q])
        = Returned (Some m) /\
      Np.ge_float (Np.fm_similarity m) (88 # 100) = true).
Proof.
  pose proof (verify_with_cnn_one_per_candidate
                Scenario.files Footage.leaves_as_is Scenario.library
                (stored Scenario.library) [1%Q]) as [Hall [_ [Hfloor _]]].
  split.
  - destruct (Np.verify_with_cnn Scenario.files Footage.leaves_as_is
                                 Scenario.library
                                 (stored Scenario.library) [1%Q])
      as [out|e] eqn:Hout; [|vm_compute in Hout; discriminate].
    exists out. split; [reflexivity|].
    split; [exact (proj1 (Hall out eq_refl))|].
    vm_compute in Hout. inversion Hout.
    do 4 apply Exists_cons_tl. apply Exists_cons_hd. reflexivity.
  - destruct (Np._match_frame Scenario.files Footage.leaves_as_is
                              Footage.wide
                              ("0000000000000000"%string, [1%Q]))
      as [[m|]|e] eqn:Hm; [| vm_compute in Hm; discriminate ..].
    exists m. split; [reflexivity|].
    exact (Hfloor Footage.wide ("0000000000000000"%string, [1%Q]) m Hm).
Defined.

(** The recognizer [wide] on a frame of the first fingerprint: five
    candidates, and the match is a highest score. *)
Lemma match_frame_best_witness :
  exists m cands scored,
    Np._match_frame Scenario.files Footage.leaves_as_is Footage.wide
                    ("0000000000000000"%string, [1%Q])
      = Returned (Some m) /\
    search_by_phash Scenario.library "0000000000000000" 64 50 =
      Returned cands /\
    length cands = 5%nat /\
    for_each (Np.score_candidate Scenario.files Scenario.library [1%Q])
             cands = Returned scored /\
    In m scored /\
    Np.ge_float (Np.fm_similarity m) (88 # 100) = true /\
    (forall m', In m' scored ->
                Np.at_most (Np.fm_similarity m') (Np.fm_similarity m)).
Proof.
  destruct (Np._match_frame Scenario.files Footage.leaves_as_is
                            Footage.wide
                            ("0000000000000000"%string, [1%Q]))
    as [[m|]|e] eqn:Hm; [| vm_compute in Hm; discriminate ..].
  destruct (proj1 (match_frame_best
                     Scenario.files Footage.leaves_as_is Footage.wide
                     ("0000000000000000"%string, [1%Q])) m Hm)
    as [cands [scored [Hs [Hsc [Hin [Hfloor Hmax]]]]]].
  exists m, cands, scored. split; [reflexivity|].
  split; [exact Hs|].
  assert (Hcands : Forall (fun c => Np.zero_magnitude (c_cnn_blob c) = false)
                          cands /\ length cands = 5%nat).
  { vm_compute in Hs. inversion Hs.
    split; [each_row ltac:(vm_compute; reflexivity) | reflexivity]. }
  destruct Hcands as [Hnonzero Hlen].
  split; [exact Hlen|]. split; [exact Hsc|]. split; [exact Hin|].
  split; [exact Hfloor|].
  apply Hmax.
  exact (np_scored_numbers Scenario.files Scenario.library [1%Q] cands
                           scored eq_refl Hnonzero Hsc).
Defined.

(* ================================================================== *)
(** ** The extraction script in floating point *)

Lemma fraction_truncates : forall x : Q,
  (0 <= x)%Q -> (x < 1)%Q -> Script.py_int x = 0.
Proof.
  intros [a b] H0 H1. unfold Script.py_int, Qle, Qlt in *. cbn in *.
  apply Z.quot_small. lia.
Qed.

Lemma nearest_even_bounds : forall (y : Q) (n : Z),
  (0 <= y)%Q -> (y <= inject_Z n)%Q ->
  0 <= Np.nearest_even y <= n.
Proof.
  intros y n H0 Hn. unfold Np.nearest_even.
  pose proof (Qfloor_le y) as Hfl.
  pose proof (Qlt_floor y) as Hfu.
  assert (F0 : 0 <= Qfloor y).
  { change 0 with (Qfloor 0). now apply Qfloor_resp_le. }
  assert (Fn : Qfloor y <= n).
  { rewrite Zle_Qle. eapply Qle_trans; eassumption. }
  destruct (Z.eq_dec (Qfloor y) n) as [E|E].
  - assert (Hy : (y - inject_Z (Qfloor y) <= 0)%Q).
    { rewrite E. unfold Qminus. rewrite <- (Qplus_opp_r (inject_Z n)).
      apply Qplus_le_l. exact Hn. }
    destruct (Qcompare (y - inject_Z (Qfloor y)) (1 # 2)) eqn:C.
    + apply Qeq_alt in C. rewrite C in Hy. vm_compute in Hy.
      now contradiction Hy.
    + lia.
    + apply Qgt_alt in C. exfalso.
      apply (Qlt_irrefl (1 # 2)).
      eapply Qlt_le_trans; [exact C|].
      eapply Qle_trans; [exact Hy | by_arithmetic].
  - destruct (Qcompare (y - inject_Z (Qfloor y)) (1 # 2));
      try destruct (Z.even (Qfloor y)); lia.
Qed.

(** A positive real of at most one half rounds to a float between 0 and
    one half. *)
Lemma of_real_small : forall q : Q,
  (0 < q)%Q -> (q <= 1 # 2)%Q ->
  exists r, F64.of_real q = F64.fin r /\ (0 <= r)%Q /\ (r <= 1 # 2)%Q.
Proof.
  intros q Hpos Hhalf.
  assert (Hround : exists m E,
             Np.float64 q = (inject_Z m * / inject_Z (2 ^ E))%Q /\
             1 <= E /\ 0 <= m <= 2 ^ (E - 1)).
  { unfold Np.float64, Np.round.
    destruct (Qeq_bool q 0) eqn:Z0.
    { apply Qeq_bool_iff in Z0. rewrite Z0 in Hpos.
      now apply Qlt_irrefl in Hpos. }
    set (e := Z.max (Np.exponent q - (53 - 1)) (-1074)).
    assert (He : e <= -1).
    { assert (Hk : Np.exponent q <= 0); [|unfold e; lia].
      unfold Np.exponent.
      assert (Hlog : Z.log2 (Z.abs (Qnum q)) - Z.log2 (Z.pos (Qden q))
                     <= 0).
      { clear e. destruct q as [a b]. unfold Qlt, Qle in Hpos, Hhalf.
        cbn [Qnum Qden] in *.
        assert (Z.log2 (Z.abs a) <= Z.log2 (Z.pos b)); [|lia].
        apply Z.log2_le_mono. lia. }
      destruct (Qle_bool _ _); lia. }
    exists (Np.nearest_even (q / Np.pow2 e)), (- e).
    assert (Hp : Np.pow2 e = (/ inject_Z (2 ^ (- e)))%Q).
    { unfold Np.pow2. destruct (Z.leb_spec 0 e); [lia | reflexivity]. }
    rewrite Hp. split; [reflexivity|]. split; [lia|].
    apply nearest_even_bounds.
    - unfold Qdiv. rewrite Qinv_involutive.
      apply Qmult_le_0_compat; [now apply Qlt_le_weak|].
      change 0%Q with (inject_Z 0). rewrite <- Zle_Qle.
      apply Z.pow_nonneg. lia.
    - unfold Qdiv. rewrite Qinv_involutive.
      replace (2 ^ (- e)) with (2 * 2 ^ (- e - 1))
        by (rewrite <- Z.pow_succ_r by lia; f_equal; lia).
      rewrite inject_Z_mult.
      setoid_replace (q * (inject_Z 2 * inject_Z (2 ^ (- e - 1))))%Q
        with ((q * inject_Z 2) * inject_Z (2 ^ (- e - 1)))%Q by ring.
      setoid_replace (inject_Z (2 ^ (- e - 1)))
        with (1 * inject_Z (2 ^ (- e - 1)))%Q at 2 by ring.
      apply Qmult_le_compat_r.
      + setoid_replace 1%Q with ((1 # 2) * inject_Z 2)%Q by reflexivity.
        apply Qmult_le_compat_r; [exact Hhalf | discriminate].
      + change 0%Q with (inject_Z 0). rewrite <- Zle_Qle.
        apply Z.pow_nonneg. lia. }
  destruct Hround as [m [E [Hr [HE [Hm0 Hm1]]]]].
  assert (Hpow : (0 < inject_Z (2 ^ E))%Q).
  { change 0%Q with (inject_Z 0). rewrite <- Zlt_Qlt.
    apply Z.pow_pos_nonneg; lia. }
  assert (R0 : (0 <= Np.float64 q)%Q).
  { rewrite Hr. apply Qmult_le_0_compat.
    - change 0%Q with (inject_Z 0). now rewrite <- Zle_Qle.
    - apply Qlt_le_weak. now apply Qinv_lt_0_compat. }
  assert (R1 : (Np.float64 q <= 1 # 2)%Q).
  { rewrite Hr. apply Qle_shift_div_r; [exact Hpow|].
    replace (2 ^ E) with (2 * 2 ^ (E - 1))
      by (rewrite <- Z.pow_succ_r by lia; f_equal; lia).
    rewrite inject_Z_mult.
    setoid_replace ((1 # 2) * (inject_Z 2 * inject_Z (2 ^ (E - 1))))%Q
      with (inject_Z (2 ^ (E - 1))) by ring.
    now rewrite <- Zle_Qle. }
  exists (Np.float64 q). split; [|split; assumption].
  unfold F64.of_real.
  destruct (Qle_bool (Np.pow2 1024) (Qabs (Np.float64 q))) eqn:B;
    [|reflexivity].
  exfalso. apply Qle_bool_iff in B.
  rewrite Qabs_pos in B by exact R0.
  assert (C : (Np.pow2 1024 <= 1 # 2)%Q)
    by (eapply Qle_trans; eassumption).
  vm_compute in C. now apply C.
Qed.

Section FloatExtraction.

Variable X : externals.
Variable S : script_externals X.

Lemma int_truediv_quotient : forall n b a,
  F64.of_int n = Script.Done a -> F64.is_zero b = false ->
  F64.int_truediv n b = Script.Done (F64.quotient n b).
Proof.
  intros n b a Ha Hb. unfold F64.quotient, F64.int_truediv.
  rewrite Ha. cbn [Script.and_then]. unfold F64.truediv. now rewrite Hb.
Qed.

Lemma int_truediv_divisor : forall n b t,
  F64.int_truediv n b = Script.Done t -> F64.is_zero b = false.
Proof.
  intros n b t. unfold F64.int_truediv.
  destruct (F64.of_int n); cbn [Script.and_then]; [|discriminate].
  unfold F64.truediv. now destruct (F64.is_zero b).
Qed.

Lemma int_truediv_zero : forall n b a,
  F64.of_int n = Script.Done a -> F64.is_zero b = true ->
  F64.int_truediv n b = Script.Failed Script.ZeroDivisionError.
Proof.
  intros n b a Ha Hb. unfold F64.int_truediv.
  rewrite Ha. cbn [Script.and_then]. unfold F64.truediv. now rewrite Hb.
Qed.

Lemma f64_sample_loop_done : forall video_fps frame_interval reads k acc,
  F64.is_zero video_fps = false -> frame_interval <> 0 ->
  (forall j, k <= j < k + Z.of_nat (length reads) ->
             exists a, F64.of_int j = Script.Done a) ->
  F64.sample_loop X video_fps frame_interval reads k acc =
  Script.Done
    (acc ++ F64.sampled X video_fps frame_interval
                        (enumerate_from k reads)).
Proof.
  intros video_fps I reads. induction reads as [|f reads IH];
    intros k acc Hfps HI Hconv.
  - cbn. now rewrite app_nil_r.
  - cbn [F64.sample_loop enumerate_from]. unfold Script.int_mod.
    destruct (Z.eqb_spec I 0) as [C|_]; [contradiction|].
    cbn [Script.and_then]. unfold F64.sampled. cbn [filter fst snd].
    assert (Hrest : forall j, k + 1 <= j < k + 1 + Z.of_nat (length reads) ->
                              exists a, F64.of_int j = Script.Done a).
    { intros j Hj. apply Hconv. cbn [length]. lia. }
    destruct (k mod I =? 0).
    + destruct (Hconv k) as [a Ha]; [cbn [length]; lia|].
      rewrite (int_truediv_quotient k video_fps a Ha Hfps).
      cbn [Script.and_then].
      rewrite (IH _ _ Hfps HI Hrest). unfold F64.sampled.
      cbn [map fst snd]. now rewrite <- app_assoc.
    + apply (IH _ _ Hfps HI Hrest).
Qed.

Lemma sampled_length : forall video_fps frame_interval (reads : list (frame X)) k,
  (length (F64.sampled X video_fps frame_interval (enumerate_from k reads))
   <= length reads)%nat.
Proof.
  intros. unfold F64.sampled. rewrite length_map.
  etransitivity; [apply filter_length_le|].
  now rewrite enumerate_from_length.
Qed.

(** X20.  [extract_from_video] raises [ValueError] for a video that does
    not open.  For one that opens it computes the duration, the frame
    interval [int(fps / sample_rate)] and the expected count
    [int(duration * sample_rate)], in this order and in floating point,
    and raises what the first of them raises: [ZeroDivisionError] for a
    frame rate or a sample rate of 0, [OverflowError] or [ValueError]
    where [int()] is given an infinity or [nan].  With a frame interval
    of 0 it then raises [ZeroDivisionError] at the first frame.
    Otherwise it returns the frames whose number is a multiple of the
    interval, each with the float [number / fps], unless the measured
    time is 0, which raises [ZeroDivisionError] after the loop. *)
Theorem extract_from_video_outcome :
  forall (video_path : string) (sample_rate elapsed : F64.float),
    (VideoCapture X video_path = None ->
     F64.extract_from_video X S video_path sample_rate elapsed =
     Script.Failed (Script.Builtin ValueError)) /\
    (forall v,
        VideoCapture X video_path = Some v ->
        (forall f,
            F64.int_truediv (total_frames S v) (F64.of_real (fps S v))
              = Script.Failed f ->
            F64.extract_from_video X S video_path sample_rate elapsed =
            Script.Failed f) /\
        (forall duration,
            F64.int_truediv (total_frames S v) (F64.of_real (fps S v))
              = Script.Done duration ->
            (forall f,
                Script.and_then
                  (F64.truediv (F64.of_real (fps S v)) sample_rate)
                  F64.to_int = Script.Failed f ->
                F64.extract_from_video X S video_path sample_rate elapsed =
                Script.Failed f) /\
            (forall frame_interval,
                Script.and_then
                  (F64.truediv (F64.of_real (fps S v)) sample_rate)
                  F64.to_int = Script.Done frame_interval ->
                (forall f,
                    F64.to_int (F64.mul duration sample_rate)
                      = Script.Failed f ->
                    F64.extract_from_video X S video_path sample_rate
                                           elapsed = Script.Failed f) /\
                (forall expected,
                    F64.to_int (F64.mul duration sample_rate)
                      = Script.Done expected ->
                    (frames S v <> [] -> frame_interval = 0 ->
                     F64.extract_from_video X S video_path sample_rate
                                            elapsed =
                     Script.Failed Script.ZeroDivisionError) /\
                    (frames S v = [] \/ frame_interval <> 0 ->
                     (forall k,
                         0 <= k <= Z.of_nat (length (frames S v)) ->
                         exists a, F64.of_int k = Script.Done a) ->
                     F64.extract_from_video X S video_path sample_rate
                                            elapsed =
                     if F64.is_zero elapsed
                     then Script.Failed Script.ZeroDivisionError
                     else Script.Done
                            (F64.sampled X (F64.of_real (fps S v))
                                         frame_interval
                                         (enumerate_from 0 (frames S v)))))))).
Proof.
  intros path rate elapsed. split.
  - intro Hv. unfold F64.extract_from_video. now rewrite Hv.
  - intros v Hv. unfold F64.extract_from_video. rewrite Hv.
    cbv zeta. split.
    + intros f Hf. now rewrite Hf.
    + intros duration Hd. rewrite Hd. cbn [Script.and_then]. split.
      * intros f Hf.
        destruct (F64.truediv (F64.of_real (fps S v)) rate) as [ratio|f'];
          cbn [Script.and_then] in *; [|now inversion Hf].
        now rewrite Hf.
      * intros I HI.
        destruct (F64.truediv (F64.of_real (fps S v)) rate) as [ratio|f'];
          cbn [Script.and_then] in *; [|discriminate].
        rewrite HI. cbn [Script.and_then]. split.
        -- intros f Hf. now rewrite Hf.
        -- intros expected He. rewrite He. cbn [Script.and_then]. split.
           ++ intros Hframes ->.
              destruct (frames S v); [congruence | reflexivity].
           ++ intros Hok Hconv.
              pose proof (int_truediv_divisor _ _ _ Hd) as Hfps.
              assert (Hloop :
                        F64.sample_loop X (F64.of_real (fps S v)) I
                                        (frames S v) 0 [] =
                        Script.Done
                          (F64.sampled X (F64.of_real (fps S v)) I
                                       (enumerate_from 0 (frames S v)))).
              { destruct Hok as [Hempty | Hok].
                - rewrite Hempty. reflexivity.
                - rewrite f64_sample_loop_done; [reflexivity | exact Hfps
                                                | exact Hok |].
                  intros j Hj. apply Hconv. lia. }
              rewrite Hloop. cbn [Script.and_then].
              destruct (Hconv (Z.of_nat
                                 (length
                                    (F64.sampled X (F64.of_real (fps S v)) I
                                       (enumerate_from 0 (frames S v))))))
                as [a Ha].
              { pose proof (sampled_length (F64.of_real (fps S v)) I
                                           (frames S v) 0). lia. }
              destruct (F64.is_zero elapsed) eqn:Hz.
              ** now rewrite (int_truediv_zero _ _ a Ha Hz).
              ** now rewrite (int_truediv_quotient _ _ a Ha Hz).
Qed.

(** X21.  Asking for at least twice as many samples per second as the
    video has frames per second makes the frame interval 0: on a video
    with at least one frame [extract_from_video] never returns, and it
    raises [ZeroDivisionError] unless the duration or the expected count
    [int(duration * sample_rate)] could not be computed. *)
Theorem extract_from_video_oversampling :
  forall (video_path : string) (elapsed : F64.float) (v : video X)
         (rate video_fps : Q),
    VideoCapture X video_path = Some v ->
    F64.of_real (fps S v) = F64.fin video_fps ->
    (0 < video_fps)%Q -> (2 * video_fps <= rate)%Q ->
    frames S v <> [] ->
    (exists f,
        F64.extract_from_video X S video_path (F64.fin rate) elapsed =
        Script.Failed f) /\
    (forall duration expected,
        F64.int_truediv (total_frames S v) (F64.fin video_fps)
          = Script.Done duration ->
        F64.to_int (F64.mul duration (F64.fin rate)) = Script.Done expected ->
        F64.extract_from_video X S video_path (F64.fin rate) elapsed =
        Script.Failed Script.ZeroDivisionError).
Proof.
  intros path elapsed v rate x Hv Hfps Hpos Hrate Hframes.
  assert (Hrpos : (0 < rate)%Q).
  { eapply Qlt_le_trans; [|exact Hrate].
    setoid_replace 0%Q with (2 * 0)%Q by reflexivity.
    apply Qmult_lt_l; [reflexivity | exact Hpos]. }
  assert (Hratio : Script.and_then (F64.truediv (F64.fin x) (F64.fin rate))
                                   F64.to_int = Script.Done 0).
  { unfold F64.truediv. cbn [F64.is_zero].
    destruct (Qeq_bool rate 0) eqn:Z0.
    { apply Qeq_bool_iff in Z0. rewrite Z0 in Hrpos.
      now apply Qlt_irrefl in Hrpos. }
    destruct (of_real_small (x / rate)) as [r [Hr [R0 R1]]].
    - apply Qlt_shift_div_l; [exact Hrpos|]. now rewrite Qmult_0_l.
    - apply Qle_shift_div_r; [exact Hrpos|].
      apply (Qmult_le_l _ _ 2); [reflexivity|].
      setoid_replace (2 * ((1 # 2) * rate))%Q with rate by field.
      exact Hrate.
    - rewrite Hr. cbn [Script.and_then F64.to_int]. f_equal.
      apply fraction_truncates; [exact R0|].
      eapply Qle_lt_trans; [exact R1 | reflexivity]. }
  assert (Hstep : forall duration expected,
             F64.int_truediv (total_frames S v) (F64.fin x)
               = Script.Done duration ->
             F64.to_int (F64.mul duration (F64.fin rate))
               = Script.Done expected ->
             F64.extract_from_video X S path (F64.fin rate) elapsed =
             Script.Failed Script.ZeroDivisionError).
  { intros duration expected Hd He.
    unfold F64.extract_from_video. rewrite Hv. cbv zeta.
    rewrite Hfps, Hd. cbn [Script.and_then].
    destruct (F64.truediv (F64.fin x) (F64.fin rate)) as [ratio|f];
      cbn [Script.and_then] in *; [|discriminate].
    rewrite Hratio, He. cbn [Script.and_then].
    destruct (frames S v); [congruence | reflexivity]. }
  split; [|exact Hstep].
  destruct (F64.int_truediv (total_frames S v) (F64.fin x))
    as [duration|f] eqn:Hd.
  - destruct (F64.to_int (F64.mul duration (F64.fin rate)))
      as [expected|f] eqn:He.
    + eexists. exact (Hstep duration expected eq_refl He).
    + exists f. unfold F64.extract_from_video. rewrite Hv. cbv zeta.
      rewrite Hfps, Hd. cbn [Script.and_then].
      destruct (F64.truediv (F64.fin x) (F64.fin rate)) as [ratio|f'];
        cbn [Script.and_then] in *; [|discriminate].
      rewrite Hratio, He. reflexivity.
  - exists f. unfold F64.extract_from_video. rewrite Hv. cbv zeta.
    rewrite Hfps, Hd. reflexivity.
Qed.

End FloatExtraction.

(* ================================================================== *)
(** ** The further theorems at work on the small world *)

Lemma library_built : built Scenario.library.
Proof.
  apply (built_fingerprints
           (add_fingerprints
              (fst (add_media
                      (fst (add_media create_tables "A" (Some 2012)
                                      None None None))
                      "B" None None None None))
              1 [(0, "0000000000000000"%string, [81 # 100]);
                 (1, "ffffffffffffffff"%string, [85 # 100]);
                 (2, "00000000ffffffff"%string, [90 # 100])]%Q)
           2 [(0, "ffffffff00000000"%string, [99 # 100]);
              (1, "0f0f0f0f0f0f0f0f"%string, [99 # 100])]%Q).
  apply built_fingerprints. apply built_media. apply built_media.
  apply built_empty.
Qed.

Lemma five_ingested :
  ingested Scenario.files Footage.camera Footage.ingested_five.
Proof.
  apply (ingested_video Scenario.files Footage.camera create_tables
                        Footage.ingested_five "five.mp4" "Five"
                        (Some 2020) 25 2).
  - apply ingested_empty.
  - vm_compute. reflexivity.
Qed.

(** A search of the library with a limit of 2. *)
Lemma search_by_phash_sound_witness :
  exists l,
    search_by_phash Scenario.library "0000000000000001" 64 2 = Returned l /\
    (forall c, In c l ->
               In c (stored Scenario.library) /\
               within_budget "0000000000000001" 64 c) /\
    (length l <= 2)%nat.
Proof.
  destruct (search_by_phash Scenario.library "0000000000000001" 64 2)
    as [l|e] eqn:Hl; [|vm_compute in Hl; discriminate].
  destruct (search_by_phash_sound
              Scenario.library "0000000000000001" 64 2 l Hl)
    as [Hin [_ [Hlimit _]]].
  exists l. split; [reflexivity|]. split; [exact Hin|].
  apply Hlimit. lia.
Defined.

(** The second fingerprint of the twin store, searched with a threshold
    of 0 and a limit of 1. *)
Lemma search_by_phash_finds_stored_hash_witness :
  exists c rest,
    search_by_phash Scenario.twins "0000000000000000" 0 1 =
      Returned (c :: rest) /\
    hamming_distance "0000000000000000" (c_phash c) = Returned 0%nat.
Proof.
  destruct (search_by_phash Scenario.twins "0000000000000000" 0 1)
    as [l|e] eqn:Hl; [|vm_compute in Hl; discriminate].
  destruct (search_by_phash_finds_stored_hash
              Scenario.twins
              {| f_id := 2; f_media_id := 1; f_timestamp := 20;
                 f_frame_index := 1; f_phash := "0000000000000000";
                 f_cnn_features := [9 # 10]%Q |} 0 1 l)
    as [c [rest [E H]]].
  - right. left. reflexivity.
  - lia.
  - lia.
  - exact Hl.
  - exists c, rest. subst l. split; [reflexivity | exact H].
Defined.

(** Thresholds -1 and 64 on the library. *)
Lemma search_by_phash_budget_extremes_witness :
  search_by_phash Scenario.library "0000000000000001" (-1) 50 =
    Returned [] /\
  (exists ranked,
      Permutation ranked (stored Scenario.library) /\
      search_by_phash Scenario.library "0000000000000001" 64 50 =
        Returned (slice_to ranked 50)).
Proof.
  split.
  - destruct (search_by_phash Scenario.library "0000000000000001" (-1) 50)
      as [l|e] eqn:Hl; [|vm_compute in Hl; discriminate].
    f_equal.
    apply (proj1 (search_by_phash_budget_extremes
                    Scenario.library "0000000000000001" (-1) 50));
      [lia | exact Hl].
  - apply (proj2 (search_by_phash_budget_extremes
                    Scenario.library "0000000000000001" 64 50)).
    + lia.
    + returned_by_evaluation.
    + cbn. lia.
    + each_row returned_by_evaluation.
Defined.

(** Stage 2 on the store whose fingerprint has no media row. *)
Lemma verify_with_cnn_missing_media_witness :
  verify_with_cnn Scenario.files Footage.orphans (stored Footage.orphans)
                  [1%Q] = Raised TypeError.
Proof.
  apply verify_with_cnn_missing_media.
  - each_row returned_by_evaluation.
  - apply Exists_cons_hd. reflexivity.
Defined.


(** A frame of the third fingerprint of "A" through [recognize_frame]. *)
Lemma recognize_frame_agrees_witness :
  exists rep,
    recognize_frame Scenario.files Scenario.library
                    ("00000000ffffffff"%string, [1%Q]) 15 (6 # 10) =
      Returned (Some rep) /\
    _match_frame Scenario.files Scenario.engine
                 ("00000000ffffffff"%string, [1%Q]) =
      Returned (Some (report_match rep)) /\
    1 <= fr_candidates_stage2 rep /\
    fr_candidates_stage2 rep <= fr_candidates_stage1 rep /\
    fr_candidates_stage1 rep <= 50.
Proof.
  destruct (recognize_frame_agrees
              Scenario.files Scenario.library
              ("00000000ffffffff"%string, [1%Q]) 15 (6 # 10))
    as [Hagree Hcounts].
  destruct (recognize_frame Scenario.files Scenario.library
                            ("00000000ffffffff"%string, [1%Q]) 15 (6 # 10))
    as [[rep|]|e] eqn:Hrep; [| vm_compute in Hrep; discriminate ..].
  exists rep. split; [reflexivity|]. split; [exact Hagree|].
  apply Hcounts. reflexivity.
Defined.

(** Similarities 0.75 and 0.96. *)
Lemma get_match_type_monotone_witness :
  (strength (_get_match_type (75 # 100)) <=
   strength (_get_match_type (96 # 100)))%nat.
Proof.
  apply get_match_type_monotone. by_arithmetic.
Defined.

(** The clip of five frames through [identify], measured at 12 ms. *)
Lemma identify_result_shape_witness :
  exists r m,
    identify Scenario.files Scenario.engine "five.mp4" 5 12 = Returned r /\
    processing_time_ms r = Some 12%Q /\
    stage1_candidates r = 0 /\
    title r = Some (fm_title m) /\
    confidence r = Some (fm_similarity m) /\
    fetch_title Scenario.library (fm_media_id m) = Returned (fm_title m).
Proof.
  destruct (identify Scenario.files Scenario.engine "five.mp4" 5 12)
    as [r|e] eqn:Hr; [|vm_compute in Hr; discriminate].
  destruct (identify_result_shape
              Scenario.files Scenario.engine "five.mp4" 5 12 r Hr)
    as [Htime [Hstage1 [_ Hmatched]]].
  destruct Hmatched as [m [Ht [_ [Hc [_ [Hf _]]]]]].
  - vm_compute in Hr. inversion Hr. reflexivity.
  - exists r, m. split; [reflexivity|]. auto.
Defined.

(** The clip with one frame of each title, with and without failed
    reads. *)
Lemma identify_video_only_reads_witness :
  _identify_video Footage.more_files Scenario.engine "tie.mp4" 4 =
  _identify_video Footage.more_files Scenario.engine "gaps.mp4" 4.
Proof.
  apply (identify_video_only_reads
           Footage.more_files Scenario.engine "tie.mp4" "gaps.mp4" 4
           Scenario.clip_tie Footage.clip_gaps
           Scenario.clip_tie Footage.clip_gaps);
    reflexivity.
Defined.

(** The clip whose second frame has a vector of another shape. *)
Lemma identify_video_propagates_witness :
  identify Footage.more_files Scenario.engine "faulty.mp4" 3 12 =
  Raised ValueError.
Proof.
  apply (identify_video_propagates
           Footage.more_files Scenario.engine "faulty.mp4" 3 12
           Footage.clip_faulty
           [Scenario.shot "3333333333333333"]
           [Scenario.shot "ffffffffffffffff"]
           ("0000000000000000"%string, [1; 0]%Q) ValueError).
  - reflexivity.
  - reflexivity.
  - reflexivity.
  - frames_return.
  - vm_compute. reflexivity.
Defined.

(** The clip none of whose frames matches. *)
Lemma identify_video_frames_matched_witness :
  exists r,
    _identify_video Scenario.files Scenario.engine "none.mp4" 3 =
      Returned r /\
    frames_matched r <= Z.of_nat (length Scenario.clip_none).
Proof.
  destruct (_identify_video Scenario.files Scenario.engine "none.mp4" 3)
    as [r|e] eqn:Hr; [|vm_compute in Hr; discriminate].
  exists r. split; [reflexivity|].
  apply (proj2 (identify_video_frames_matched
                  Scenario.files Scenario.engine "none.mp4" 3
                  Scenario.clip_none Scenario.clip_none r
                  eq_refl eq_refl Hr)).
Defined.

(** The library. *)
Lemma built_ids_consecutive_witness :
  map m_id (media Scenario.library) = ids_upto 2 /\
  media_seq Scenario.library = 2 /\
  map f_id (fingerprints Scenario.library) = ids_upto 5 /\
  fingerprints_seq Scenario.library = 5.
Proof.
  exact (built_ids_consecutive Scenario.library library_built).
Defined.

(** A third title added to the library. *)
Lemma add_media_lookup_witness :
  select_media Scenario.library 3 = None /\
  fetch_title
    (fst (add_media Scenario.library "C" (Some 1999) None None None)) 3 =
    Returned "C"%string /\
  fingerprints
    (fst (add_media Scenario.library "C" (Some 1999) None None None)) =
    fingerprints Scenario.library.
Proof.
  pose proof (add_media_lookup Scenario.library "C" (Some 1999) None None
                               None library_built) as H.
  cbv zeta in H. destruct H as [Hfresh [_ [Htitle [_ [_ Hfp]]]]].
  split; [exact Hfresh|]. split; [exact Htitle | exact Hfp].
Defined.

(** The clip of five frames at 10 samples per second. *)
Lemma extract_from_video_timestamps_witness :
  exists extracted,
    Script.extract_from_video Scenario.files Footage.camera "five.mp4" 10 2 =
      Script.Done extracted /\
    (length extracted <= 5)%nat /\
    StronglySorted Qlt (map (fun e => fst (fst e)) extracted).
Proof.
  destruct (Script.extract_from_video Scenario.files Footage.camera
                                      "five.mp4" 10 2)
    as [extracted|e] eqn:He; [|vm_compute in He; discriminate].
  destruct (extract_from_video_timestamps
              Scenario.files Footage.camera "five.mp4" 10 2
              Scenario.clip_five extracted)
    as [Hlen [Hsorted _]].
  - reflexivity.
  - by_arithmetic.
  - exact He.
  - exists extracted. split; [reflexivity|]. split; assumption.
Defined.

(** The clip of five frames ingested into the empty store. *)
Lemma add_video_to_database_result_witness :
  exists extracted,
    path_exists Footage.camera "five.mp4" = true /\
    Script.extract_from_video Scenario.files Footage.camera "five.mp4" 25 2 =
      Script.Done extracted /\
    extracted <> [] /\
    fingerprints Footage.ingested_five =
      rows_from 1 1 (enumerate_from 0 extracted).
Proof.
  destruct (add_video_to_database_result
              Scenario.files Footage.camera create_tables "five.mp4" "Five"
              (Some 2020) 25 2 Footage.ingested_five)
    as [extracted [Hpath [Hext [Hne [_ Hfp]]]]].
  - vm_compute. reflexivity.
  - exists extracted. split; [exact Hpath|]. split; [exact Hext|].
    split; [exact Hne | exact Hfp].
Defined.

(** The store after that run. *)
Lemma ingested_coherent_witness :
  Forall (fun r => exists row,
              select_media Footage.ingested_five (f_media_id r) = Some row)
         (fingerprints Footage.ingested_five) /\
  Forall (fun m => m_total_frames m =
                   Some (Z.of_nat (fingerprints_of Footage.ingested_five
                                                   (m_id m))))
         (media Footage.ingested_five).
Proof.
  exact (ingested_coherent Scenario.files Footage.camera
                           Footage.ingested_five five_ingested).
Defined.

(** Stage 1 and Stage 2 on that store. *)
Lemma ingested_verify_returns_witness :
  exists candidates out,
    search_by_phash Footage.ingested_five "0000000000000001" 15 50 =
      Returned candidates /\
    verify_with_cnn Scenario.files Footage.ingested_five candidates [1%Q] =
      Returned out /\
    length out = length candidates.
Proof.
  let v := eval vm_compute in
             (search_by_phash Footage.ingested_five "0000000000000001"
                              15 50) in
  match v with
  | Returned ?l =>
      destruct (ingested_verify_returns
                  Scenario.files Footage.camera Footage.ingested_five
                  "0000000000000001" 15 50 l [1%Q])
        as [out [Hout Hlen]];
        [ exact five_ingested
        | vm_compute; reflexivity
        | each_row returned_by_evaluation
        | exists l, out; split; [vm_compute; reflexivity|];
          split; [exact Hout | exact Hlen] ]
  end.
Defined.

(** The clip of five frames through both recognizers, and through the
    command-line recognizer with a camera that reports no frame rate. *)
Lemma recognize_video_agrees_witness :
  Script.and_then
    (Script.recognize_video Scenario.files Footage.camera Scenario.library
                            "five.mp4" 5 15 (6 # 10))
    (fun rep =>
       Script.Done
         (option_map (fun vr => report_summary (Script.vr_match vr)) rep)) =
  Script.and_then
    (Script.lift (_identify_video Scenario.files Scenario.engine
                                  "five.mp4" 5))
    (fun r => Script.Done (result_summary r)) /\
  Script.recognize_video Scenario.files Footage.broken_camera
                         Scenario.library "five.mp4" 5 15 (6 # 10) =
  Script.Failed Script.ZeroDivisionError.
Proof.
  split.
  - apply (proj1 (recognize_video_agrees
                    Scenario.files Footage.camera Scenario.engine
                    "five.mp4" 5)).
    intros v Hv. by_arithmetic.
  - apply (proj2 (recognize_video_agrees
                    Scenario.files Footage.broken_camera Scenario.engine
                    "five.mp4" 5) Scenario.clip_five).
    + reflexivity.
    + by_arithmetic.
Defined.

(** The clip of five frames through the command-line recognizer. *)
Lemma recognize_video_votes_witness :
  exists vr,
    Script.recognize_video Scenario.files Footage.camera Scenario.library
                           "five.mp4" 5 15 (6 # 10) =
      Script.Done (Some vr) /\
    Script.vr_votes vr = "3/5"%string /\
    exists reps,
      In (Script.vr_match vr) reps /\
      occurrences (fr_title (Script.vr_match vr)) (map fr_title reps) <= 5.
Proof.
  destruct (Script.recognize_video Scenario.files Footage.camera
                                   Scenario.library "five.mp4" 5 15
                                   (6 # 10))
    as [[vr|]|e] eqn:Hvr; [| vm_compute in Hvr; discriminate ..].
  destruct (recognize_video_votes
              Scenario.files Footage.camera Scenario.library "five.mp4"
              5 15 (6 # 10) vr Hvr)
    as [v [reads [reps [Hv [Hreads [_ [Hin [_ [_ [Hle _]]]]]]]]]].
  exists vr. split; [reflexivity|]. split.
  - vm_compute in Hvr. inversion Hvr. reflexivity.
  - exists reps. split; [exact Hin|].
    vm_compute in Hv. inversion Hv. subst v.
    vm_compute in Hreads. inversion Hreads. subst reads.
    exact Hle.
Defined.

(** A search of the twin store, a search of the empty store with a query
    that is no number, and a search of a store that holds such a
    hash. *)
Lemma search_by_phash_returns_iff_witness :
  (exists l,
      search_by_phash Scenario.twins "0000000000000000" 15 50 = Returned l) /\
  search_by_phash create_tables "zz" 15 50 = Returned [] /\
  search_by_phash
    (add_fingerprints create_tables 1 [(0%Q, "zz"%string, [1%Q])])
    "0000000000000000" 15 50 = Raised ValueError.
Proof.
  split; [|split].
  - apply (proj1 (search_by_phash_returns_iff
                    Scenario.twins "0000000000000000" 15 50)).
    each_row returned_by_evaluation.
  - apply (proj1 (proj2 (search_by_phash_returns_iff
                           create_tables "zz" 15 50))).
    reflexivity.
  - destruct (search_by_phash
                (add_fingerprints create_tables 1
                                  [(0%Q, "zz"%string, [1%Q])])
                "0000000000000000" 15 50) as [l|e] eqn:H;
      [vm_compute in H; discriminate|].
    f_equal.
    exact (proj2 (proj2 (search_by_phash_returns_iff
                           (add_fingerprints create_tables 1
                              [(0%Q, "zz"%string, [1%Q])])
                           "0000000000000000" 15 50)) e H).
Defined.

(** A file that is no video; the clip of five frames, 25 frames per
    second, at 25/3 samples per second, where the quotient of the two
    floats is 3.0 and the frames 0 and 3 are returned; the same clip at
    100 samples per second and at a sample rate that is [nan]. *)
Lemma extract_from_video_outcome_witness :
  F64.extract_from_video Scenario.files Footage.camera "gone.mp4"
                         (F64.fin 25) (F64.fin 2) =
    Script.Failed (Script.Builtin ValueError) /\
  F64.extract_from_video Scenario.files Footage.camera "five.mp4"
                         (F64.of_real (25 # 3)) (F64.fin 2) =
    Script.Done
      (F64.sampled Scenario.files (F64.of_real 25) 3
                   (enumerate_from 0 (Footage.readable_frames
                                        Scenario.clip_five))) /\
  F64.extract_from_video Scenario.files Footage.camera "five.mp4"
                         (F64.fin 100) (F64.fin 2) =
    Script.Failed Script.ZeroDivisionError /\
  F64.extract_from_video Scenario.files Footage.camera "five.mp4"
                         F64.nan (F64.fin 2) =
    Script.Failed (Script.Builtin ValueError).
Proof.
  split; [|split; [|split]].
  - apply (proj1 (extract_from_video_outcome
                    Scenario.files Footage.camera "gone.mp4"
                    (F64.fin 25) (F64.fin 2))).
    reflexivity.
  - destruct (proj2 (extract_from_video_outcome
                       Scenario.files Footage.camera "five.mp4"
                       (F64.of_real (25 # 3)) (F64.fin 2))
                    Scenario.clip_five eq_refl) as [_ Hd].
    match type of Hd with
    | forall duration, ?c = Script.Done duration -> _ =>
        let d := eval vm_compute in c in
        match d with
        | Script.Done ?x =>
            destruct (Hd x) as [_ Hi]; [vm_compute; reflexivity|]
        end
    end.
    destruct (Hi 3) as [_ He]; [vm_compute; reflexivity|].
    match type of He with
    | forall expected, ?c = Script.Done expected -> _ =>
        let d := eval vm_compute in c in
        match d with
        | Script.Done ?n =>
            destruct (He n) as [_ Hs]; [vm_compute; reflexivity|]
        end
    end.
    apply Hs.
    + right. discriminate.
    + intros k Hk.
      assert (Hcases : k = 0 \/ k = 1 \/ k = 2 \/ k = 3 \/ k = 4 \/ k = 5).
      { change (Z.of_nat (length (frames Footage.camera
                                         Scenario.clip_five)))
          with 5 in Hk. lia. }
      destruct Hcases as [->|[->|[->|[->|[->| ->]]]]];
        eexists; vm_compute; reflexivity.
  - destruct (proj2 (extract_from_video_outcome
                       Scenario.files Footage.camera "five.mp4"
                       (F64.fin 100) (F64.fin 2))
                    Scenario.clip_five eq_refl) as [_ Hd].
    match type of Hd with
    | forall duration, ?c = Script.Done duration -> _ =>
        let d := eval vm_compute in c in
        match d with
        | Script.Done ?x =>
            destruct (Hd x) as [_ Hi]; [vm_compute; reflexivity|]
        end
    end.
    destruct (Hi 0) as [_ He]; [vm_compute; reflexivity|].
    match type of He with
    | forall expected, ?c = Script.Done expected -> _ =>
        let d := eval vm_compute in c in
        match d with
        | Script.Done ?n =>
            destruct (He n) as [Hs _]; [vm_compute; reflexivity|]
        end
    end.
    apply Hs; [discriminate | reflexivity].
  - destruct (proj2 (extract_from_video_outcome
                       Scenario.files Footage.camera "five.mp4"
                       F64.nan (F64.fin 2))
                    Scenario.clip_five eq_refl) as [_ Hd].
    match type of Hd with
    | forall duration, ?c = Script.Done duration -> _ =>
        let d := eval vm_compute in c in
        match d with
        | Script.Done ?x =>
            destruct (Hd x) as [Hi _]; [vm_compute; reflexivity|]
        end
    end.
    apply Hi. vm_compute. reflexivity.
Defined.

(** The clip of five frames, 25 frames per second, at 100 samples per
    second. *)
Lemma extract_from_video_oversampling_witness :
  F64.extract_from_video Scenario.files Footage.camera "five.mp4"
                         (F64.fin 100) (F64.fin 2) =
  Script.Failed Script.ZeroDivisionError.
Proof.
  assert (Hfps : F64.of_real (fps Footage.camera Scenario.clip_five) =
                 F64.fin (Np.float64 25))
    by (vm_compute; reflexivity).
  destruct (extract_from_video_oversampling
              Scenario.files Footage.camera "five.mp4" (F64.fin 2)
              Scenario.clip_five 100 (Np.float64 25) eq_refl Hfps)
    as [_ Hzero].
  - by_arithmetic.
  - by_arithmetic.
  - by_arithmetic.
  - match type of Hzero with
    | forall duration expected, ?c = Script.Done duration -> _ =>
        let d := eval vm_compute in c in
        match d with
        | Script.Done ?x =>
            let n := eval vm_compute in
                       (F64.to_int (F64.mul x (F64.fin 100))) in
            match n with
            | Script.Done ?m =>
                apply (Hzero x m); vm_compute; reflexivity
            end
        end
    end.
Defined.
